(* ===================================================================== *)
(*  ai-spy-mobile: job lifecycle orchestration, shallow embedding        *)
(*                                                                       *)
(*  Sources embedded here:                                               *)
(*    Components/resultCache.js          (ResultCacheService)            *)
(*    Components/enhancedApiService.js   (EnhancedApiService)            *)
(*    Components/audioProcessingService.js (AudioProcessingService)      *)
(*    Services/notificationService.js    (NotificationService)           *)
(*    Components/Results.js              (renderTranscription)           *)
(*    Components/fileValidator.js        (FileValidator)                 *)
(*    Screens/Home.js                    (jobCompletionUtils,            *)
(*                                        checkCompletedJobs)            *)
(* ===================================================================== *)

From Stdlib Require Import ZArith Lia Ascii String List Bool QArith_base.
From stdpp Require Import gmap strings list pretty.

Set Warnings "-register-all".

Local Open Scope string_scope.
Local Open Scope Z_scope.

(* ===================================================================== *)
(*  JavaScript values, as far as the services look at them               *)
(* ===================================================================== *)

Module JS.

(** Values that travel through JSON bodies, AsyncStorage and callbacks.
    Numbers are the integers the services handle (timestamps, counters).
    An object is its list of own properties, first binding first. *)
Inductive jsval : Type :=
  | JUndefined
  | JNull
  | JBool (b : bool)
  | JNum (n : Z)
  | JStr (s : string)
  | JArr (items : list jsval)
  | JObj (fields : list (string * jsval)).

(** [!!v] *)
Definition truthy (v : jsval) : bool :=
  match v with
  | JUndefined | JNull => false
  | JBool b => b
  | JNum n => negb (n =? 0)
  | JStr s => negb (String.eqb s "")
  | JArr _ | JObj _ => true
  end.

(** [typeof v === 'object'] (true of null and of arrays, as in JS). *)
Definition typeof_object (v : jsval) : bool :=
  match v with
  | JNull | JArr _ | JObj _ => true
  | _ => false
  end.

Fixpoint assoc (k : string) (fs : list (string * jsval)) : jsval :=
  match fs with
  | [] => JUndefined
  | (k', v) :: rest => if String.eqb k k' then v else assoc k rest
  end.

(** [v.k]: [None] is the TypeError of reading a property of null or
    undefined; a missing property reads as undefined. *)
Definition get_field (v : jsval) (k : string) : option jsval :=
  match v with
  | JUndefined | JNull => None
  | JObj fs => Some (assoc k fs)
  | _ => Some JUndefined
  end.

(** [a === b] between a freshly parsed value and another value:
    primitives compare by value, objects and arrays by identity, and two
    separately built objects are never identical. *)
Definition strict_eq (a b : jsval) : bool :=
  match a, b with
  | JUndefined, JUndefined => true
  | JNull, JNull => true
  | JBool x, JBool y => Bool.eqb x y
  | JNum x, JNum y => x =? y
  | JStr x, JStr y => String.eqb x y
  | _, _ => false
  end.

(** [v.k] on a receiver already known not to be null or undefined. *)
Definition assoc_field (v : jsval) (k : string) : jsval :=
  match get_field v k with Some x => x | None => JUndefined end.

(** A parameter declared [p = null]: undefined takes the default. *)
Definition default_null (v : jsval) : jsval :=
  match v with JUndefined => JNull | _ => v end.

(** [a || b] *)
Definition js_or (a b : jsval) : jsval := if truthy a then a else b.

(** [JSON.parse(JSON.stringify(v))] for a value placed inside an object or
    at top level: properties whose value is undefined are dropped, an
    undefined array element becomes null. *)
Fixpoint json_roundtrip (v : jsval) : jsval :=
  match v with
  | JArr items =>
      JArr ((fix items_rt (l : list jsval) : list jsval :=
               match l with
               | [] => []
               | JUndefined :: r => JNull :: items_rt r
               | x :: r => json_roundtrip x :: items_rt r
               end) items)
  | JObj fs =>
      JObj ((fix fields_rt (l : list (string * jsval)) : list (string * jsval) :=
               match l with
               | [] => []
               | (_, JUndefined) :: r => fields_rt r
               | (k, x) :: r => (k, json_roundtrip x) :: fields_rt r
               end) fs)
  | _ => v
  end.

End JS.

Import JS.

(* ===================================================================== *)
(*  resultCache.js                                                       *)
(* ===================================================================== *)

Module ResultCache.

(** What [AsyncStorage.getItem] hands back for a key, seen through what
    the service does with it: the empty string (falsy), text on which
    [JSON.parse] throws, or text that parses to a value. *)
Inductive text : Type :=
  | TEmpty
  | TGarbage
  | TJson (v : jsval).

Definition COMPLETED_RESULTS_KEY : string := "completed_analysis_results".

(** One element of the array returned by [getUnshownCompletedResults]. *)
Record unshown : Type := Unshown {
    u_jobId : jsval;
    u_result : jsval;
    u_transcriptionData : jsval;
    u_cachedAt : jsval
  }.

Section Service.
Implicit Types st : gmap string text.

Definition clearAllCache st : gmap string text :=
  delete COMPLETED_RESULTS_KEY st.

Definition cacheData (jobId result transcriptionData : jsval) (now : Z) : jsval :=
  JObj [ ("jobId", jobId);
         ("result", result);
         ("transcriptionData", transcriptionData);
         ("cachedAt", JNum now);
         ("source", JStr "background_completion");
         ("shown", JBool false) ].

(** [cacheResult(jobId, result, transcriptionData)]; [now] is [Date.now()]. *)
Definition cacheResult (jobId result transcriptionData : jsval) (now : Z) st
  : gmap string text :=
  let st1 := clearAllCache st in
  if negb (truthy result) || negb (typeof_object result) then st1
  else <[COMPLETED_RESULTS_KEY :=
           TJson (json_roundtrip
                    (cacheData jobId result (default_null transcriptionData) now))]> st1.

(** The structure test of [getCachedResult]:
    [!cacheData.jobId || !cacheData.result || typeof cacheData.result !== 'object'].
    [None] when reading a property throws. *)
Definition invalid_structure (cd : jsval) : option bool :=
  match get_field cd "jobId", get_field cd "result" with
  | Some j, Some r => Some (negb (truthy j) || negb (truthy r) || negb (typeof_object r))
  | _, _ => None
  end.

Definition getCachedResult st : option jsval * gmap string text :=
  match st !! COMPLETED_RESULTS_KEY with
  | None | Some TEmpty => (None, st)
  | Some TGarbage => (None, clearAllCache st)
  | Some (TJson cd) =>
      match invalid_structure cd with
      | Some false => (Some cd, st)
      | Some true => (None, clearAllCache st)
      | None => (None, clearAllCache st)
      end
  end.

(** The object literal built by [getUnshownCompletedResults]. *)
Definition entry_of (cd : jsval) : unshown :=
  {| u_jobId := assoc_field cd "jobId";
     u_result := assoc_field cd "result";
     u_transcriptionData := assoc_field cd "transcriptionData";
     u_cachedAt := assoc_field cd "cachedAt" |}.

Definition getUnshownCompletedResults st : list unshown * gmap string text :=
  match getCachedResult st with
  | (Some cd, st1) =>
      if negb (truthy (assoc_field cd "shown")) then
        if truthy (assoc_field cd "result") && typeof_object (assoc_field cd "result")
        then ([entry_of cd], st1)
        else ([], clearAllCache st1)
      else ([], st1)
  | (None, st1) => ([], st1)
  end.

Definition markResultAsShown (jobId : jsval) st : gmap string text :=
  match getCachedResult st with
  | (Some cd, st1) =>
      if strict_eq (assoc_field cd "jobId") jobId
      then clearAllCache st1 else st1
  | (None, st1) => st1
  end.

(** [initialize()] *)
Definition initialize st : gmap string text := clearAllCache st.

(** Return value of [getCacheStats]. *)
Record stats : Type := Stats {
    totalCached : Z;
    unshownCount : Z;
    oldCount : Z;
    cacheKeys : list jsval
  }.

Definition getCacheStats st : stats * gmap string text :=
  match getCachedResult st with
  | (Some cd, st1) =>
      (Stats 1 (if truthy (assoc_field cd "shown") then 0 else 1) 0
             [assoc_field cd "jobId"], st1)
  | (None, st1) => (Stats 0 0 0 [], st1)
  end.

End Service.

(** A cache holding one freshly stored, unshown result. *)
Definition sample_store : gmap string text :=
  cacheResult (JStr "job-1") (JObj [("overall_prediction", JStr "AI")]) JNull
              1700000000000 ∅.

End ResultCache.

(* ===================================================================== *)
(*  String primitives used by the services                               *)
(* ===================================================================== *)

Module Str.

(** [hay.includes(needle)] *)
Fixpoint includes (needle hay : string) : bool :=
  String.prefix needle hay ||
  match hay with
  | EmptyString => false
  | String _ rest => includes needle rest
  end.

(** [s.startsWith(p)] *)
Definition startsWith (p s : string) : bool := String.prefix p s.

(** [s.split(sep)] for a one-character separator; never empty. *)
Fixpoint split (sep : ascii) (s : string) : list string :=
  match s with
  | EmptyString => [EmptyString]
  | String c rest =>
      if Ascii.eqb c sep then EmptyString :: split sep rest
      else match split sep rest with
           | h :: t => String c h :: t
           | [] => [String c EmptyString]
           end
  end.

(** [parts.join(sep)] *)
Definition join (sep : string) (parts : list string) : string :=
  String.concat sep parts.

(** [parts.slice(0, n)] *)
Definition slice0 {A} (n : nat) (parts : list A) : list A := firstn n parts.

(** White space and line terminators as [parseInt] skips them, among the
    code units below 256: tab, LF, VT, FF, CR, space and the no-break
    space. *)
Definition is_space (c : ascii) : bool :=
  let n := nat_of_ascii c in
  ((n =? 32) || (n =? 9) || (n =? 10) || (n =? 11) || (n =? 12) || (n =? 13)
   || (n =? 160))%nat.

Fixpoint skip_spaces (s : string) : string :=
  match s with
  | String c rest => if is_space c then skip_spaces rest else s
  | EmptyString => s
  end.

(** Value of a digit in the given radix (10 or 16). *)
Definition digit_val (radix : Z) (c : ascii) : option Z :=
  let n := Z.of_nat (nat_of_ascii c) in
  let v := if (48 <=? n) && (n <=? 57) then Some (n - 48)
           else if (97 <=? n) && (n <=? 102) then Some (n - 87)
           else if (65 <=? n) && (n <=? 70) then Some (n - 55)
           else None in
  match v with
  | Some d => if d <? radix then Some d else None
  | None => None
  end.

(** Longest prefix of digits, accumulated left to right. *)
Fixpoint digits (radix : Z) (acc : option Z) (s : string) : option Z :=
  match s with
  | EmptyString => acc
  | String c rest =>
      match digit_val radix c with
      | Some d => digits radix (Some (default 0 acc * radix + d)) rest
      | None => acc
      end
  end.

(** [parseInt(s)] without a radix argument; [None] is NaN. *)
Definition parseInt (s : string) : option Z :=
  let s1 := skip_spaces s in
  let '(sign, s2) :=
    match s1 with
    | String "-" r => (-1, r)
    | String "+" r => (1, r)
    | _ => (1, s1)
    end in
  let '(radix, s3) :=
    match s2 with
    | String "0" (String "x" r) => (16, r)
    | String "0" (String "X" r) => (16, r)
    | _ => (10, s2)
    end in
  match digits radix None s3 with
  | Some n => Some (sign * n)
  | None => None
  end.

(** Text of a value inside a template literal or a [+] concatenation
    ([String(v)]); an array is its elements joined by commas, null and
    undefined elements being empty. A number is printed with all its
    digits, as JavaScript does for integers below 10^21 in magnitude
    (time stamps and counters are far below). *)
Fixpoint to_text (v : jsval) : string :=
  match v with
  | JStr s => s
  | JNum n => pretty n
  | JBool true => "true"
  | JBool false => "false"
  | JNull => "null"
  | JUndefined => "undefined"
  | JArr items =>
      join ","
           ((fix texts (l : list jsval) : list string :=
               match l with
               | [] => []
               | JNull :: r | JUndefined :: r => EmptyString :: texts r
               | x :: r => to_text x :: texts r
               end) items)
  | JObj _ => "[object Object]"
  end.

End Str.

(* ===================================================================== *)
(*  Runtime: errors, fetch, the process-wide state, an error/state monad *)
(* ===================================================================== *)

Module Runtime.

(** A thrown [Error]: its [name] and [message]. *)
Record error : Type := Err { e_name : string; e_message : string }.

Definition Error (msg : string) : error := Err "Error" msg.
Definition TypeError (msg : string) : error := Err "TypeError" msg.

(** A [fetch] response: status, what [response.json()] resolves to
    ([None]: it rejects), and [response.text()]. *)
Record response : Type := Resp {
    status : Z;
    json : option jsval;
    body_text : string
  }.

(** [response.ok] *)
Definition ok (r : response) : bool := (200 <=? status r) && (status r <=? 299).

(** Where in the source a [fetch] is issued. *)
Inductive site : Type :=
  | SiteTokenCheck   (* getAuthToken: validation request *)
  | SiteTokenIssue   (* generateNewToken: /auth/token *)
  | SiteApi          (* makeAuthenticatedRequest *)
  | SiteLocalFile    (* fetch(fileUri) *)
  | SiteUpload.      (* PUT to the signed URL *)

Record request : Type := Req {
    r_site : site;
    r_method : string;
    r_url : string;
    r_headers : list (string * string);
    r_body : jsval
  }.

Inductive fetch_outcome : Type :=
  | Fetched (r : response)
  | FetchThrows (e : error).

(** One argument list of a subscriber callback. *)
Inductive call : Type :=
  | OnUpdate (jobId : jsval) (status : jsval)
  | OnComplete (jobId : jsval) (result transcription : jsval)
  | OnError (jobId : jsval) (detail : jsval).

(** The closure of [monitorJob] created by one [submitAndMonitor] call. *)
Record callbacks : Type := Callbacks {
    has_onUpdate : bool;
    has_onComplete : bool;
    has_onError : bool
  }.

Record poll_closure : Type := PollClosure {
    pc_jobId : jsval;
    pc_hasSubscription : jsval;
    pc_callbacks : callbacks
  }.

(** Effects other than fetches, in the order they happen. *)
Inductive effect : Type :=
  | EClearAuth
  | ESleep (ms : Z)
  | ESetTimeout (ms : Z)
  | ECall (c : call).

(** Process-wide state of the enhanced API service and its platform. *)
Record world : Type := World {
    secure : gmap string string;        (* expo-secure-store *)
    authToken : jsval;                  (* this.authToken *)
    directResults : gmap string jsval;  (* this.directResults *)
    revenuecat_id : option string;      (* customerInfo.originalAppUserId, if any *)
    random_tag : string;                (* Math.random().toString(36).substr(2, 9) *)
    now : Z;                            (* Date.now() *)
    history : list request;             (* fetches issued so far, oldest first *)
    effects : list effect;              (* oldest first *)
    timers : list poll_closure          (* pending setTimeout(monitorJob, _) *)
  }.

Definition set_secure (f : gmap string string -> gmap string string) (w : world) : world :=
  World (f (secure w)) (authToken w) (directResults w) (revenuecat_id w) (random_tag w)
        (now w) (history w) (effects w) (timers w).
Definition set_authToken (t : jsval) (w : world) : world :=
  World (secure w) t (directResults w) (revenuecat_id w) (random_tag w)
        (now w) (history w) (effects w) (timers w).
Definition set_directResults (f : gmap string jsval -> gmap string jsval) (w : world) : world :=
  World (secure w) (authToken w) (f (directResults w)) (revenuecat_id w) (random_tag w)
        (now w) (history w) (effects w) (timers w).
Definition set_now (t : Z) (w : world) : world :=
  World (secure w) (authToken w) (directResults w) (revenuecat_id w) (random_tag w)
        t (history w) (effects w) (timers w).
Definition push_request (r : request) (w : world) : world :=
  World (secure w) (authToken w) (directResults w) (revenuecat_id w) (random_tag w)
        (now w) (history w ++ [r]) (effects w) (timers w).
Definition push_effect (e : effect) (w : world) : world :=
  World (secure w) (authToken w) (directResults w) (revenuecat_id w) (random_tag w)
        (now w) (history w) (effects w ++ [e]) (timers w).
Definition set_timers (f : list poll_closure -> list poll_closure) (w : world) : world :=
  World (secure w) (authToken w) (directResults w) (revenuecat_id w) (random_tag w)
        (now w) (history w) (effects w) (f (timers w)).

(** Outcome of an async function: a value, a rejection, or the recursion
    budget of the model ran out. *)
Inductive result (A : Type) : Type :=
  | Ok (a : A)
  | Throw (e : error)
  | Diverged.
Arguments Ok {A} a.
Arguments Throw {A} e.
Arguments Diverged {A}.

Definition M (A : Type) : Type := world -> result A * world.

Definition ret {A} (a : A) : M A := fun w => (Ok a, w).
Definition throw {A} (e : error) : M A := fun w => (Throw e, w).
Definition bind {A B} (m : M A) (k : A -> M B) : M B :=
  fun w => match m w with
           | (Ok a, w1) => k a w1
           | (Throw e, w1) => (Throw e, w1)
           | (Diverged, w1) => (Diverged, w1)
           end.
(** [try { m } catch (e) { h e }] *)
Definition try_catch {A} (m : M A) (h : error -> M A) : M A :=
  fun w => match m w with
           | (Throw e, w1) => h e w1
           | other => other
           end.
Definition modify (f : world -> world) : M unit := fun w => (Ok tt, f w).
Definition gets {A} (f : world -> A) : M A := fun w => (Ok (f w), w).

(** [v.k] as a step that throws the TypeError of a null receiver. *)
Definition field (v : jsval) (k : string) : M jsval :=
  match get_field v k with
  | Some x => ret x
  | None => throw (TypeError ("Cannot read property '" ++ k ++ "' of null"))
  end.

(** [await response.json()] *)
Definition read_json (r : response) : M jsval :=
  match json r with
  | Some v => ret v
  | None => throw (Err "SyntaxError" "JSON Parse error")
  end.

Definition emit (e : effect) : M unit := modify (push_effect e).

(** [await new Promise((resolve) => setTimeout(resolve, ms))] *)
Definition sleep (ms : Z) : M unit :=
  modify (fun w => set_now (now w + ms) (push_effect (ESleep ms) w)).

(** A step of the platform or of a subscriber that throws when given an
    error. *)
Definition rejecting (e : option error) : M unit :=
  match e with
  | Some x => throw x
  | None => ret tt
  end.

(** Invoke a subscriber callback when it was supplied; the callback
    returns. Callbacks that throw are in [Subscribers]. *)
Definition invoke (present : bool) (c : call) : M unit :=
  if present then emit (ECall c) else ret tt.

End Runtime.

Import Runtime.

Declare Scope js_scope.
Delimit Scope js_scope with js.
Notation "x <- m ;; k" := (bind m (fun x => k))
  (at level 100, m at next level, right associativity) : js_scope.
Notation "m ;;; k" := (bind m (fun _ => k))
  (at level 100, right associativity) : js_scope.

(* ===================================================================== *)
(*  enhancedApiService.js                                                *)
(* ===================================================================== *)

Module Api.
Import Str.
Local Open Scope js_scope.

Definition baseURL : string := "https://your-api-domain.com".
Definition maxRetries : nat := 3.

(** The [options] argument of [makeAuthenticatedRequest]. *)
Record options : Type := Options {
    o_method : string;
    o_headers : list (string * string);
    o_body : jsval
  }.
Definition no_options : options := Options "GET" [] JUndefined.

(** How one pass through the body of [makeAuthenticatedRequest] ends:
    with the response, or with
    [return this.makeAuthenticatedRequest(url, options, retryCount + 1)]. *)
Inductive attempt_result : Type :=
  | Done (r : response)
  | Retry.

(** Return value of [checkSubscriptionStatus]. *)
Record subscription : Type := Subscription {
    has_subscription : jsval;
    tier : string;
    verification_method : string;
    verified : bool;
    sub_error : option string
  }.

(** Return value of [getEnhancedJobStatus]. *)
Record job_status : Type := JobStatus {
    st_status : jsval;
    st_result : jsval;
    st_transcription_data : jsval;
    st_error : jsval;
    st_progress_message : string
  }.

Definition status_obj (s : job_status) : jsval :=
  JObj [ ("status", st_status s);
         ("result", st_result s);
         ("transcription_data", st_transcription_data s);
         ("error", st_error s);
         ("progress_message", JStr (st_progress_message s)) ].

(** [currentTime > parseInt(expiry)] with
    [currentTime = Math.floor(Date.now() / 1000)]; a comparison with NaN
    is false. *)
Definition expired (expiry : string) (nowMs : Z) : bool :=
  match parseInt expiry with
  | Some e => e <? nowMs / 1000
  | None => false
  end.

(** Lines 188-232 of [getCurrentUserId]: from the base64-decoded payload to
    the client id, or null. *)
Definition decodePayload (decoded : string) (nowMs : Z) : option string :=
  if includes "|" decoded then
    match split "|" decoded with
    | [clientId; expiry; _timestamp; _signature] =>
        if expired expiry nowMs then None else Some clientId
    | _ => None
    end
  else
    let parts := split ":" decoded in
    if (length parts <? 4)%nat then None
    else
      let expiry := nth (length parts - 3) parts "" in
      let clientId := join ":" (slice0 (length parts - 3) parts) in
      if expired expiry nowMs then None else Some clientId.

(** The requests the service sends. *)
Definition subscription_request : options :=
  Options "POST" [("Content-Type", "application/json")]
          (JObj [("has_subscription", JBool false)]).

Definition upload_url_request (fileName : jsval) : options :=
  Options "POST" [("Content-Type", "application/json")]
          (JObj [("file_name", js_or fileName (JStr "audio.mp3"));
                 ("file_type", JStr "audio/mpeg")]).

Definition analyze_request (fileName : jsval) : options :=
  Options "POST" [] (JObj [("file", js_or fileName (JStr "audio.mp3"))]).

Definition report_request (bucket bucketFileName : jsval) : options :=
  Options "POST" [("Content-Type", "application/json")]
          (JObj [("bucket_name", bucket); ("file_name", bucketFileName)]).

(** [fetch(fileUri)] followed by [.blob()] *)
Definition local_file_request (fileUri : string) : request :=
  Req SiteLocalFile "GET" fileUri [] JUndefined.

(** [fetch(signed_url, { method: 'PUT', ... body: fileBlob })] *)
Definition upload_request (signed_url : jsval) : request :=
  Req SiteUpload "PUT" (to_text signed_url) [("Content-Type", "audio/mpeg")] JUndefined.

Section WithEnvironment.

(** The remote side and the network: the outcome of a [fetch], given
    everything fetched before. *)
Variable net : list request -> request -> fetch_outcome.

(** [decode] of the base-64 package; [None] when it throws. *)
Variable base64Decode : string -> option string.

Definition fetch (req : request) : M response :=
  fun w => match net (history w) req with
           | Fetched r => (Ok r, push_request req w)
           | FetchThrows e => (Throw e, push_request req w)
           end.

(** [SecureStore.getItemAsync]: the stored string, or null. *)
Definition secure_get (k : string) : M jsval :=
  gets (fun w => match secure w !! k with Some s => JStr s | None => JNull end).

(** [SecureStore.setItemAsync] rejects values that are not strings. *)
Definition secure_set (k : string) (v : jsval) : M unit :=
  match v with
  | JStr s => modify (set_secure (insert k s))
  | _ => throw (Error "Invalid value provided to SecureStore. Values must be strings")
  end.

Definition secure_delete (k : string) : M unit :=
  modify (set_secure (delete k)).

(** What the platform does during one call of [getConsistentUserId], apart
    from the stored items themselves: each of the two SecureStore promises
    may reject (the keychain can be unavailable), and [Math.random] gives
    one more value when the catch block runs. *)
Record keychain : Type := Keychain {
    getItem_error : option error;   (* SecureStore.getItemAsync rejects with it *)
    setItem_error : option error;   (* SecureStore.setItemAsync rejects with it *)
    fallback_tag : string           (* Math.random().toString(36).substr(2, 9) in the catch *)
  }.

(** A keychain whose promises resolve. *)
Definition working : keychain := Keychain None None "".

(** The inner try around [Purchases.getCustomerInfo()] leaves
    [revenuecat_id] as [None] when that call rejects; the outer try turns a
    rejection of SecureStore into a fallback id that is not stored. *)
Definition getConsistentUserId (kc : keychain) : M string :=
  try_catch
    (rc <- gets revenuecat_id ;;
     if truthy (match rc with Some s => JStr s | None => JUndefined end)
     then ret (default "" rc)
     else
       rejecting (getItem_error kc) ;;;
       stored <- secure_get "device_user_id" ;;
       if truthy stored then ret (to_text stored)
       else
         t <- gets now ;;
         tag <- gets random_tag ;;
         let deviceUserId := "device_" ++ pretty t ++ "_" ++ tag in
         rejecting (setItem_error kc) ;;;
         secure_set "device_user_id" (JStr deviceUserId) ;;;
         ret deviceUserId)
    (fun error =>
       t <- gets now ;;
       ret ("fallback_" ++ pretty t ++ "_" ++ fallback_tag kc)).

Definition generateNewToken : M jsval :=
  consistentUserId <- getConsistentUserId working ;;
  response <- fetch (Req SiteTokenIssue "POST" (baseURL ++ "/auth/token")
                         [("Content-Type", "application/json")]
                         (JObj [("app_user_id", JStr consistentUserId)])) ;;
  if negb (ok response)
  then throw (Error ("HTTP error! status: " ++ pretty (status response)))
  else
    data <- read_json response ;;
    access_token <- field data "access_token" ;;
    token <- (if truthy access_token then ret access_token else field data "token") ;;
    modify (set_authToken token) ;;;
    secure_set "auth_token" token ;;;
    ret token.

(** The validation request of [getAuthToken]: [inl t] is the early
    [return token], [inr t] the value of [token] afterwards. *)
Definition validate_stored (token : jsval) : M (jsval + jsval) :=
  try_catch
    (testResponse <- fetch (Req SiteTokenCheck "POST" (baseURL ++ "/check-user-subscription")
                                [("Authorization", "Bearer " ++ to_text token);
                                 ("Content-Type", "application/json")]
                                (JObj [("has_subscription", JBool false)])) ;;
     if ok testResponse then ret (inl token)
     else if status testResponse =? 401 then ret (inr JNull)
     else ret (inr token))
    (fun _ => ret (inr JNull)).

Definition getAuthToken : M jsval :=
  try_catch
    (stored <- secure_get "authToken" ;;
     checked <- (if truthy stored then validate_stored stored else ret (inr stored)) ;;
     match checked with
     | inl token => ret token
     | inr token =>
         if negb (truthy token) then
           fresh <- generateNewToken ;;
           (if truthy fresh then secure_set "authToken" fresh else ret tt) ;;;
           ret fresh
         else ret token
     end)
    (fun _ =>
       fallback <- try_catch
                     (fallbackToken <- generateNewToken ;;
                      if truthy fallbackToken
                      then secure_set "authToken" fallbackToken ;;; ret (Some fallbackToken)
                      else ret None)
                     (fun _ => ret None) ;;
       match fallback with
       | Some fallbackToken => ret fallbackToken
       | None =>
           throw (Error "Failed to obtain authentication token. Please check your internet connection and try again.")
       end).

Definition getCurrentUserId : M (option string) :=
  try_catch
    (token <- getAuthToken ;;
     if negb (truthy token) then ret None
     else
       match base64Decode (to_text token) with
       | None => throw (Err "InvalidCharacterError"
                          "Invalid character: the string to be decoded is not correctly encoded.")
       | Some decoded =>
           t <- gets now ;;
           ret (decodePayload decoded t)
       end)
    (fun _ => ret None).

Definition clearAuthToken : M unit :=
  emit EClearAuth ;;;
  modify (set_authToken JNull) ;;;
  secure_delete "authToken" ;;;
  secure_delete "auth_token".

(** [resetAuthentication()] *)
Definition resetAuthentication : M unit :=
  clearAuthToken ;;;
  modify (set_authToken JNull).

Definition backoff (retryCount : nat) : Z := 2 ^ Z.of_nat retryCount * 1000.

(** One pass through the body of [makeAuthenticatedRequest]. The
    recursive calls are returned without [await], so their rejections do
    not reach this [catch]. *)
Definition attempt (url : string) (opts : options) (retryCount : nat) : M attempt_result :=
  try_catch
    (token <- getAuthToken ;;
     if negb (truthy token) then throw (Error "No authentication token available")
     else
       let fullUrl := if startsWith "http" url then url else baseURL ++ url in
       if negb (startsWith "https://" fullUrl)
       then throw (Error "HTTPS is required for all API requests. Ensure your API_BASE_URL uses https://")
       else
         let headers := app [ ("Authorization", "Bearer " ++ to_text token);
                              ("X-Forwarded-Proto", "https");
                              ("Upgrade-Insecure-Requests", "1") ] (o_headers opts) in
         response <- fetch (Req SiteApi (o_method opts) fullUrl headers (o_body opts)) ;;
         if negb (ok response) then
           if (status response =? 401) && (retryCount <? 2)%nat then
             clearAuthToken ;;; ret Retry
           else if (500 <=? status response) && (retryCount <? maxRetries)%nat then
             sleep (backoff retryCount) ;;; ret Retry
           else throw (Error ("HTTP error! status: " ++ pretty (status response)))
         else ret (Done response))
    (fun error =>
       if String.eqb (e_name error) "AbortError" then
         throw (Error "Request timeout. Please check your internet connection and try again.")
       else if String.eqb (e_message error) "Network request failed"
               || String.eqb (e_name error) "TypeError" then
         if (retryCount <? maxRetries)%nat then
           sleep (backoff retryCount) ;;; ret Retry
         else
           throw (Error "Network connection failed. Please check your internet connection and try again.")
       else if includes "No authentication token" (e_message error) then
         throw (Error "Authentication failed. Please restart the app and try again.")
       else throw error).

Fixpoint attempts (fuel : nat) (url : string) (opts : options) (retryCount : nat)
  : M response :=
  match fuel with
  | O => fun w => (Diverged, w)
  | S fuel' =>
      a <- attempt url opts retryCount ;;
      match a with
      | Done r => ret r
      | Retry => attempts fuel' url opts (S retryCount)
      end
  end.

Definition makeAuthenticatedRequest (url : string) (opts : options) (retryCount : nat)
  : M response :=
  attempts (S (maxRetries - retryCount)) url opts retryCount.

Definition checkSubscriptionStatus : M subscription :=
  try_catch
    (response <- makeAuthenticatedRequest "/check-user-subscription"
                   subscription_request 0 ;;
     if negb (ok response) then
       ret (Subscription (JBool false) "free" "api_fallback" false None)
     else
       result <- read_json response ;;
       hs <- field result "has_subscription" ;;
       ret (Subscription (js_or hs (JBool false))
                         (if truthy hs then "pro" else "free")
                         "api_check" true None))
    (fun error =>
       ret (Subscription (JBool false) "free" "error_fallback" false
                         (Some (e_message error)))).

(** [let hasSubscription = userSubscriptionStatus;
     if (hasSubscription === null) { ... checkSubscriptionStatus() ... }] *)
Definition resolve_subscription (userSubscriptionStatus : jsval) : M jsval :=
  if strict_eq (default_null userSubscriptionStatus) JNull then
    subStatus <- checkSubscriptionStatus ;;
    ret (has_subscription subStatus)
  else ret userSubscriptionStatus.

Definition getEnhancedJobStatus (jobId userSubscriptionStatus : jsval) : M job_status :=
  match jobId with
  | JStr id =>
      if startsWith "direct_" id then
        directResult <- gets (fun w => default JUndefined (directResults w !! id)) ;;
        if truthy directResult then
          ret (JobStatus (JStr "completed") directResult JNull JNull "Analysis complete!")
        else
          ret (JobStatus (JStr "failed") JNull JNull (JStr "Direct result not found")
                         "Failed to retrieve result")
      else
        hasSubscription <- resolve_subscription userSubscriptionStatus ;;
        let endpoint := "/report-status/" ++ id ++ "?has_subscription="
                        ++ to_text hasSubscription in
        response <- makeAuthenticatedRequest endpoint no_options 0 ;;
        if negb (ok response) then
          throw (Error ("Status check failed: " ++ body_text response))
        else
          data <- read_json response ;;
          st <- field data "status" ;;
          td <- field data "transcription_data" ;;
          er <- field data "error" ;;
          ret (JobStatus st
                         (if strict_eq st (JStr "completed") then data else JNull)
                         td er
                         (if strict_eq st (JStr "pending") then "Processing in queue..."
                          else if strict_eq st (JStr "completed") then "Analysis complete!"
                          else "Processing..."))
  | _ => throw (TypeError "jobId.startsWith is not a function")
  end.

Definition submitEnhancedLinkJob (link estimatedDuration userSubscriptionStatus : jsval)
  : M jsval :=
  hasSubscription <- resolve_subscription userSubscriptionStatus ;;
  let endpoint := if truthy hasSubscription
                  then "/neural/submit_link_pro" else "/neural/submit_link_free" in
  let formData :=
    JObj (app [("link", link)]
              (if truthy estimatedDuration
               then [("estimated_duration", JStr (to_text estimatedDuration))] else [])) in
  response <- makeAuthenticatedRequest endpoint (Options "POST" [] formData) 0 ;;
  if negb (ok response) then
    throw (Error ("Link job submission failed: " ++ body_text response))
  else read_json response.

(** The fallback to the direct analyze endpoint (written out twice in
    [submitEnhancedFileJob]). *)
Definition directAnalyze (fileUri : string) (fileName : jsval) : M jsval :=
  _fileBlob <- fetch (local_file_request fileUri) ;;
  analyzeResponse <- makeAuthenticatedRequest "/analyze" (analyze_request fileName) 0 ;;
  if negb (ok analyzeResponse) then
    throw (Error ("Analyze endpoint also failed: " ++ body_text analyzeResponse))
  else
    analyzeData <- read_json analyzeResponse ;;
    t <- gets now ;;
    let directJobId := "direct_" ++ pretty t in
    modify (set_directResults (insert directJobId analyzeData)) ;;;
    ret (JObj [("job_id", JStr directJobId)]).

(** Step 1 of [submitEnhancedFileJob] ends with the URL response, or has
    already returned the fallback's job from inside its [catch]. *)
Inductive url_step : Type :=
  | UrlResponse (r : response)
  | FellBack (job : jsval).

(** Steps 2 and 3 of [submitEnhancedFileJob]: upload the file to the
    signed URL, then start processing. *)
Definition upload_and_report (fileUri : string) (urlResponse : response) : M jsval :=
  urlData <- read_json urlResponse ;;
  signed_url <- field urlData "signed_url" ;;
  bucketFileName <- field urlData "file_name" ;;
  bucket <- field urlData "bucket" ;;
  _fileBlob <- fetch (local_file_request fileUri) ;;
  uploadResponse <- fetch (upload_request signed_url) ;;
  if negb (ok uploadResponse) then
    throw (Error ("File upload failed: " ++ pretty (status uploadResponse)))
  else
    reportResponse <- makeAuthenticatedRequest "/report"
                        (report_request bucket bucketFileName) 0 ;;
    if negb (ok reportResponse) then
      throw (Error ("Report creation failed: " ++ body_text reportResponse))
    else
      reportData <- read_json reportResponse ;;
      task_id <- field reportData "task_id" ;;
      ret (JObj [("job_id", task_id)]).

Definition submitEnhancedFileJob (fileUri : string) (fileName userSubscriptionStatus : jsval)
  : M jsval :=
  _hasSubscription <- resolve_subscription userSubscriptionStatus ;;
  step1 <- try_catch
             (r <- makeAuthenticatedRequest "/generate-upload-url"
                     (upload_url_request fileName) 0 ;;
              ret (UrlResponse r))
             (fun _ => job <- directAnalyze fileUri fileName ;; ret (FellBack job)) ;;
  match step1 with
  | FellBack job => ret job
  | UrlResponse urlResponse =>
      if negb (ok urlResponse) then directAnalyze fileUri fileName
      else upload_and_report fileUri urlResponse
  end.

(** [checkJobStatus(jobId)]; its log lines read [result.status] and
    [result.tier]. *)
Definition checkJobStatus (jobId : jsval) : M jsval :=
  response <- makeAuthenticatedRequest ("/neural/job_status/" ++ to_text jobId)
                no_options 0 ;;
  if negb (ok response) then
    throw (Error ("HTTP error! status: " ++ pretty (status response)))
  else
    result <- read_json response ;;
    _status <- field result "status" ;;
    _tier <- field result "tier" ;;
    ret result.

(** [getChatUsage(taskId)] *)
Definition getChatUsage (taskId : jsval) : M jsval :=
  response <- makeAuthenticatedRequest ("/chat-usage/" ++ to_text taskId) no_options 0 ;;
  if negb (ok response) then
    throw (Error ("Failed to get chat usage: " ++ body_text response))
  else read_json response.

(** [setTimeout(monitorJob, ms)] *)
Definition setTimeout_monitorJob (c : poll_closure) (ms : Z) : M unit :=
  modify (set_timers (fun ts => app ts [c])) ;;;
  emit (ESetTimeout ms).

(** One run of the [monitorJob] closure. *)
Definition monitorJob (c : poll_closure) : M unit :=
  let jobId := pc_jobId c in
  let cbs := pc_callbacks c in
  try_catch
    (status <- getEnhancedJobStatus jobId (pc_hasSubscription c) ;;
     invoke (has_onUpdate cbs) (OnUpdate jobId (status_obj status)) ;;;
     if strict_eq (st_status status) (JStr "completed") then
       invoke (has_onComplete cbs)
              (OnComplete jobId (st_result status) (st_transcription_data status))
     else if strict_eq (st_status status) (JStr "failed") then
       invoke (has_onError cbs) (OnError jobId (js_or (st_error status) (JStr "Job failed")))
     else setTimeout_monitorJob c 2000)
    (fun error => invoke (has_onError cbs) (OnError jobId (JStr (e_message error)))).

Definition submitAndMonitor (linkOrFileUri : jsval) (cbs : callbacks)
           (userSubscriptionStatus : jsval) (isFile : bool) (fileName : jsval) : M jsval :=
  hasSubscription <- resolve_subscription userSubscriptionStatus ;;
  jobResponse <- (if isFile
                  then submitEnhancedFileJob (to_text linkOrFileUri) fileName hasSubscription
                  else submitEnhancedLinkJob linkOrFileUri JNull hasSubscription) ;;
  jobId <- field jobResponse "job_id" ;;
  setTimeout_monitorJob (PollClosure jobId hasSubscription cbs) 3000 ;;;
  ret jobId.

(** The event loop runs the oldest pending [monitorJob] timer. *)
Definition fire_timer : M unit :=
  fun w => match timers w with
           | [] => (Ok tt, w)
           | c :: rest => monitorJob c (set_timers (fun _ => rest) w)
           end.

Fixpoint run_timers (n : nat) : M unit :=
  match n with
  | O => ret tt
  | S k => fire_timer ;;; run_timers k
  end.

End WithEnvironment.

End Api.

(* ===================================================================== *)
(*  monitorJob with subscribers that may throw                           *)
(* ===================================================================== *)

Module Subscribers.
Import Api.
Local Open Scope js_scope.

Section WithSubscribers.
Variable net : list request -> request -> fetch_outcome.

(** [throws c] is the error the subscriber's callback throws when it is
    called as [c], if it throws. *)
Variable throws : call -> option error.

(** [if (callbacks.f) { callbacks.f(...); }]: the call happens, then its
    error, if any, propagates. *)
Definition invoke (present : bool) (c : call) : M unit :=
  if present then emit (ECall c) ;;; rejecting (throws c) else ret tt.

(** One run of the [monitorJob] closure. The subscriber is called inside
    the try, so what onUpdate, onComplete or onError throw there reaches
    the catch, which calls onError with the message; what onError throws in
    the catch rejects the promise. *)
Definition monitorJob (c : poll_closure) : M unit :=
  let jobId := pc_jobId c in
  let cbs := pc_callbacks c in
  try_catch
    (status <- getEnhancedJobStatus net jobId (pc_hasSubscription c) ;;
     invoke (has_onUpdate cbs) (OnUpdate jobId (status_obj status)) ;;;
     if strict_eq (st_status status) (JStr "completed") then
       invoke (has_onComplete cbs)
              (OnComplete jobId (st_result status) (st_transcription_data status))
     else if strict_eq (st_status status) (JStr "failed") then
       invoke (has_onError cbs) (OnError jobId (js_or (st_error status) (JStr "Job failed")))
     else setTimeout_monitorJob c 2000)
    (fun error => invoke (has_onError cbs) (OnError jobId (JStr (e_message error)))).

(** The event loop runs the oldest pending [monitorJob] timer. [setTimeout]
    drops the promise, so a rejection goes unhandled. *)
Definition fire_timer : M unit :=
  fun w => match timers w with
           | [] => (Ok tt, w)
           | c :: rest =>
               try_catch (monitorJob c) (fun _ => ret tt) (set_timers (fun _ => rest) w)
           end.

Fixpoint run_timers (n : nat) : M unit :=
  match n with
  | O => ret tt
  | S k => fire_timer ;;; run_timers k
  end.

End WithSubscribers.

(** A subscriber whose onComplete throws. *)
Definition onComplete_throws (c : call) : option error :=
  match c with
  | OnComplete _ _ _ => Some (Error "Cannot update an unmounted screen")
  | _ => None
  end.

End Subscribers.

(* ===================================================================== *)
(*  The base-64 package's decoder, to run the credential decoder on      *)
(*  concrete tokens (RFC 4648 alphabet, optional padding)                *)
(* ===================================================================== *)

Module Base64.

Definition sextet (c : ascii) : option Z :=
  let n := Z.of_nat (nat_of_ascii c) in
  if (65 <=? n) && (n <=? 90) then Some (n - 65)
  else if (97 <=? n) && (n <=? 122) then Some (n - 71)
  else if (48 <=? n) && (n <=? 57) then Some (n + 4)
  else if n =? 43 then Some 62
  else if n =? 47 then Some 63
  else None.

Fixpoint sextets (s : string) : option (list Z) :=
  match s with
  | EmptyString => Some []
  | String c rest =>
      match sextet c, sextets rest with
      | Some v, Some vs => Some (v :: vs)
      | _, _ => None
      end
  end.

Definition byte (n : Z) : ascii := ascii_of_nat (Z.to_nat (Z.land n 255)).

Fixpoint bytes (l : list Z) : string :=
  match l with
  | a :: b :: c :: d :: rest =>
      let n := Z.lor (Z.lor (Z.shiftl a 18) (Z.shiftl b 12)) (Z.lor (Z.shiftl c 6) d) in
      String (byte (Z.shiftr n 16)) (String (byte (Z.shiftr n 8)) (String (byte n) (bytes rest)))
  | [a; b; c] =>
      let n := Z.lor (Z.lor (Z.shiftl a 18) (Z.shiftl b 12)) (Z.shiftl c 6) in
      String (byte (Z.shiftr n 16)) (String (byte (Z.shiftr n 8)) EmptyString)
  | [a; b] =>
      let n := Z.lor (Z.shiftl a 18) (Z.shiftl b 12) in
      String (byte (Z.shiftr n 16)) EmptyString
  | _ => EmptyString
  end.

(** The characters the decoder removes first: tab, LF, FF, CR and space. *)
Definition is_space (c : ascii) : bool :=
  let n := nat_of_ascii c in
  ((n =? 9) || (n =? 10) || (n =? 12) || (n =? 13) || (n =? 32))%nat.

Fixpoint strip_spaces (s : string) : string :=
  match s with
  | EmptyString => EmptyString
  | String c rest => if is_space c then strip_spaces rest else String c (strip_spaces rest)
  end.

(** Drop one or two trailing [=]. *)
Fixpoint strip_padding (s : string) : string :=
  match s with
  | String "=" EmptyString => EmptyString
  | String "=" (String "=" EmptyString) => EmptyString
  | String c rest => String c (strip_padding rest)
  | EmptyString => EmptyString
  end.

Definition decode (input : string) : option string :=
  let s := strip_spaces input in
  let s := if (String.length s mod 4 =? 0)%nat then strip_padding s else s in
  if (String.length s mod 4 =? 1)%nat then None
  else option_map bytes (sextets s).

End Base64.

(* ===================================================================== *)
(*  audioProcessingService.js: interval polling                          *)
(* ===================================================================== *)

Module Polling.

(** What [await this.getJobStatus(jobId)] settles with: the parsed status
    body, or a rejection. *)
Inductive status_outcome : Type :=
  | Resolved (status : jsval)
  | Rejected (e : error).

(** The service, its interval timers and the async interval callbacks that
    are suspended at [await this.getJobStatus(jobId)]. *)
Record service : Type := Service {
    pollingIntervals : gmap string nat;      (* this.pollingIntervals: jobId -> handle *)
    live : gmap nat (string * callbacks);    (* intervals not cleared: handle -> closure *)
    next_handle : nat;
    inflight : list (string * callbacks);    (* suspended callbacks, oldest first *)
    calls : list call                        (* subscriber calls made, oldest first *)
  }.

Definition init : service := Service ∅ ∅ 0%nat [] [].

Definition stopPolling (jobId : string) (s : service) : service :=
  match pollingIntervals s !! jobId with
  | Some h =>
      Service (delete jobId (pollingIntervals s)) (delete h (live s))
              (next_handle s) (inflight s) (calls s)
  | None => s
  end.

Definition startPollingWithCaching (jobId : string) (cbs : callbacks) (s : service)
  : service :=
  let s1 := stopPolling jobId s in
  let h := next_handle s1 in
  Service (<[jobId := h]> (pollingIntervals s1)) (<[h := (jobId, cbs)]> (live s1))
          (S h) (inflight s1) (calls s1).

Definition invoke (present : bool) (c : call) (s : service) : service :=
  if present
  then Service (pollingIntervals s) (live s) (next_handle s) (inflight s)
               (app (calls s) [c])
  else s.

(** The interval fires: the async callback starts and suspends at the
    status request. A cleared interval does not fire. *)
Definition tick (h : nat) (s : service) : service :=
  match live s !! h with
  | Some closure =>
      Service (pollingIntervals s) (live s) (next_handle s)
              (app (inflight s) [closure]) (calls s)
  | None => s
  end.

(** The rest of the interval callback, once the status request settled.
    ([removeStoredJob], which follows the subscriber call and only edits the
    [pending_jobs] entry of AsyncStorage, is left out.) *)
Definition resume (closure : string * callbacks) (o : status_outcome) (s : service)
  : service :=
  let '(jobId, cbs) := closure in
  let on_throw (msg : string) :=
    invoke (has_onError cbs) (OnError (JStr jobId) (JStr msg)) (stopPolling jobId s) in
  match o with
  | Rejected e => on_throw (e_message e)
  | Resolved status =>
      match get_field status "status" with
      | None => on_throw "Cannot read property 'status' of null"
      | Some st =>
          if strict_eq st (JStr "completed") then
            invoke (has_onComplete cbs)
                   (OnComplete (JStr jobId) (assoc_field status "result")
                               (assoc_field status "transcription_data"))
                   (stopPolling jobId s)
          else if strict_eq st (JStr "failed") then
            invoke (has_onError cbs)
                   (OnError (JStr jobId)
                            (js_or (assoc_field status "error") (JStr "Processing failed")))
                   (stopPolling jobId s)
          else s
      end
  end.

Definition settle (i : nat) (o : status_outcome) (s : service) : service :=
  match inflight s !! i with
  | Some closure =>
      resume closure o
             (Service (pollingIntervals s) (live s) (next_handle s)
                      (delete i (inflight s)) (calls s))
  | None => s
  end.

Inductive event : Type :=
  | Start (jobId : string) (cbs : callbacks)
  | Tick (h : nat)
  | Settle (i : nat) (o : status_outcome)
  | Stop (jobId : string).

Definition step (s : service) (e : event) : service :=
  match e with
  | Start jobId cbs => startPollingWithCaching jobId cbs s
  | Tick h => tick h s
  | Settle i o => settle i o s
  | Stop jobId => stopPolling jobId s
  end.

Definition run (s : service) (es : list event) : service := fold_left step es s.

Definition is_terminal (c : call) : bool :=
  match c with
  | OnComplete _ _ _ | OnError _ _ => true
  | OnUpdate _ _ => false
  end.

Definition terminal_calls (cs : list call) : nat := length (List.filter is_terminal cs).

Definition is_start (e : event) : bool :=
  match e with Start _ _ => true | _ => false end.

(** Polling of one job, started once on a fresh service. *)
Definition started (jobId : string) (cbs : callbacks) : service :=
  startPollingWithCaching jobId cbs init.

(** What holds of the service while it polls one job and ticks do not
    overlap: the interval is either registered and live or gone, every
    suspended callback belongs to the job, and a terminal call excludes
    both a live interval and a suspended callback. *)
Definition one_job_inv (jobId : string) (cbs : callbacks) (s : service) : Prop :=
  exists alive : bool,
    pollingIntervals s = (if alive then {[jobId := 0%nat]} else ∅)
    /\ live s = (if alive then {[0%nat := (jobId, cbs)]} else ∅)
    /\ Forall (fun c => c = (jobId, cbs)) (inflight s)
    /\ (terminal_calls (calls s)
        + Nat.max (length (inflight s)) (if alive then 1 else 0) <= 1)%nat.

(** A schedule in which no interval tick fires while an earlier status
    request is still pending. *)
Fixpoint no_overlap (s : service) (es : list event) : bool :=
  match es with
  | [] => true
  | e :: rest =>
      match e with
      | Tick _ => match inflight s with [] => true | _ => false end
      | _ => true
      end && no_overlap (step s e) rest
  end.

(** [stopAllPolling()]: clear every registered interval, then empty the
    registry. *)
Definition stopAllPolling (s : service) : service :=
  Service ∅
          (map_fold (fun (_ : string) (h : nat) (l : gmap nat (string * callbacks)) =>
                       delete h l)
                    (live s) (pollingIntervals s))
          (next_handle s) (inflight s) (calls s).

(** The registry and the timers agree: the live intervals are exactly the
    registered ones, each under the job it polls, and every handle in use
    is older than the next one to be handed out. *)
Definition well_registered (s : service) : Prop :=
  (forall h jobId cbs, live s !! h = Some (jobId, cbs) ->
                       pollingIntervals s !! jobId = Some h)
  /\ (forall jobId h, pollingIntervals s !! jobId = Some h ->
                      (h < next_handle s)%nat
                      /\ exists cbs, live s !! h = Some (jobId, cbs)).

End Polling.

(* ===================================================================== *)
(*  Results.js: what the result screen renders of the transcription      *)
(* ===================================================================== *)

Module Results.

Inductive transcription_view : Type :=
  | RendersNothing
  | ProPlaceholder   (* "Audio transcription available with Pro subscription" *)
  | TranscriptionComponent (transcriptionData : jsval) (aiDetectionResults : list jsval).

(** [processedData.combinedTranscriptionData] *)
Definition combinedTranscriptionData (transcriptionData result : jsval) : jsval :=
  js_or transcriptionData
        (match result with
         | JUndefined | JNull => JUndefined
         | _ => assoc_field result "transcription_data"
         end).

Definition renderTranscription (isSubscriptionLoading hasSubscription : bool)
           (combined : jsval) (aiDetectionTimeline chartData : list jsval)
  : transcription_view :=
  if isSubscriptionLoading then RendersNothing
  else if negb hasSubscription then ProPlaceholder
  else if negb (truthy combined) then RendersNothing
  else TranscriptionComponent combined
         (if (0 <? length aiDetectionTimeline)%nat then aiDetectionTimeline else chartData).

(** [renderTimelineGrid]: "Show all timeline data for both free and pro users". *)
Definition displayData (hasSubscription : bool) (processedTimelineData : list jsval)
  : list jsval := processedTimelineData.

End Results.

(* ===================================================================== *)
(*  Tier Response Shaper                                                 *)
(* ===================================================================== *)

Module Shaper.

Inductive tier : Type := FREE | PRO.
Inductive label : Type := AI | HUMAN | MIXED | UNCERTAIN.

Record chunk : Type := Chunk {
    index : nat;
    startOffsetSeconds : Z;
    chunk_label : label;
    confidence : Q
  }.

Record word : Type := Word { w_text : string; startSeconds : Q; endSeconds : Q }.

Record transcript_data : Type := Transcript {
    text : string;
    words : list word;
    summary : string;
    sentiment : string
  }.

Record AnalysisResult : Type := Result {
    jobId : string;
    overallLabel : label;
    aggregateConfidence : Q;
    chunks : list chunk;
    transcript : option transcript_data
  }.

Record DeliverableResult : Type := Deliverable {
    d_jobId : string;
    d_overallLabel : label;
    d_aggregateConfidence : Q;
    d_chunks : list chunk;
    d_transcript : option transcript_data;
    isLimited : bool
  }.

(** Modelled from the spec: the Tier Response Shaper [shape(result, tier)].
    It runs in the backend behind [/report-status] (the README's
    "alt free tier ... transcription_data: null, is_limited: true"); the
    backend's code is not among the sources, only the client that reads
    its output. FREE keeps the chunk timeline and the label/confidence
    summary, sets the transcript to null and marks the result limited;
    PRO passes everything through and marks it not limited. *)
Definition shape (r : AnalysisResult) (t : tier) : DeliverableResult :=
  match t with
  | FREE => Deliverable (jobId r) (overallLabel r) (aggregateConfidence r) (chunks r)
                        None true
  | PRO => Deliverable (jobId r) (overallLabel r) (aggregateConfidence r) (chunks r)
                       (transcript r) false
  end.

(** The result a deliverable was shaped from, when nothing was withheld. *)
Definition as_result (d : DeliverableResult) : AnalysisResult :=
  Result (d_jobId d) (d_overallLabel d) (d_aggregateConfidence d) (d_chunks d)
         (d_transcript d).

End Shaper.

(* ===================================================================== *)
(*  Observations on runs, used to state the properties                   *)
(* ===================================================================== *)

Module Obs.

(** The computation settles: the recursion budget of the model is never
    what ends it. *)
Definition returns {A} (m : M A) : Prop := forall w, fst (m w) <> Diverged.

(** Every run of the computation ends in an outcome satisfying [P]. *)
Definition yields {A} (P : result A -> Prop) (m : M A) : Prop :=
  forall w, P (fst (m w)).

(** Every run of the computation relates the state before to the state
    after by [R]. *)
Definition keeps (R : world -> world -> Prop) {A} (m : M A) : Prop :=
  forall w, R w (snd (m w)).

Definition is_api (r : request) : bool :=
  match r_site r with SiteApi => true | _ => false end.

(** Requests sent by [makeAuthenticatedRequest] so far. *)
Definition api_requests (w : world) : nat := length (List.filter is_api (history w)).

Definition is_clear (e : effect) : bool :=
  match e with EClearAuth => true | _ => false end.

(** Calls of [clearAuthToken] so far. *)
Definition invalidations (w : world) : nat := length (List.filter is_clear (effects w)).

Definition effect_call (e : effect) : option call :=
  match e with ECall c => Some c | _ => None end.

(** Subscriber calls so far, oldest first. *)
Definition calls_of (w : world) : list call := omap effect_call (effects w).

Definition effect_timeout (e : effect) : option Z :=
  match e with ESetTimeout ms => Some ms | _ => None end.

(** Delays of the [setTimeout(monitorJob, _)] calls so far. *)
Definition timeouts_of (w : world) : list Z := omap effect_timeout (effects w).

(** Neither a request of [makeAuthenticatedRequest] nor an invalidation
    happened between the two states. *)
Definition same_counts (w w1 : world) : Prop :=
  api_requests w1 = api_requests w /\ invalidations w1 = invalidations w.

(** The token endpoint answers every request with a fresh credential. *)
Definition issues_tokens (net : list request -> request -> fetch_outcome) : Prop :=
  forall h req, r_site req = SiteTokenIssue ->
    exists r data tok,
      net h req = Fetched r /\ ok r = true /\ json r = Some data
      /\ get_field data "access_token" = Some (JStr tok) /\ tok <> "".

(** Between the two states no subscriber was called and no monitor timer
    was set or consumed. *)
Definition quiet (w w1 : world) : Prop :=
  timers w1 = timers w /\ calls_of w1 = calls_of w /\ timeouts_of w1 = timeouts_of w.

(** The calls end with the only terminal call among them. *)
Definition ends_terminal (cs : list call) : Prop :=
  exists before t,
    cs = (before ++ [t])%list
    /\ Polling.is_terminal t = true
    /\ Polling.terminal_calls before = 0%nat.

(** Where a monitor chain started with the closure [c] stands, given the
    calls [made] since it started: still waiting on its timer with no
    terminal call made (or stopped without one, when the subscriber
    supplied no callback for the outcome), or finished by the one terminal
    call with no timer left. *)
Definition chain_state (c : poll_closure) (made : list call) (w : world) : Prop :=
  (Polling.terminal_calls made = 0%nat /\ (timers w = [c] \/ timers w = []))
  \/ (timers w = [] /\ ends_terminal made).

(** The outcome is a non-empty credential string. *)
Definition good_token (r : result jsval) : Prop :=
  exists t, r = Ok (JStr t) /\ t <> "".

(** Every request of [makeAuthenticatedRequest] is answered 401. *)
Definition answers_401 (net : list request -> request -> fetch_outcome) : Prop :=
  forall h req, r_site req = SiteApi ->
    exists r, net h req = Fetched r /\ status r = 401.

(** The URL passes the HTTPS check of [makeAuthenticatedRequest]. *)
Definition https_url (url : string) : Prop :=
  Str.startsWith "https://"
    (if Str.startsWith "http" url then url else Api.baseURL ++ url) = true.

(** Every run ends in an outcome and a state satisfying [P]. *)
Definition post {A} (P : result A -> world -> Prop) (m : M A) : Prop :=
  forall w, P (fst (m w)) (snd (m w)).

(** The error with which the transfer step of the upload fails, if it
    does: the rejection of the PUT, or its non-2xx status. *)
Definition transfer_error (o : fetch_outcome) : option error :=
  match o with
  | FetchThrows e => Some e
  | Fetched up =>
      if ok up then None
      else Some (Error ("File upload failed: " ++ pretty (status up)))
  end.

(** The call made when the callback was supplied. *)
Definition fired (present : bool) (c : call) : list call :=
  if present then [c] else [].

(** The job id is one synthesized by the direct-analyze fallback, and its
    result is stored. *)
Definition precompleted (job : jsval) (w : world) : Prop :=
  exists id data,
    job = JObj [("job_id", JStr id)]
    /\ Str.startsWith "direct_" id = true
    /\ directResults w !! id = Some data.

(** The response is what the remote side answered to a request that
    [makeAuthenticatedRequest] sent to [url]. *)
Definition answered_by (net : list request -> request -> fetch_outcome)
           (url : string) (r : response) : Prop :=
  exists h req, net h req = Fetched r /\ r_site req = SiteApi /\ r_url req = url.

(** The job id is the [task_id] in a 2xx answer of the remote side to
    [/report]. *)
Definition remote_task (net : list request -> request -> fetch_outcome)
           (job : jsval) : Prop :=
  exists reportResponse reportData task_id,
    job = JObj [("job_id", task_id)]
    /\ answered_by net (Api.baseURL ++ "/report") reportResponse
    /\ ok reportResponse = true
    /\ json reportResponse = Some reportData
    /\ get_field reportData "task_id" = Some task_id.

(** No credential is cached, in memory or in the secure store. *)
Definition credential_cleared (w : world) : Prop :=
  authToken w = JNull /\ secure w !! "authToken" = None /\ secure w !! "auth_token" = None.

End Obs.

(* ===================================================================== *)
(*  Concrete environments for the scenarios                              *)
(* ===================================================================== *)

Module Scenario.
Import Obs.

(** A fresh install: nothing stored, no request sent. *)
Definition fresh : world := World ∅ JNull ∅ None "k3x9q2m1z" 1700000000000 [] [] [].

Definition all_callbacks : callbacks := Callbacks true true true.

Definition token_response : fetch_outcome :=
  Fetched (Resp 200 (Some (JObj [("access_token", JStr "dG9rZW4="); ("expires_in", JNum 3600)])) "").

Definition network_failure : fetch_outcome :=
  FetchThrows (TypeError "Network request failed").

(** The API answers 401 twice, then 200. *)
Definition net_401_401_200 (h : list request) (req : request) : fetch_outcome :=
  match r_site req with
  | SiteTokenIssue => token_response
  | SiteApi =>
      if (length (List.filter is_api h) <? 2)%nat
      then Fetched (Resp 401 None "Unauthorized")
      else Fetched (Resp 200 (Some (JObj [("has_subscription", JBool true)])) "")
  | _ => Fetched (Resp 200 None "")
  end.

(** The API answers 401 every time. *)
Definition net_always_401 (h : list request) (req : request) : fetch_outcome :=
  match r_site req with
  | SiteTokenIssue => token_response
  | SiteApi => Fetched (Resp 401 None "Unauthorized")
  | _ => Fetched (Resp 200 None "")
  end.

(** Credentials are issued, every API request fails on the network. *)
Definition net_api_down (h : list request) (req : request) : fetch_outcome :=
  match r_site req with
  | SiteTokenIssue => token_response
  | SiteApi => network_failure
  | _ => Fetched (Resp 200 None "")
  end.

(** Scenario A: the upload-target request keeps failing on the network,
    the direct analyze endpoint answers. *)
Definition net_target_down (h : list request) (req : request) : fetch_outcome :=
  match r_site req with
  | SiteTokenIssue => token_response
  | SiteApi =>
      if String.eqb (r_url req) "https://your-api-domain.com/analyze"
      then Fetched (Resp 200 (Some (JObj [("overall_prediction", JStr "AI");
                                          ("aggregate_confidence", JNum 1)])) "")
      else network_failure
  | _ => Fetched (Resp 200 None "")
  end.

(** The upload target is issued, but the write to it is refused (the
    signed URL has expired). *)
Definition net_target_expired (h : list request) (req : request) : fetch_outcome :=
  match r_site req with
  | SiteTokenIssue => token_response
  | SiteApi =>
      Fetched (Resp 200 (Some (JObj [("signed_url", JStr "https://storage.example/upload/a.mp3");
                                     ("file_name", JStr "a.mp3");
                                     ("bucket", JStr "uploads");
                                     ("task_id", JStr "task-1")])) "")
  | SiteUpload => Fetched (Resp 403 None "ExpiredToken")
  | _ => Fetched (Resp 200 None "")
  end.

Definition completed_status : Polling.status_outcome :=
  Polling.Resolved (JObj [("status", JStr "completed");
                          ("result", JObj [("overall_prediction", JStr "AI")]);
                          ("transcription_data", JNull)]).

Definition pending_status : Polling.status_outcome :=
  Polling.Resolved (JObj [("status", JStr "pending")]).

(** A legacy credential payload whose subject contains a colon. *)
Definition legacy_payload : string := "org:alice:1757000000:1756999000:c2lnbmF0dXJl".

End Scenario.

(* ===================================================================== *)
(*  The two halves of one pass of makeAuthenticatedRequest, by name      *)
(* ===================================================================== *)

Module Attempt.
Import Str Api.
Local Open Scope js_scope.

(** The request sent by a pass that holds the credential [token]. *)
Definition api_request (url : string) (opts : options) (token : jsval) : request :=
  Req SiteApi (o_method opts)
      (if startsWith "http" url then url else baseURL ++ url)
      (app [ ("Authorization", "Bearer " ++ to_text token);
             ("X-Forwarded-Proto", "https");
             ("Upgrade-Insecure-Requests", "1") ] (o_headers opts))
      (o_body opts).

(** Lines 306-327: what a pass does with the response. *)
Definition on_response (retryCount : nat) (response : response) : M attempt_result :=
  if negb (ok response) then
    if (status response =? 401) && (retryCount <? 2)%nat then
      clearAuthToken ;;; ret Retry
    else if (500 <=? status response) && (retryCount <? maxRetries)%nat then
      sleep (backoff retryCount) ;;; ret Retry
    else throw (Error ("HTTP error! status: " ++ pretty (status response)))
  else ret (Done response).

(** Lines 328-351: the [catch] block of a pass. *)
Definition on_error (retryCount : nat) (error : error) : M attempt_result :=
  if String.eqb (e_name error) "AbortError" then
    throw (Error "Request timeout. Please check your internet connection and try again.")
  else if String.eqb (e_message error) "Network request failed"
          || String.eqb (e_name error) "TypeError" then
    if (retryCount <? maxRetries)%nat then
      sleep (backoff retryCount) ;;; ret Retry
    else
      throw (Error "Network connection failed. Please check your internet connection and try again.")
  else if includes "No authentication token" (e_message error) then
    throw (Error "Authentication failed. Please restart the app and try again.")
  else throw error.

End Attempt.

(* ===================================================================== *)
(*  Behaviours of the remote side, and further observations on runs      *)
(* ===================================================================== *)

Module Remote.
Import Obs.

(** Every request of [makeAuthenticatedRequest] is answered with status [s]. *)
Definition answers_status (net : list request -> request -> fetch_outcome) (s : Z) : Prop :=
  forall h req, r_site req = SiteApi ->
    exists r, net h req = Fetched r /\ status r = s.

(** An error of [fetch] that the [catch] of [makeAuthenticatedRequest]
    takes for a network failure. *)
Definition network_error (e : error) : bool :=
  negb (String.eqb (e_name e) "AbortError")
  && (String.eqb (e_message e) "Network request failed"
      || String.eqb (e_name e) "TypeError").

(** Every request of [makeAuthenticatedRequest] fails on the network. *)
Definition api_unreachable (net : list request -> request -> fetch_outcome) : Prop :=
  forall h req, r_site req = SiteApi ->
    exists e, net h req = FetchThrows e /\ network_error e = true.

(** Every request of [makeAuthenticatedRequest] is aborted by its 30 s
    timer. *)
Definition api_times_out (net : list request -> request -> fetch_outcome) : Prop :=
  forall h req, r_site req = SiteApi ->
    exists e, net h req = FetchThrows e /\ e_name e = "AbortError".

Definition effect_sleep (e : effect) : option Z :=
  match e with ESleep ms => Some ms | _ => None end.

(** Back-off delays waited so far, oldest first. *)
Definition sleeps_of (w : world) : list Z := omap effect_sleep (effects w).

(** Between the two states nothing but credential traffic happened: no
    effect, no request of [makeAuthenticatedRequest]. *)
Definition no_effects (w w1 : world) : Prop :=
  effects w1 = effects w /\ api_requests w1 = api_requests w.

(** Between the two states no request of [makeAuthenticatedRequest] was
    sent. *)
Definition same_api (w w1 : world) : Prop := api_requests w1 = api_requests w.

(** Between the two states at most one request of
    [makeAuthenticatedRequest] was sent. *)
Definition one_more (w w1 : world) : Prop :=
  (api_requests w1 <= api_requests w + 1)%nat.

(** The request is a credential check or a credential issue. *)
Definition is_credential (r : request) : bool :=
  match r_site r with SiteTokenCheck | SiteTokenIssue => true | _ => false end.

(** The validation request of [getAuthToken] is answered, and not with
    401. *)
Definition accepts_stored (net : list request -> request -> fetch_outcome) : Prop :=
  forall h req, r_site req = SiteTokenCheck ->
    exists r, net h req = Fetched r /\ status r <> 401.

(** The credential is one that the token endpoint issued. *)
Definition issued_by (net : list request -> request -> fetch_outcome) (tok : string)
  : Prop :=
  exists h req r data,
    r_site req = SiteTokenIssue /\ net h req = Fetched r /\ ok r = true
    /\ json r = Some data /\ get_field data "access_token" = Some (JStr tok).

(** The validation request of [getAuthToken] is answered 401, or fails. *)
Definition rejects_stored (net : list request -> request -> fetch_outcome) : Prop :=
  forall h req, r_site req = SiteTokenCheck ->
    (exists r, net h req = Fetched r /\ status r = 401)
    \/ (exists e, net h req = FetchThrows e).

(** A remote side that issues credentials and gives every request of
    [makeAuthenticatedRequest] the same outcome. *)
Definition net_answering (o : fetch_outcome) (h : list request) (req : request)
  : fetch_outcome :=
  match r_site req with
  | SiteTokenIssue => Scenario.token_response
  | SiteApi => o
  | _ => Fetched (Resp 200 None "")
  end.

(** A remote side that issues credentials and answers 401 to everything
    else: every credential it has issued has expired. *)
Definition net_expired (h : list request) (req : request) : fetch_outcome :=
  match r_site req with
  | SiteTokenIssue => Scenario.token_response
  | _ => Fetched (Resp 401 None "Unauthorized")
  end.

End Remote.

(* ===================================================================== *)
(*  Screens/Home.js: the callers of the result cache                     *)
(* ===================================================================== *)

Module Home.
Import ResultCache.

(** One element of the array returned by [jobCompletionUtils.getCompletedJobs]
    ([source] is the constant 'result_cache'; [jobData.completedAt] repeats
    [completedAt]). *)
Record completedJob : Type := CompletedJob {
    cj_result : jsval;
    cj_jobId : jsval;
    cj_completedAt : jsval
  }.

(** One call [handleProcessingComplete(response, transcription = null)];
    the function only sets component state. *)
Record shown_result : Type := Shown {
    sh_response : jsval;
    sh_transcription : jsval
  }.

(** [jobCompletionUtils.storeCompletion(jobId, result, jobData)] *)
Definition storeCompletion (jobId result : jsval) (now : Z) (st : gmap string text)
  : gmap string text :=
  cacheResult jobId result JNull now st.

(** [for (const r of results) await resultCache.markResultAsShown(r.jobId)] *)
Definition mark_all (results : list unshown) (st : gmap string text) : gmap string text :=
  fold_left (fun s r => markResultAsShown (u_jobId r) s) results st.

(** [jobCompletionUtils.getCompletedJobs()] *)
Definition getCompletedJobs (st : gmap string text)
  : list completedJob * gmap string text :=
  let '(unshownResults, st1) := getUnshownCompletedResults st in
  (map (fun c => CompletedJob (u_result c) (u_jobId c) (u_cachedAt c)) unshownResults,
   mark_all unshownResults st1).

(** [data] and [prediction] as the closure of [checkCompletedJobs] reads
    them. The effect that creates the closure runs once, on mount
    ([useEffect(..., [])]), so both are the initial state of [useState()],
    whatever is on screen when the closure runs later. *)
Definition mount_data : jsval := JUndefined.
Definition mount_prediction : jsval := JUndefined.

(** [checkCompletedJobs()]. Returns the calls of
    [handleProcessingComplete] it makes, in order. *)
Definition checkCompletedJobs (st : gmap string text)
  : list shown_result * gmap string text :=
  if truthy (js_or mount_data mount_prediction) then ([], st)
  else
    let '(unshownResults, st1) := getUnshownCompletedResults st in
    let st2 := mark_all unshownResults st1 in
    let '(completedJobsFromStorage, st3) := getCompletedJobs st2 in
    (app (map (fun c => Shown (u_result c) (default_null (u_transcriptionData c)))
              unshownResults)
         (map (fun j => Shown (cj_result j) JNull) completedJobsFromStorage),
     st3).

End Home.

(* ===================================================================== *)
(*  notificationService.js: the stored job updates                       *)
(* ===================================================================== *)

Module Updates.
Import Str ResultCache.

(** The own enumerable properties that [{...v}] copies: those of an
    object, the indexed elements of an array, the characters of a string,
    none of another primitive. *)
Definition spread (v : jsval) : list (string * jsval) :=
  match v with
  | JObj fs => fs
  | JArr items => imap (fun i x => (pretty i, x)) items
  | JStr s => imap (fun i c => (pretty i, JStr (String c EmptyString)))
                   (list_ascii_of_string s)
  | _ => []
  end.

(** A later property of an object literal: it takes the place of an
    earlier one of the same name, or is added at the end. (The order in
    which integer-like names are enumerated is not tracked; nothing here
    reads the order.) *)
Fixpoint set_prop (k : string) (v : jsval) (fs : list (string * jsval))
  : list (string * jsval) :=
  match fs with
  | [] => [(k, v)]
  | (k', v') :: rest =>
      if String.eqb k k' then (k, v) :: rest else (k', v') :: set_prop k v rest
  end.

Definition update_key (jobId : jsval) : string := "job_update_" ++ to_text jobId.

(** What [handleJobNotification] writes: [JSON.stringify] of
    [{...data, receivedAt: Date.now(), title: content.title, body: content.body}],
    as [JSON.parse] reads it back. *)
Definition update_record (data title body : jsval) (now : Z) : jsval :=
  json_roundtrip
    (JObj (set_prop "body" body
             (set_prop "title" title
                (set_prop "receivedAt" (JNum now) (spread data))))).

(** The storing half of [handleJobNotification(data, content, fromTap)],
    with [content.title] and [content.body] already read. Reading
    [data.job_id] of a null [data] throws, and the [catch] only logs. *)
Definition storeUpdate (data title body : jsval) (now : Z) (st : gmap string text)
  : gmap string text :=
  match get_field data "job_id" with
  | None => st
  | Some jobId => <[update_key jobId := TJson (update_record data title body now)]> st
  end.

(** [checkPendingUpdates(jobId)]: text that does not parse makes the [catch]
    return null, and stays stored. *)
Definition checkPendingUpdates (jobId : jsval) (st : gmap string text)
  : jsval * gmap string text :=
  match st !! update_key jobId with
  | None | Some TEmpty | Some TGarbage => (JNull, st)
  | Some (TJson updateData) => (updateData, delete (update_key jobId) st)
  end.

Section Cleanup.

(** [v < n] for an operand [v] that is a string, an array or an object:
    the comparison of [ToNumber(ToPrimitive(v))] with [n]. *)
Variable coerced_lt : jsval -> Z -> bool.

(** [v < n] for a number [n]. *)
Definition js_lt (v : jsval) (n : Z) : bool :=
  match v with
  | JNum m => m <? n
  | JBool b => (if b then 1 else 0) <? n
  | JNull => 0 <? n
  | JUndefined => false
  | _ => coerced_lt v n
  end.

(** [parsed.receivedAt && parsed.receivedAt < oneDayAgo]; [None] when
    reading the property throws. *)
Definition is_old (now : Z) (parsed : jsval) : option bool :=
  match get_field parsed "receivedAt" with
  | None => None
  | Some receivedAt =>
      Some (truthy receivedAt && js_lt receivedAt (now - 24 * 60 * 60 * 1000))
  end.

(** The body of the loop of [cleanupOldUpdates] for one key. *)
Definition cleanup_key (now : Z) (key : string) (st : gmap string text)
  : gmap string text :=
  match st !! key with
  | None | Some TEmpty => st
  | Some TGarbage => delete key st
  | Some (TJson parsed) =>
      match is_old now parsed with
      | Some true => delete key st
      | Some false => st
      | None => delete key st
      end
  end.

(** [cleanupOldUpdates()]; [now] is [Date.now()]. *)
Definition cleanupOldUpdates (now : Z) (st : gmap string text) : gmap string text :=
  let allKeys := map fst (map_to_list st) in
  let jobUpdateKeys := List.filter (startsWith "job_update_") allKeys in
  fold_left (fun s key => cleanup_key now key s) jobUpdateKeys st.

End Cleanup.

End Updates.

(* ===================================================================== *)
(*  notificationService.js: push deliveries                              *)
(* ===================================================================== *)

Module Push.
Import Updates.

(** [{ ...data, title: content.title, body: content.body, fromTap }] *)
Definition messageData (data title body : jsval) (fromTap : bool) : jsval :=
  JObj (set_prop "fromTap" (JBool fromTap)
          (set_prop "body" body
             (set_prop "title" title (spread data)))).

(** The subscriber calls made by [handleJobNotification(data, content, fromTap)];
    [jobCallbacks] is left as it is. *)
Definition handleJobNotification (jobCallbacks : gmap string callbacks)
           (data title body : jsval) (fromTap : bool) : list call :=
  match get_field data "job_id" with
  | Some (JStr jobId) =>
      match jobCallbacks !! jobId with
      | Some cbs =>
          if strict_eq (assoc_field data "type") (JStr "job_update") then
            if strict_eq (assoc_field data "status") (JStr "COMPLETED") && has_onComplete cbs
            then [OnComplete (JStr jobId) (messageData data title body fromTap) JUndefined]
            else if strict_eq (assoc_field data "status") (JStr "FAILED") && has_onError cbs
            then [OnError (JStr jobId) (js_or (assoc_field data "error") (JStr "Job failed"))]
            else if has_onUpdate cbs
            then [OnUpdate (JStr jobId) (messageData data title body fromTap)]
            else []
          else []
      | None => []
      end
  | _ => []
  end.

Definition registerJobCallbacks (jobId : string) (cbs : callbacks)
           (jobCallbacks : gmap string callbacks) : gmap string callbacks :=
  if String.eqb jobId "" then jobCallbacks else <[jobId := cbs]> jobCallbacks.

Definition unregisterJobCallbacks (jobId : string)
           (jobCallbacks : gmap string callbacks) : gmap string callbacks :=
  delete jobId jobCallbacks.

End Push.

(* ===================================================================== *)
(*  Components/fileValidator.js                                          *)
(* ===================================================================== *)

Module FileValidator.
Import Str.

(** Strings are sequences of code units below 256; [toLowerCase],
    [trim] and the regular expressions are given on those. *)
Definition lower_char (c : ascii) : ascii :=
  let n := nat_of_ascii c in
  if ((65 <=? n) && (n <=? 90)
      || (192 <=? n) && (n <=? 222) && negb (n =? 215))%nat
  then ascii_of_nat (n + 32) else c.

(** [s.toLowerCase()] *)
Fixpoint toLowerCase (s : string) : string :=
  match s with
  | EmptyString => EmptyString
  | String c rest => String (lower_char c) (toLowerCase rest)
  end.

(** [s.lastIndexOf(c)]; [None] is -1. *)
Fixpoint lastIndexOf (c : ascii) (s : string) : option nat :=
  match s with
  | EmptyString => None
  | String x rest =>
      match lastIndexOf c rest with
      | Some i => Some (S i)
      | None => if Ascii.eqb x c then Some 0%nat else None
      end
  end.

(** [s.substring(n)] *)
Fixpoint substring_from (n : nat) (s : string) : string :=
  match n, s with
  | O, _ => s
  | S k, String _ rest => substring_from k rest
  | S _, EmptyString => EmptyString
  end.

(** [s.substring(0, n)] *)
Fixpoint substring_to (n : nat) (s : string) : string :=
  match n, s with
  | O, _ => EmptyString
  | S k, String c rest => String c (substring_to k rest)
  | S _, EmptyString => EmptyString
  end.

(** Whitespace as [trim] sees it. *)
Definition js_space (c : ascii) : bool :=
  let n := nat_of_ascii c in
  ((n =? 9) || (n =? 10) || (n =? 11) || (n =? 12) || (n =? 13) || (n =? 32)
   || (n =? 160))%nat.

(** Drop the leading characters that satisfy [p]. *)
Fixpoint drop_leading (p : ascii -> bool) (s : string) : string :=
  match s with
  | String c rest => if p c then drop_leading p rest else s
  | EmptyString => EmptyString
  end.

(** Drop the trailing characters that satisfy [p]. *)
Fixpoint drop_trailing (p : ascii -> bool) (s : string) : string :=
  match s with
  | EmptyString => EmptyString
  | String c rest =>
      match drop_trailing p rest with
      | EmptyString => if p c then EmptyString else String c EmptyString
      | kept => String c kept
      end
  end.

(** [s.trim()] *)
Definition trim (s : string) : string := drop_trailing js_space (drop_leading js_space s).

(** [list.includes(x)] for strings. *)
Definition list_includes (x : string) (l : list string) : bool :=
  existsb (String.eqb x) l.

(** [/<suffix>$/i.test(s)] for a pattern of literal lower-case
    characters: [s] ends with them, letters compared without case. *)
Fixpoint endsWith_i (suffix s : string) : bool :=
  String.eqb suffix (toLowerCase s)
  || match s with
     | EmptyString => false
     | String _ rest => endsWith_i suffix rest
     end.

Definition SUPPORTED_AUDIO_TYPES : list string :=
  ["audio/wav"; "audio/mp3"; "audio/mpeg"; "audio/m4a"; "audio/aac"; "audio/x-wav";
   "audio/mp4"].

Definition SUPPORTED_EXTENSIONS : list string := [".mp3"; ".wav"; ".m4a"; ".aac"].

Definition MAX_FILE_SIZE : Z := 25 * 1024 * 1024.
Definition MIN_FILE_SIZE : Z := 1024.

(** The file object handed over by the document picker: a name, and a
    MIME type and a size in bytes that may be undefined. *)
Record file : Type := File {
    f_name : string;
    f_mimeType : option string;
    f_size : option Z
  }.

(** [getFileExtension(filename)] *)
Definition getFileExtension (filename : string) : string :=
  if String.eqb filename "" then ""
  else
    match lastIndexOf "." filename with
    | None => ""
    | Some lastDotIndex => toLowerCase (substring_from lastDotIndex filename)
    end.

(** The results of [validateBasicProperties], by their message:
    'No file provided', 'Invalid filename', 'File extension ... not
    supported', 'File type ... not supported', 'File is too small ...',
    'File size ... exceeds maximum ...', 'Basic validation passed'. Only the
    last has [isValid: true]. *)
Inductive basic_result : Type :=
  | NoFileProvided
  | InvalidFilename
  | ExtensionNotSupported (extension : string)
  | TypeNotSupported (mimeType : option string)
  | TooSmall
  | TooLarge (size : Z)
  | BasicPassed.

Definition validateBasicProperties (f : option file) : basic_result :=
  match f with
  | None => NoFileProvided
  | Some file =>
      if String.eqb (f_name file) "" || String.eqb (trim (f_name file)) ""
      then InvalidFilename
      else
        let extension := getFileExtension (f_name file) in
        if negb (list_includes extension SUPPORTED_EXTENSIONS)
        then ExtensionNotSupported extension
        else if negb (match f_mimeType file with
                      | Some m => list_includes m SUPPORTED_AUDIO_TYPES
                      | None => false
                      end)
        then TypeNotSupported (f_mimeType file)
        else if match f_size file with Some n => n <? MIN_FILE_SIZE | None => false end
        then TooSmall
        else match f_size file with
             | Some n => if MAX_FILE_SIZE <? n then TooLarge n else BasicPassed
             | None => BasicPassed
             end
  end.

(** What [mimeMap[extension]] finds: one of the four lists, a member
    inherited from [Object.prototype] (a function with its [length], or
    the prototype object for [__proto__]), or nothing. *)
Inductive mime_lookup : Type :=
  | MimeTypes (types : list string)
  | Inherited (length : option Z)
  | NoEntry.

Definition mimeMap (extension : string) : mime_lookup :=
  if String.eqb extension "mp3" then MimeTypes ["audio/mpeg"; "audio/mp3"]
  else if String.eqb extension "wav" then MimeTypes ["audio/wav"; "audio/x-wav"]
  else if String.eqb extension "m4a" then MimeTypes ["audio/m4a"; "audio/mp4"]
  else if String.eqb extension "aac" then MimeTypes ["audio/aac"; "audio/x-aac"]
  else if String.eqb extension "constructor" then Inherited (Some 1)
  else if String.eqb extension "hasOwnProperty" then Inherited (Some 1)
  else if String.eqb extension "isPrototypeOf" then Inherited (Some 1)
  else if String.eqb extension "propertyIsEnumerable" then Inherited (Some 1)
  else if String.eqb extension "toString" then Inherited (Some 0)
  else if String.eqb extension "toLocaleString" then Inherited (Some 0)
  else if String.eqb extension "valueOf" then Inherited (Some 0)
  else if String.eqb extension "__defineGetter__" then Inherited (Some 2)
  else if String.eqb extension "__defineSetter__" then Inherited (Some 2)
  else if String.eqb extension "__lookupGetter__" then Inherited (Some 1)
  else if String.eqb extension "__lookupSetter__" then Inherited (Some 1)
  else if String.eqb extension "__proto__" then Inherited None
  else NoEntry.

(** The results of [validateFileHeader]: 'Header validation passed',
    'Header validation skipped' (both [isValid: true]), or the mismatch
    message. *)
Inductive header_result : Type :=
  | HeaderPassed
  | HeaderSkipped
  | HeaderMismatch (extension : string) (mimeType : option string).

(** [validateFileHeader(file)], with [getExpectedMimeTypes] in place. An
    inherited member is truthy, so it is taken for the list; calling its
    [includes] throws, and the [catch] lets the file pass. *)
Definition validateFileHeader (file : file) : header_result :=
  let extension := substring_from 1 (getFileExtension (f_name file)) in
  match mimeMap extension with
  | MimeTypes expectedMimeTypes =>
      if (0 <? length expectedMimeTypes)%nat
         && negb (match f_mimeType file with
                  | Some m => list_includes m expectedMimeTypes
                  | None => false
                  end)
      then HeaderMismatch extension (f_mimeType file)
      else HeaderPassed
  | Inherited (Some n) => if 0 <? n then HeaderSkipped else HeaderPassed
  | Inherited None => HeaderPassed
  | NoEntry => HeaderPassed
  end.

(** The [metadata] of an accepted file. *)
Record metadata : Type := Metadata {
    md_name : string;
    md_size : option Z;
    md_type : option string;
    md_extension : string
  }.

(** The results of [validateAudioFile]; only [Accepted] has
    [isValid: true]. *)
Inductive validation : Type :=
  | BasicRejected (r : basic_result)
  | HeaderRejected (r : header_result)
  | Accepted (m : metadata).

Definition validateAudioFile (f : option file) : validation :=
  match validateBasicProperties f, f with
  | BasicPassed, Some file =>
      match validateFileHeader file with
      | HeaderMismatch e m => HeaderRejected (HeaderMismatch e m)
      | _ =>
          Accepted (Metadata (f_name file) (f_size file) (f_mimeType file)
                             (getFileExtension (f_name file)))
      end
  | r, _ => BasicRejected r
  end.

(** The character class of [sanitizeFilename]: the characters
    < > : / \ | ? * and the double quote, and the control characters
    0x00 to 0x1f. *)
Definition dangerous (c : ascii) : bool :=
  let n := nat_of_ascii c in
  ((n <=? 31) || (n =? 60) || (n =? 62) || (n =? 58) || (n =? 34) || (n =? 47)
   || (n =? 92) || (n =? 124) || (n =? 63) || (n =? 42))%nat.

(** Every character of the class replaced by an underscore. *)
Fixpoint replace_dangerous (s : string) : string :=
  match s with
  | EmptyString => EmptyString
  | String c rest =>
      String (if dangerous c then "_"%char else c) (replace_dangerous rest)
  end.

Definition is_dot (c : ascii) : bool := Ascii.eqb c ".".

(** [sanitizeFilename] up to the length limit: dangerous characters
    replaced, the ends trimmed, leading and trailing dots removed, and
    'unknown_file' for what is empty then. *)
Definition cleaned (filename : string) : string :=
  let sanitized := replace_dangerous filename in
  let sanitized := drop_trailing is_dot (drop_leading is_dot (trim sanitized)) in
  if String.eqb sanitized "" then "unknown_file" else sanitized.

(** [sanitizeFilename(filename)] *)
Definition sanitizeFilename (filename : string) : string :=
  if String.eqb filename "" then "unknown_file"
  else
    let sanitized := cleaned filename in
    if (100 <? String.length sanitized)%nat then
      let extension := getFileExtension sanitized in
      let nameWithoutExt :=
        substring_to (String.length sanitized - String.length extension) sanitized in
      substring_to 95 nameWithoutExt ++ extension
    else sanitized.

Definition suspiciousPatterns : list string :=
  [".exe"; ".bat"; ".cmd"; ".scr"; ".pif"; ".com"; ".js"; ".vbs"; ".jar"; ".php";
   ".html"; ".htm"].

(** The results of [performSecurityCheck]: the executable-or-script
    message, the multiple-extensions message (both [isSecure: false]), or
    'Security check passed'. *)
Inductive security_result : Type :=
  | Suspicious
  | MultipleExtensions
  | SecurityPassed.

Definition performSecurityCheck (file : file) : security_result :=
  if existsb (fun pattern => endsWith_i pattern (f_name file)) suspiciousPatterns
  then Suspicious
  else if (2 <? length (split "." (f_name file)))%nat then MultipleExtensions
  else SecurityPassed.

End FileValidator.

(* ===================================================================== *)
(*  Result cache: facts                                                  *)
(* ===================================================================== *)

Module ResultCacheFacts.
Import ResultCache.

Lemma clearAllCache_empty (st : gmap string text) :
  clearAllCache st !! COMPLETED_RESULTS_KEY = None.
Proof. unfold clearAllCache. apply lookup_delete_eq. Qed.

Lemma getCachedResult_cleared (st : gmap string text) :
  getCachedResult (clearAllCache st) = (None, clearAllCache st).
Proof. unfold getCachedResult. now rewrite clearAllCache_empty. Qed.

Lemma getCachedResult_valid (st : gmap string text) cd :
  st !! COMPLETED_RESULTS_KEY = Some (TJson cd) ->
  invalid_structure cd = Some false ->
  getCachedResult st = (Some cd, st).
Proof. intros Hst Hv. unfold getCachedResult. now rewrite Hst, Hv. Qed.

(** A valid structure has a truthy object under [result]. *)
Lemma valid_result cd :
  invalid_structure cd = Some false ->
  truthy (assoc_field cd "result") && typeof_object (assoc_field cd "result") = true.
Proof.
  unfold invalid_structure, assoc_field.
  destruct (get_field cd "jobId") as [j|]; [|discriminate].
  destruct (get_field cd "result") as [r|]; [|discriminate].
  intros [= H].
  destruct (truthy j), (truthy r), (typeof_object r); simpl in *; congruence.
Qed.

(** The write evicts first: what was cached before has no influence on what
    is cached afterwards. *)
Lemma cacheResult_evicts_first jobId result td now (st : gmap string text) :
  cacheResult jobId result td now st = cacheResult jobId result td now (clearAllCache st).
Proof.
  unfold cacheResult, clearAllCache.
  now rewrite delete_delete_eq.
Qed.

(** C10. Every [cacheResult] call removes the cached entry before it looks
    at the new result: when the result is null or not an object, the call
    stores nothing and the slot is left empty, whatever it held before. *)
Theorem C10_rejected_write_still_evicts jobId result td now (st : gmap string text) :
  result = JNull \/ typeof_object result = false ->
  cacheResult jobId result td now st = clearAllCache st
  /\ cacheResult jobId result td now st !! COMPLETED_RESULTS_KEY = None
  /\ getUnshownCompletedResults (cacheResult jobId result td now st)
     = ([], clearAllCache st).
Proof.
  intros H.
  assert (E : cacheResult jobId result td now st = clearAllCache st).
  { unfold cacheResult.
    destruct H as [-> | H]; [reflexivity|].
    rewrite H. now rewrite orb_true_r. }
  rewrite E. split; [reflexivity|]. split; [apply clearAllCache_empty|].
  unfold getUnshownCompletedResults. now rewrite getCachedResult_cleared.
Qed.

Lemma C10_witness :
  sample_store !! COMPLETED_RESULTS_KEY <> None
  /\ cacheResult (JStr "job-2") JNull JNull 1700000000001 sample_store
     !! COMPLETED_RESULTS_KEY = None.
Proof.
  split; [vm_compute; discriminate|].
  apply (C10_rejected_write_still_evicts (JStr "job-2") JNull JNull 1700000000001 sample_store).
  left; reflexivity.
Defined.

(** C2, as the code has it. [getUnshownCompletedResults] reads without
    marking: while the slot holds a valid unshown entry, two calls in
    succession both return it and leave the store as it was. The entry stops
    being returned once [markResultAsShown] is called with its job id, a
    separate step that clears the slot. *)
Theorem C2_read_does_not_mark (st : gmap string text) cd j :
  st !! COMPLETED_RESULTS_KEY = Some (TJson cd) ->
  invalid_structure cd = Some false ->
  get_field cd "jobId" = Some (JStr j) ->
  truthy (assoc_field cd "shown") = false ->
  getUnshownCompletedResults st = ([entry_of cd], st)
  /\ getUnshownCompletedResults (snd (getUnshownCompletedResults st)) = ([entry_of cd], st)
  /\ markResultAsShown (JStr j) st = clearAllCache st
  /\ getUnshownCompletedResults (markResultAsShown (JStr j) st) = ([], clearAllCache st).
Proof.
  intros Hst Hv Hj Hshown.
  assert (E : getUnshownCompletedResults st = ([entry_of cd], st)).
  { unfold getUnshownCompletedResults.
    rewrite (getCachedResult_valid st cd Hst Hv), Hshown. simpl.
    now rewrite (valid_result cd Hv). }
  assert (Em : markResultAsShown (JStr j) st = clearAllCache st).
  { unfold markResultAsShown.
    rewrite (getCachedResult_valid st cd Hst Hv).
    unfold assoc_field. rewrite Hj. simpl. now rewrite String.eqb_refl. }
  repeat split.
  - exact E.
  - rewrite E. exact E.
  - exact Em.
  - rewrite Em. unfold getUnshownCompletedResults. now rewrite getCachedResult_cleared.
Qed.

Lemma C2_witness :
  getUnshownCompletedResults sample_store
  = ([entry_of (cacheData (JStr "job-1") (JObj [("overall_prediction", JStr "AI")]) JNull
                          1700000000000)], sample_store)
  /\ getUnshownCompletedResults (markResultAsShown (JStr "job-1") sample_store)
     = ([], clearAllCache sample_store).
Proof.
  destruct (C2_read_does_not_mark sample_store
              (cacheData (JStr "job-1") (JObj [("overall_prediction", JStr "AI")]) JNull
                         1700000000000) "job-1")
    as (H1 & _ & _ & H4); try (vm_compute; reflexivity).
  split; assumption.
Defined.

(** C2 as stated fails: the second of two successive reads returns the same
    unshown entry again, not nothing. *)
Lemma C2_counterexample_second_read_returns_entry :
  fst (getUnshownCompletedResults sample_store)
  = [Unshown (JStr "job-1") (JObj [("overall_prediction", JStr "AI")]) JNull
             (JNum 1700000000000)]
  /\ fst (getUnshownCompletedResults (snd (getUnshownCompletedResults sample_store)))
     = fst (getUnshownCompletedResults sample_store)
  /\ fst (getUnshownCompletedResults (snd (getUnshownCompletedResults sample_store))) <> [].
Proof. vm_compute. repeat split; discriminate. Qed.

End ResultCacheFacts.

(* ===================================================================== *)
(*  Credential payload decoding: facts                                   *)
(* ===================================================================== *)

Module StrFacts.
Import Str.

Lemma prefix_single c x r :
  String.prefix (String c EmptyString) (String x r) = Ascii.eqb c x.
Proof.
  simpl. destruct (ascii_dec c x) as [->|Hne].
  - rewrite Ascii.eqb_refl. now destruct r.
  - symmetry. now apply Ascii.eqb_neq.
Qed.

Lemma includes_single_cons c x r :
  includes (String c EmptyString) (String x r)
  = Ascii.eqb c x || includes (String c EmptyString) r.
Proof.
  change (includes (String c EmptyString) (String x r))
    with (String.prefix (String c EmptyString) (String x r)
          || includes (String c EmptyString) r).
  now rewrite prefix_single.
Qed.

Lemma includes_single_nil c : includes (String c EmptyString) EmptyString = false.
Proof. reflexivity. Qed.

Lemma includes_single_app c a b :
  includes (String c EmptyString) (a ++ b)
  = includes (String c EmptyString) a || includes (String c EmptyString) b.
Proof.
  induction a as [|x a IH].
  - reflexivity.
  - change (String x a ++ b) with (String x (a ++ b)).
    rewrite !includes_single_cons, IH. now rewrite orb_assoc.
Qed.

Lemma split_nonempty sep s : split sep s <> [].
Proof.
  destruct s as [|c r]; simpl; [discriminate|].
  destruct (Ascii.eqb c sep); [discriminate|].
  destruct (split sep r); discriminate.
Qed.

Lemma split_cons_other sep c r :
  Ascii.eqb c sep = false ->
  exists h t, split sep r = h :: t /\ split sep (String c r) = String c h :: t.
Proof.
  intros Hc. simpl. rewrite Hc.
  destruct (split sep r) as [|h t] eqn:E.
  - now apply split_nonempty in E.
  - now exists h, t.
Qed.

(** Splitting distributes over a separator occurrence. *)
Lemma split_app sep a b :
  split sep (a ++ String sep b) = (split sep a ++ split sep b)%list.
Proof.
  induction a as [|c a IH].
  - simpl. now rewrite Ascii.eqb_refl.
  - change (String c a ++ String sep b) with (String c (a ++ String sep b)).
    destruct (Ascii.eqb c sep) eqn:Hc.
    + simpl. rewrite Hc. now rewrite IH.
    + destruct (split_cons_other sep c a Hc) as (h & t & Ea & ->).
      simpl. rewrite Hc, IH, Ea. reflexivity.
Qed.

(** A string without the separator is a single part. *)
Lemma split_absent sep s :
  includes (String sep EmptyString) s = false -> split sep s = [s].
Proof.
  induction s as [|c r IH]; [reflexivity|].
  rewrite includes_single_cons. intros H.
  apply orb_false_iff in H as [Hc Hr].
  simpl. rewrite Ascii.eqb_sym in Hc. rewrite Hc, (IH Hr). reflexivity.
Qed.

(** Joining the parts with the separator gives the string back. *)
Lemma join_split sep s : join (String sep EmptyString) (split sep s) = s.
Proof.
  unfold join. induction s as [|c r IH]; [reflexivity|].
  destruct (Ascii.eqb c sep) eqn:Hc.
  - simpl split. rewrite Hc.
    apply Ascii.eqb_eq in Hc as ->.
    destruct (split sep r) as [|h t] eqn:E; [now apply split_nonempty in E|].
    change (String.concat (String sep EmptyString) (EmptyString :: h :: t))
      with (String sep (String.concat (String sep EmptyString) (h :: t))).
    now rewrite IH.
  - destruct (split_cons_other sep c r Hc) as (h & t & Er & ->).
    rewrite Er in IH.
    destruct t as [|h' t].
    + simpl in *. now subst.
    + change (String.concat (String sep EmptyString) (String c h :: h' :: t))
        with (String c (h ++ String sep (String.concat (String sep EmptyString) (h' :: t)))).
      change (String.concat (String sep EmptyString) (h :: h' :: t))
        with (h ++ String sep (String.concat (String sep EmptyString) (h' :: t))) in IH.
      now rewrite IH.
Qed.

(** The parts of a legacy payload: those of the subject, then the three
    trailing fields. *)
Lemma split_legacy sub e t s :
  includes ":" e = false -> includes ":" t = false -> includes ":" s = false ->
  split ":" (sub ++ ":" ++ e ++ ":" ++ t ++ ":" ++ s)
  = (split ":" sub ++ [e; t; s])%list.
Proof.
  intros He Ht Hs.
  change (sub ++ ":" ++ e ++ ":" ++ t ++ ":" ++ s)
    with (sub ++ String ":" (e ++ String ":" (t ++ String ":" s))).
  rewrite !split_app.
  now rewrite (split_absent ":" e He), (split_absent ":" t Ht), (split_absent ":" s Hs).
Qed.

End StrFacts.

(* ===================================================================== *)
(*  The monad: settling and frame lemmas                                 *)
(* ===================================================================== *)

Module MonadFacts.
Import Obs.

Lemma returns_ret {A} (a : A) : returns (ret a).
Proof. intros w. discriminate. Qed.

Lemma returns_throw {A} e : returns (@throw A e).
Proof. intros w. discriminate. Qed.

Lemma returns_gets {A} (f : world -> A) : returns (gets f).
Proof. intros w. discriminate. Qed.

Lemma returns_modify f : returns (modify f).
Proof. intros w. discriminate. Qed.

Lemma returns_bind {A B} (m : M A) (k : A -> M B) :
  returns m -> (forall a, returns (k a)) -> returns (bind m k).
Proof.
  intros Hm Hk w. unfold bind. specialize (Hm w).
  destruct (m w) as [[a|e|] w1]; simpl in *.
  - apply Hk.
  - discriminate.
  - contradiction.
Qed.

Lemma returns_try_catch {A} (m : M A) (h : error -> M A) :
  returns m -> (forall e, returns (h e)) -> returns (try_catch m h).
Proof.
  intros Hm Hh w. unfold try_catch. specialize (Hm w).
  destruct (m w) as [[a|e|] w1]; simpl in *.
  - discriminate.
  - apply Hh.
  - contradiction.
Qed.

Lemma returns_field v k : returns (field v k).
Proof. unfold field. destruct (get_field v k); [apply returns_ret | apply returns_throw]. Qed.

Lemma returns_read_json r : returns (read_json r).
Proof. unfold read_json. destruct (json r); [apply returns_ret | apply returns_throw]. Qed.

Lemma returns_emit e : returns (emit e).
Proof. apply returns_modify. Qed.

Lemma returns_sleep ms : returns (sleep ms).
Proof. apply returns_modify. Qed.

Lemma returns_invoke b c : returns (invoke b c).
Proof. unfold invoke. destruct b; [apply returns_emit | apply returns_ret]. Qed.

(** A settling computation ends in a value or a rejection. *)
Lemma returns_cases {A} (m : M A) w :
  returns m ->
  (exists a w1, m w = (Ok a, w1)) \/ (exists e w1, m w = (Throw e, w1)).
Proof.
  intros H. specialize (H w). destruct (m w) as [[a|e|] w1]; simpl in *.
  - left. now exists a, w1.
  - right. now exists e, w1.
  - contradiction.
Qed.


Lemma yields_ret {A} (P : result A -> Prop) a : P (Ok a) -> yields P (ret a).
Proof. intros H w. exact H. Qed.

Lemma yields_throw {A} (P : result A -> Prop) e : P (Throw e) -> yields P (throw e).
Proof. intros H w. exact H. Qed.

Lemma yields_gets {B} (P : result B -> Prop) (f : world -> B) :
  (forall b : B, P (Ok b)) -> yields P (gets f).
Proof. intros H w. apply H. Qed.

Lemma yields_modify (P : result unit -> Prop) f : P (Ok tt) -> yields P (modify f).
Proof. intros H w. exact H. Qed.

Lemma yields_weaken {A} (P Q : result A -> Prop) m :
  yields P m -> (forall r, P r -> Q r) -> yields Q m.
Proof. intros H HPQ w. apply HPQ, H. Qed.

(** The rule for sequencing: [Q] is what the first step ends in. *)
Lemma yields_bind {A B} (Q : result A -> Prop) (P : result B -> Prop)
      (m : M A) (k : A -> M B) :
  yields Q m ->
  (forall a, Q (Ok a) -> yields P (k a)) ->
  (forall e, Q (Throw e) -> P (Throw e)) ->
  (Q Diverged -> P Diverged) ->
  yields P (bind m k).
Proof.
  intros Hm Hk He Hd w. unfold bind. specialize (Hm w).
  destruct (m w) as [[a|e|] w1]; simpl in *.
  - now apply Hk.
  - now apply He.
  - now apply Hd.
Qed.

Lemma yields_try_catch {A} (Q P : result A -> Prop) (m : M A) (h : error -> M A) :
  yields Q m ->
  (forall e, Q (Throw e) -> yields P (h e)) ->
  (forall a, Q (Ok a) -> P (Ok a)) ->
  (Q Diverged -> P Diverged) ->
  yields P (try_catch m h).
Proof.
  intros Hm Hh Ha Hd w. unfold try_catch. specialize (Hm w).
  destruct (m w) as [[a|e|] w1]; simpl in *.
  - now apply Ha.
  - now apply Hh.
  - now apply Hd.
Qed.

Lemma yields_any {A} (m : M A) : yields (fun _ => True) m.
Proof. intros w. exact I. Qed.

(** Sequencing when nothing is known of the first step. *)
Lemma yields_bind_any {A B} (P : result B -> Prop) (m : M A) (k : A -> M B) :
  (forall a, yields P (k a)) ->
  (forall e, P (Throw e)) ->
  P Diverged ->
  yields P (bind m k).
Proof.
  intros Hk He Hd.
  apply (yields_bind (fun _ => True)); auto using yields_any.
Qed.

Lemma bind_ok {A B} (m : M A) (k : A -> M B) w a w1 :
  m w = (Ok a, w1) -> bind m k w = k a w1.
Proof. intros H. unfold bind. now rewrite H. Qed.

Lemma bind_throw {A B} (m : M A) (k : A -> M B) w e w1 :
  m w = (Throw e, w1) -> bind m k w = (Throw e, w1).
Proof. intros H. unfold bind. now rewrite H. Qed.

Lemma try_catch_ok {A} (m : M A) h w a w1 :
  m w = (Ok a, w1) -> try_catch m h w = (Ok a, w1).
Proof. intros H. unfold try_catch. now rewrite H. Qed.

Lemma try_catch_throw {A} (m : M A) h w e w1 :
  m w = (Throw e, w1) -> try_catch m h w = h e w1.
Proof. intros H. unfold try_catch. now rewrite H. Qed.

Section Frame.
Variable R : world -> world -> Prop.
Hypothesis R_refl : forall w, R w w.
Hypothesis R_trans : forall a b c, R a b -> R b c -> R a c.

Lemma keeps_ret {A} (a : A) : keeps R (ret a).
Proof. intros w. apply R_refl. Qed.

Lemma keeps_throw {A} e : keeps R (@throw A e).
Proof. intros w. apply R_refl. Qed.

Lemma keeps_gets {A} (f : world -> A) : keeps R (gets f).
Proof. intros w. apply R_refl. Qed.

Lemma keeps_modify f : (forall w, R w (f w)) -> keeps R (modify f).
Proof. intros H w. apply H. Qed.

Lemma keeps_bind {A B} (m : M A) (k : A -> M B) :
  keeps R m -> (forall a, keeps R (k a)) -> keeps R (bind m k).
Proof.
  intros Hm Hk w. unfold bind. specialize (Hm w).
  destruct (m w) as [[a|e|] w1]; simpl in *; try assumption.
  eapply R_trans; [exact Hm | apply Hk].
Qed.

Lemma keeps_try_catch {A} (m : M A) (h : error -> M A) :
  keeps R m -> (forall e, keeps R (h e)) -> keeps R (try_catch m h).
Proof.
  intros Hm Hh w. unfold try_catch. specialize (Hm w).
  destruct (m w) as [[a|e|] w1]; simpl in *; try assumption.
  eapply R_trans; [exact Hm | apply Hh].
Qed.

Lemma keeps_field v k : keeps R (field v k).
Proof. unfold field. destruct (get_field v k); [apply keeps_ret | apply keeps_throw]. Qed.

Lemma keeps_read_json r : keeps R (read_json r).
Proof. unfold read_json. destruct (json r); [apply keeps_ret | apply keeps_throw]. Qed.
End Frame.

End MonadFacts.

Create HintDb returns.

(** Decompose a goal about a monadic definition along its structure. *)
Ltac returns_tac :=
  repeat first
    [ apply MonadFacts.returns_ret
    | apply MonadFacts.returns_throw
    | apply MonadFacts.returns_gets
    | apply MonadFacts.returns_modify
    | apply MonadFacts.returns_field
    | apply MonadFacts.returns_read_json
    | apply MonadFacts.returns_emit
    | apply MonadFacts.returns_sleep
    | apply MonadFacts.returns_invoke
    | solve [eauto with returns]
    | apply MonadFacts.returns_bind; [|intros ?]
    | apply MonadFacts.returns_try_catch; [|intros ?]
    | match goal with
      | |- Obs.returns (if ?c then _ else _) => destruct c
      | |- Obs.returns (match ?x with _ => _ end) => destruct x
      end ].

Module AuthFacts.
Import Obs Api MonadFacts.

Section WithEnvironment.
Variable net : list request -> request -> fetch_outcome.
Variable base64Decode : string -> option string.

Lemma returns_fetch req : returns (fetch net req).
Proof. intros w. unfold fetch. destruct (net (history w) req); discriminate. Qed.
#[local] Hint Resolve returns_fetch : returns.

Lemma returns_secure_get k : returns (secure_get k).
Proof. apply returns_gets. Qed.
#[local] Hint Resolve returns_secure_get : returns.

Lemma returns_secure_set k v : returns (secure_set k v).
Proof. unfold secure_set. destruct v; returns_tac. Qed.
#[local] Hint Resolve returns_secure_set : returns.

Lemma returns_secure_delete k : returns (secure_delete k).
Proof. apply returns_modify. Qed.
#[local] Hint Resolve returns_secure_delete : returns.

Lemma returns_getConsistentUserId kc : returns (getConsistentUserId kc).
Proof. unfold getConsistentUserId, rejecting. returns_tac. Qed.
#[local] Hint Resolve returns_getConsistentUserId : returns.

Lemma returns_generateNewToken : returns (generateNewToken net).
Proof.
  unfold generateNewToken. returns_tac.
Qed.
#[local] Hint Resolve returns_generateNewToken : returns.

Lemma returns_validate_stored t : returns (validate_stored net t).
Proof. unfold validate_stored. returns_tac. Qed.
#[local] Hint Resolve returns_validate_stored : returns.

Lemma returns_getAuthToken : returns (getAuthToken net).
Proof.
  unfold getAuthToken. returns_tac.
Qed.
#[local] Hint Resolve returns_getAuthToken : returns.

Lemma returns_clearAuthToken : returns clearAuthToken.
Proof. unfold clearAuthToken, secure_delete. returns_tac. Qed.
#[local] Hint Resolve returns_clearAuthToken : returns.

Lemma returns_attempt url opts rc : returns (attempt net url opts rc).
Proof.
  unfold attempt. returns_tac.
Qed.
#[local] Hint Resolve returns_attempt : returns.

(** [getCurrentUserId] has a catch-all: it resolves, with the id or null. *)
Lemma getCurrentUserId_resolves w :
  exists r w1, getCurrentUserId net base64Decode w = (Ok r, w1).
Proof.
  unfold getCurrentUserId, try_catch.
  destruct (returns_cases
              (token <- getAuthToken net;;
               if negb (truthy token) then ret None
               else match base64Decode (Str.to_text token) with
                    | Some decoded => t <- gets now;; ret (decodePayload decoded t)
                    | None => throw (Err "InvalidCharacterError"
                         "Invalid character: the string to be decoded is not correctly encoded.")
                    end)%js w) as [(a & w1 & E) | (e & w1 & E)].
  - returns_tac.
  - rewrite E. now exists a, w1.
  - rewrite E. now exists None, w1.
Qed.

(** What [getCurrentUserId] computes from a token in hand. *)
Lemma getCurrentUserId_decodes w tok w1 decoded :
  getAuthToken net w = (Ok (JStr tok), w1) ->
  tok <> "" ->
  base64Decode tok = Some decoded ->
  getCurrentUserId net base64Decode w = (Ok (decodePayload decoded (now w1)), w1).
Proof.
  intros Ht Hne Hd. unfold getCurrentUserId, try_catch, bind. rewrite Ht.
  simpl. apply String.eqb_neq in Hne. rewrite Hne. simpl. now rewrite Hd.
Qed.

End WithEnvironment.

End AuthFacts.

Module CredentialFacts.
Import Str Api StrFacts.

Lemma expired_when_past e n nowMs :
  parseInt e = Some n -> n < nowMs / 1000 -> expired e nowMs = true.
Proof. intros He Hn. unfold expired. rewrite He. now apply Z.ltb_lt. Qed.

Lemma legacy_no_pipe sub e t s :
  includes "|" sub = false -> includes "|" e = false ->
  includes "|" t = false -> includes "|" s = false ->
  includes "|" (sub ++ ":" ++ e ++ ":" ++ t ++ ":" ++ s) = false.
Proof.
  intros Hsub He Ht Hs.
  change (sub ++ ":" ++ e ++ ":" ++ t ++ ":" ++ s)
    with (sub ++ String ":" (e ++ String ":" (t ++ String ":" s))).
  rewrite includes_single_app, includes_single_cons.
  rewrite includes_single_app, includes_single_cons.
  rewrite includes_single_app, includes_single_cons.
  rewrite Hsub, He, Ht, Hs. reflexivity.
Qed.

(** The legacy branch on a payload [subject:expiry:timestamp:signature]. *)
Lemma decodePayload_legacy sub e t s nowMs :
  includes "|" sub = false -> includes "|" e = false ->
  includes "|" t = false -> includes "|" s = false ->
  includes ":" e = false -> includes ":" t = false -> includes ":" s = false ->
  decodePayload (sub ++ ":" ++ e ++ ":" ++ t ++ ":" ++ s) nowMs
  = if expired e nowMs then None else Some sub.
Proof.
  intros Hsub He Ht Hs He' Ht' Hs'.
  unfold decodePayload.
  rewrite (legacy_no_pipe sub e t s Hsub He Ht Hs).
  rewrite (split_legacy sub e t s He' Ht' Hs').
  pose proof (split_nonempty ":" sub) as Hne.
  set (pre := split ":" sub) in *.
  assert (Hlen : length (pre ++ [e; t; s])%list = (length pre + 3)%nat).
  { rewrite length_app. reflexivity. }
  rewrite Hlen.
  assert (Hge : (length pre + 3 <? 4)%nat = false).
  { apply Nat.ltb_ge. destruct pre; [contradiction | simpl; lia]. }
  rewrite Hge.
  replace (length pre + 3 - 3)%nat with (length pre) by lia.
  rewrite app_nth2 by lia. rewrite Nat.sub_diag. simpl nth.
  unfold slice0. rewrite firstn_app, Nat.sub_diag, firstn_all. simpl firstn.
  rewrite app_nil_r. subst pre. now rewrite join_split.
Qed.

(** C6. On a legacy colon-delimited payload the decoder takes the last three
    colon-separated fields as expiry, timestamp and signature and joins what
    precedes them with colons, so a subject containing colons comes back
    intact; it returns null when the expiry has passed, when a pipe payload
    does not have exactly 4 parts, when a colon payload has fewer than 4
    parts; and [getCurrentUserId] never rejects. *)
Theorem C6_decode_subject :
  (forall sub e t s nowMs,
      includes "|" sub = false -> includes "|" e = false ->
      includes "|" t = false -> includes "|" s = false ->
      includes ":" e = false -> includes ":" t = false -> includes ":" s = false ->
      decodePayload (sub ++ ":" ++ e ++ ":" ++ t ++ ":" ++ s) nowMs
      = if expired e nowMs then None else Some sub)
  /\ (forall e n nowMs, parseInt e = Some n -> n < nowMs / 1000 -> expired e nowMs = true)
  /\ (forall decoded c e t s nowMs,
         includes "|" decoded = true -> split "|" decoded = [c; e; t; s] ->
         decodePayload decoded nowMs = if expired e nowMs then None else Some c)
  /\ (forall decoded nowMs,
         includes "|" decoded = true -> length (split "|" decoded) <> 4%nat ->
         decodePayload decoded nowMs = None)
  /\ (forall decoded nowMs,
         includes "|" decoded = false -> (length (split ":" decoded) < 4)%nat ->
         decodePayload decoded nowMs = None)
  /\ (forall net base64Decode w,
         exists r w1, getCurrentUserId net base64Decode w = (Ok r, w1))
  /\ (forall net base64Decode w tok w1 decoded,
         getAuthToken net w = (Ok (JStr tok), w1) -> tok <> "" ->
         base64Decode tok = Some decoded ->
         getCurrentUserId net base64Decode w = (Ok (decodePayload decoded (now w1)), w1)).
Proof.
  split; [exact decodePayload_legacy|].
  split; [exact expired_when_past|].
  split.
  { intros decoded c e t s nowMs Hp Hs. unfold decodePayload. now rewrite Hp, Hs. }
  split.
  { intros decoded nowMs Hp Hlen. unfold decodePayload. rewrite Hp.
    destruct (split "|" decoded) as [|a [|b [|c [|d [|x l]]]]]; try reflexivity.
    now contradiction Hlen. }
  split.
  { intros decoded nowMs Hp Hlen. unfold decodePayload. rewrite Hp.
    apply Nat.ltb_lt in Hlen. now rewrite Hlen. }
  split.
  { exact AuthFacts.getCurrentUserId_resolves. }
  exact AuthFacts.getCurrentUserId_decodes.
Qed.

Lemma C6_witness :
  decodePayload Scenario.legacy_payload 1756999500000 = Some "org:alice"
  /\ decodePayload Scenario.legacy_payload 1757000001000 = None
  /\ decodePayload "alice|1757000000|1756999000" 1756999500000 = None
  /\ decodePayload "alice:1757000000:sig" 1756999500000 = None.
Proof.
  destruct C6_decode_subject as (Hlegacy & Hexp & _ & Hpipe & Hcolon & _).
  split; [|split; [|split]].
  - exact (Hlegacy "org:alice" "1757000000" "1756999000" "c2lnbmF0dXJl" 1756999500000
                   eq_refl eq_refl eq_refl eq_refl eq_refl eq_refl eq_refl).
  - pose proof (Hlegacy "org:alice" "1757000000" "1756999000" "c2lnbmF0dXJl" 1757000001000
                        eq_refl eq_refl eq_refl eq_refl eq_refl eq_refl eq_refl) as H.
    rewrite (Hexp "1757000000" 1757000000 1757000001000 eq_refl) in H by reflexivity.
    exact H.
  - apply Hpipe; [reflexivity | vm_compute; lia].
  - apply Hcolon; [reflexivity | vm_compute; lia].
Defined.

(** The decoder run end to end on a base64 token carrying the legacy
    payload. *)
Example decode_legacy_token :
  option_map (fun d => decodePayload d 1756999500000)
             (Base64.decode "b3JnOmFsaWNlOjE3NTcwMDAwMDA6MTc1Njk5OTAwMDpjMmxuYm1GMGRYSmw=")
  = Some (Some "org:alice").
Proof. vm_compute. reflexivity. Qed.

End CredentialFacts.

(* ===================================================================== *)
(*  makeAuthenticatedRequest and checkSubscriptionStatus: facts          *)
(* ===================================================================== *)

Module RequestFacts.
Import Obs Api MonadFacts AuthFacts.

Section WithNetwork.
Variable net : list request -> request -> fetch_outcome.

(** A pass asks for a retry only while retries are left. *)
Lemma attempt_retry_lt url opts rc w w1 :
  attempt net url opts rc w = (Ok Retry, w1) -> (rc < maxRetries)%nat.
Proof.
  intros H.
  assert (Hy : yields (fun r => r = Ok Retry -> (rc < maxRetries)%nat)
                      (attempt net url opts rc)).
  { unfold attempt.
    apply (yields_try_catch (fun r => r = Ok Retry -> (rc < maxRetries)%nat));
      [| intros e _ | auto | auto].
    - repeat first
        [ apply yields_bind_any; [intros ? | discriminate | discriminate]
        | apply yields_ret | apply yields_throw
        | match goal with
          | |- yields _ (if ?c then _ else _) => destruct c eqn:?
          end ];
        try discriminate; intros _;
        match goal with
        | Hc : _ && (rc <? _)%nat = true |- _ =>
            apply andb_true_iff in Hc as [_ Hlt]; apply Nat.ltb_lt in Hlt;
            unfold maxRetries in *; lia
        end.
    - repeat first
        [ apply yields_bind_any; [intros ? | discriminate | discriminate]
        | apply yields_ret | apply yields_throw
        | match goal with
          | |- yields _ (if ?c then _ else _) => destruct c eqn:?
          end ];
        try discriminate; intros _.
      now apply Nat.ltb_lt. }
  specialize (Hy w). rewrite H in Hy. now apply Hy.
Qed.

(** A pass that ends with a response ends with a 2xx response. *)
Lemma attempt_done_ok url opts rc w r w1 :
  attempt net url opts rc w = (Ok (Done r), w1) -> ok r = true.
Proof.
  intros H.
  assert (Hy : yields (fun x => forall r, x = Ok (Done r) -> ok r = true)
                      (attempt net url opts rc)).
  { unfold attempt.
    apply (yields_try_catch (fun x => forall r, x = Ok (Done r) -> ok r = true));
      [| intros e _ | auto | auto].
    - repeat first
        [ apply yields_bind_any; [intros ? | discriminate | discriminate]
        | apply yields_ret | apply yields_throw
        | match goal with
          | |- yields _ (if ?c then _ else _) => destruct c eqn:?
          end ];
        try discriminate.
      intros r0 [= <-]. now apply negb_false_iff.
    - repeat first
        [ apply yields_bind_any; [intros ? | discriminate | discriminate]
        | apply yields_ret | apply yields_throw
        | match goal with
          | |- yields _ (if ?c then _ else _) => destruct c eqn:?
          end ];
        discriminate. }
  specialize (Hy w). rewrite H in Hy. now apply Hy.
Qed.

Lemma returns_attempts fuel url opts rc :
  (maxRetries - rc < fuel)%nat -> returns (attempts net fuel url opts rc).
Proof.
  revert rc. induction fuel as [|fuel IH]; intros rc Hfuel w; [lia|].
  simpl. unfold bind.
  pose proof (returns_attempt net url opts rc w) as Hret.
  destruct (attempt net url opts rc w) as [[[r|]|e|] w1] eqn:E; simpl in *.
  - discriminate.
  - apply attempt_retry_lt in E. apply IH. unfold maxRetries in *. lia.
  - discriminate.
  - contradiction.
Qed.

(** [makeAuthenticatedRequest] settles: its retries are bounded. *)
Lemma returns_makeAuthenticatedRequest url opts rc :
  returns (makeAuthenticatedRequest net url opts rc).
Proof. apply returns_attempts. lia. Qed.

Lemma attempts_ok fuel url opts rc w r w1 :
  attempts net fuel url opts rc w = (Ok r, w1) -> ok r = true.
Proof.
  revert rc w. induction fuel as [|fuel IH]; intros rc w; [discriminate|].
  simpl. unfold bind.
  destruct (attempt net url opts rc w) as [[[r0|]|e|] w0] eqn:E; simpl.
  - intros [= -> ->]. eapply attempt_done_ok; eauto.
  - apply IH.
  - discriminate.
  - discriminate.
Qed.

(** [makeAuthenticatedRequest] resolves only with a 2xx response; every
    other status is a rejection. *)
Lemma makeAuthenticatedRequest_ok url opts rc w r w1 :
  makeAuthenticatedRequest net url opts rc w = (Ok r, w1) -> ok r = true.
Proof. apply attempts_ok. Qed.

(** A pass that ends with a response ends with what the remote side
    answered to its request. *)
Lemma attempt_done_answered url opts rc :
  yields (fun x => forall r, x = Ok (Done r) ->
            answered_by net (if Str.startsWith "http" url then url else baseURL ++ url) r)
         (attempt net url opts rc).
Proof.
  unfold attempt.
  apply (yields_try_catch
           (fun x => forall r, x = Ok (Done r) ->
              answered_by net (if Str.startsWith "http" url then url else baseURL ++ url) r));
    [| intros e _ | auto | auto].
  - apply yields_bind_any; [intros token | discriminate | discriminate].
    destruct (negb (truthy token)); [apply yields_throw; discriminate|].
    destruct (negb (Str.startsWith "https://" _)); [apply yields_throw; discriminate|].
    match goal with
    | |- yields _ (bind (fetch net ?r) _) =>
        apply (yields_bind (fun x => forall resp, x = Ok resp ->
                              answered_by net (r_url r) resp))
    end.
    + intros w. unfold fetch.
      match goal with
      | |- context [net (history w) ?r] => destruct (net (history w) r) as [resp|e] eqn:E
      end; simpl; [|discriminate].
      intros resp' [= <-]. eexists _, _. split; [exact E|]. split; reflexivity.
    + intros response Hans.
      destruct (negb (ok response)).
      * repeat first
          [ apply yields_bind_any; [intros ? | discriminate | discriminate]
          | apply yields_ret | apply yields_throw
          | match goal with
            | |- yields _ (if ?c then _ else _) => destruct c
            end ];
          discriminate.
      * apply yields_ret. intros r [= <-]. now apply Hans.
    + discriminate.
    + discriminate.
  - repeat first
      [ apply yields_bind_any; [intros ? | discriminate | discriminate]
      | apply yields_ret | apply yields_throw
      | match goal with
        | |- yields _ (if ?c then _ else _) => destruct c
        end ];
      discriminate.
Qed.

(** What [makeAuthenticatedRequest] resolves with is an answer of the remote
    side to a request sent to that URL. *)
Lemma makeAuthenticatedRequest_answered url opts rc :
  yields (fun x => forall r, x = Ok r ->
            answered_by net (if Str.startsWith "http" url then url else baseURL ++ url) r)
         (makeAuthenticatedRequest net url opts rc).
Proof.
  unfold makeAuthenticatedRequest. generalize (S (maxRetries - rc)) as fuel.
  intros fuel. revert rc. induction fuel as [|fuel IH]; intros rc; simpl.
  - intros w. discriminate.
  - eapply yields_bind; [apply attempt_done_answered | | discriminate | discriminate].
    intros [r|] Ha.
    + apply yields_ret. intros r' [= <-]. now apply Ha.
    + apply IH.
Qed.

(** C9. [checkSubscriptionStatus] never rejects, and fails closed. Whatever
    goes wrong inside it, the request rejecting, a response that is not
    2xx, [response.json()] rejecting, or the body being null so that reading
    [has_subscription] throws, it resolves with has_subscription false,
    tier free, not verified. Only a 2xx answer whose body could be read
    gives a verified result, with tier pro exactly when the body's
    [has_subscription] is truthy; so tier pro never comes out of an
    error. *)
Theorem C9_subscription_check_fails_closed w :
  exists s w1,
    checkSubscriptionStatus net w = (Ok s, w1)
    /\ (forall e w2,
          makeAuthenticatedRequest net "/check-user-subscription"
                                   subscription_request 0 w = (Throw e, w2) ->
          s = Subscription (JBool false) "free" "error_fallback" false
                           (Some (e_message e)))
    /\ (forall r w2,
          makeAuthenticatedRequest net "/check-user-subscription"
                                   subscription_request 0 w = (Ok r, w2) ->
          ok r = false ->
          has_subscription s = JBool false /\ tier s = "free" /\ verified s = false)
    /\ (forall r w2,
          makeAuthenticatedRequest net "/check-user-subscription"
                                   subscription_request 0 w = (Ok r, w2) ->
          json r = None ->
          has_subscription s = JBool false /\ tier s = "free" /\ verified s = false)
    /\ (forall r w2 body,
          makeAuthenticatedRequest net "/check-user-subscription"
                                   subscription_request 0 w = (Ok r, w2) ->
          json r = Some body ->
          get_field body "has_subscription" = None ->
          has_subscription s = JBool false /\ tier s = "free" /\ verified s = false)
    /\ (forall r w2 body hs,
          makeAuthenticatedRequest net "/check-user-subscription"
                                   subscription_request 0 w = (Ok r, w2) ->
          json r = Some body ->
          get_field body "has_subscription" = Some hs ->
          s = Subscription (js_or hs (JBool false))
                           (if truthy hs then "pro" else "free") "api_check" true None)
    /\ (tier s = "pro" ->
        verified s = true /\ truthy (has_subscription s) = true /\ sub_error s = None
        /\ exists r w2 body hs,
            makeAuthenticatedRequest net "/check-user-subscription"
                                     subscription_request 0 w = (Ok r, w2)
            /\ ok r = true /\ json r = Some body
            /\ get_field body "has_subscription" = Some hs /\ truthy hs = true).
Proof.
  unfold checkSubscriptionStatus, try_catch, bind.
  pose proof (returns_makeAuthenticatedRequest "/check-user-subscription"
                subscription_request 0 w) as Hret.
  destruct (makeAuthenticatedRequest net "/check-user-subscription"
              subscription_request 0 w) as [[r|e|] w2] eqn:E; simpl in *;
    [| | contradiction].
  - pose proof (makeAuthenticatedRequest_ok _ _ _ _ _ _ E) as Hok.
    rewrite Hok. simpl.
    unfold read_json. destruct (json r) as [body|] eqn:Hj; simpl.
    + unfold field. destruct (get_field body "has_subscription") as [hs|] eqn:Hf; simpl.
      * eexists _, _. split; [reflexivity|].
        split; [discriminate|].
        split; [intros r' w' Hr; inversion Hr; subst; congruence|].
        split; [intros r' w' Hr; inversion Hr; subst; congruence|].
        split; [intros r' w' body' Hr; inversion Hr; subst; congruence|].
        split; [intros r' w' body' hs' Hr Hb Hh; inversion Hr; subst;
                rewrite Hj in Hb; inversion Hb; subst;
                rewrite Hf in Hh; inversion Hh; reflexivity|].
        destruct (truthy hs) eqn:Hhs; [|discriminate].
        intros _. split; [reflexivity|]. split; [unfold js_or; now rewrite Hhs|].
        split; [reflexivity|]. now exists r, w2, body, hs.
      * eexists _, _. split; [reflexivity|].
        split; [discriminate|]. simpl.
        split; [auto|]. split; [auto|]. split; [auto|].
        split; [intros r' w' body' hs' Hr; inversion Hr; subst; congruence
               | discriminate].
    + eexists _, _. split; [reflexivity|].
      split; [discriminate|]. simpl.
      split; [auto|]. split; [auto|]. split; [auto|].
      split; [intros r' w' body' hs' Hr; inversion Hr; subst; congruence
             | discriminate].
  - eexists _, _. split; [reflexivity|].
    split; [intros e' w' Hr; inversion Hr; reflexivity|]. simpl.
    split; [discriminate|]. split; [discriminate|]. split; [discriminate|].
    split; discriminate.
Qed.

End WithNetwork.

Lemma C9_witness :
  exists s w1,
    checkSubscriptionStatus (fun _ _ => Scenario.network_failure) Scenario.fresh = (Ok s, w1)
    /\ has_subscription s = JBool false /\ tier s = "free" /\ verified s = false.
Proof.
  destruct (C9_subscription_check_fails_closed (fun _ _ => Scenario.network_failure)
              Scenario.fresh) as (s & w1 & E & Hthrow & _).
  exists s, w1. split; [exact E|].
  destruct (makeAuthenticatedRequest (fun _ _ => Scenario.network_failure)
              "/check-user-subscription" subscription_request 0 Scenario.fresh)
    as [[r|e|] w2] eqn:Er; vm_compute in Er; try discriminate.
  rewrite (Hthrow e w2 eq_refl). repeat split.
Defined.

End RequestFacts.

(* ===================================================================== *)
(*  401 handling                                                         *)
(* ===================================================================== *)

Module UnauthorizedFacts.
Import Obs Api MonadFacts AuthFacts RequestFacts.

Lemma same_counts_refl w : same_counts w w.
Proof. split; reflexivity. Qed.

Lemma same_counts_trans a b c : same_counts a b -> same_counts b c -> same_counts a c.
Proof. intros [H1 H2] [H3 H4]. split; congruence. Qed.

Create HintDb keeps.

Ltac keeps_tac :=
  repeat first
    [ apply (keeps_ret _ same_counts_refl)
    | apply (keeps_throw _ same_counts_refl)
    | apply (keeps_gets _ same_counts_refl)
    | apply (keeps_field _ same_counts_refl)
    | apply (keeps_read_json _ same_counts_refl)
    | solve [eauto with keeps]
    | apply (keeps_bind _ same_counts_trans); [|intros ?]
    | apply (keeps_try_catch _ same_counts_trans); [|intros ?]
    | match goal with
      | |- keeps _ (if ?c then _ else _) => destruct c
      | |- keeps _ (match ?x with _ => _ end) => destruct x
      end ].

Lemma api_requests_push req w :
  api_requests (push_request req w)
  = (api_requests w + if is_api req then 1 else 0)%nat.
Proof.
  unfold api_requests, push_request. simpl.
  rewrite List.filter_app, length_app. simpl.
  destruct (is_api req); reflexivity.
Qed.

Lemma invalidations_push_effect e w :
  invalidations (push_effect e w)
  = (invalidations w + if is_clear e then 1 else 0)%nat.
Proof.
  unfold invalidations, push_effect. simpl.
  rewrite List.filter_app, length_app. simpl.
  destruct (is_clear e); reflexivity.
Qed.

Section WithNetwork.
Variable net : list request -> request -> fetch_outcome.

Lemma keeps_fetch req : is_api req = false -> keeps same_counts (fetch net req).
Proof.
  intros Hreq w. unfold fetch.
  destruct (net (history w) req); simpl; split;
    try reflexivity; rewrite api_requests_push, Hreq; lia.
Qed.

Lemma keeps_secure_set k v : keeps same_counts (secure_set k v).
Proof.
  unfold secure_set. destruct v; try apply (keeps_throw _ same_counts_refl).
  intros w. split; reflexivity.
Qed.

Lemma keeps_secure_get k : keeps same_counts (secure_get k).
Proof. apply (keeps_gets _ same_counts_refl). Qed.

Lemma keeps_set_authToken t : keeps same_counts (modify (set_authToken t)).
Proof. intros w. split; reflexivity. Qed.

#[local] Hint Resolve keeps_secure_set keeps_secure_get keeps_set_authToken : keeps.

Lemma keeps_getConsistentUserId kc : keeps same_counts (getConsistentUserId kc).
Proof. unfold getConsistentUserId, rejecting. keeps_tac. Qed.
#[local] Hint Resolve keeps_getConsistentUserId : keeps.

Lemma keeps_generateNewToken : keeps same_counts (generateNewToken net).
Proof.
  unfold generateNewToken. keeps_tac. now apply keeps_fetch.
Qed.
#[local] Hint Resolve keeps_generateNewToken : keeps.

Lemma keeps_validate_stored t : keeps same_counts (validate_stored net t).
Proof. unfold validate_stored. keeps_tac. now apply keeps_fetch. Qed.
#[local] Hint Resolve keeps_validate_stored : keeps.

(** Acquiring a credential sends no API request and invalidates nothing. *)
Lemma keeps_getAuthToken : keeps same_counts (getAuthToken net).
Proof. unfold getAuthToken. keeps_tac. Qed.

Lemma getConsistentUserId_ok kc w :
  exists u w1, getConsistentUserId kc w = (Ok u, w1).
Proof.
  unfold getConsistentUserId, try_catch, rejecting, bind, gets, secure_get,
    secure_set, modify, ret, throw.
  destruct (revenuecat_id w) as [rc|]; simpl;
    [destruct (negb (rc =? "")%string); simpl; [eauto|]|];
    (destruct (getItem_error kc); simpl; [eauto|]);
    (destruct (secure w !! "device_user_id") as [d|]; simpl;
     [destruct (negb (d =? "")%string); simpl; [eauto|]|]);
    destruct (setItem_error kc); simpl; eauto.
Qed.

Hypothesis Hissue : issues_tokens net.

Lemma generateNewToken_ok w :
  exists t w1, generateNewToken net w = (Ok (JStr t), w1) /\ t <> "".
Proof.
  unfold generateNewToken.
  destruct (getConsistentUserId_ok working w) as (u & w1 & Eu).
  rewrite (bind_ok _ _ _ _ _ Eu).
  set (req := Req SiteTokenIssue "POST" (baseURL ++ "/auth/token")
                  [("Content-Type", "application/json")]
                  (JObj [("app_user_id", JStr u)])).
  destruct (Hissue (history w1) req eq_refl)
    as (resp & data & tok & Hn & Hok & Hj & Hf & Hne).
  apply String.eqb_neq in Hne.
  unfold bind, ret, throw, read_json, field, modify, secure_set, fetch.
  fold req. rewrite Hn. simpl. rewrite Hok. simpl. rewrite Hj. simpl.
  rewrite Hf. simpl. rewrite Hne. simpl.
  eexists _, _. split; [reflexivity|]. now apply String.eqb_neq.
Qed.

Lemma yields_generateNewToken : yields good_token (generateNewToken net).
Proof.
  intros w. destruct (generateNewToken_ok w) as (t & w1 & E & Hne).
  rewrite E. now exists t.
Qed.

Lemma truthy_good v : good_token (Ok v) -> truthy v = true.
Proof.
  intros (t & [= ->] & Hne). simpl. apply String.eqb_neq in Hne. now rewrite Hne.
Qed.

(** Generating and storing a fresh credential. *)
Lemma yields_fresh_token :
  yields good_token
         (fresh <- generateNewToken net ;;
          (if truthy fresh then secure_set "authToken" fresh else ret tt) ;;;
          ret fresh)%js.
Proof.
  apply (yields_bind good_token); [apply yields_generateNewToken | | |].
  - intros a Ha. rewrite (truthy_good a Ha).
    destruct Ha as (t & [= ->] & Hne).
    apply (yields_bind (fun r => r = Ok tt)).
    + intros w. reflexivity.
    + intros _ _. apply yields_ret. now exists t.
    + discriminate.
    + discriminate.
  - intros e (t & Ht & _). discriminate.
  - intros (t & Ht & _). discriminate.
Qed.

(** After validation the stored token is returned, kept, or dropped. *)
Lemma yields_validate_stored s :
  s <> "" ->
  yields (fun r => r = Ok (inl (JStr s)) \/ r = Ok (inr JNull) \/ r = Ok (inr (JStr s)))
         (validate_stored net (JStr s)).
Proof.
  intros Hs w. unfold validate_stored, try_catch, bind, fetch, ret.
  destruct (net (history w) _) as [resp|e]; simpl; [|auto].
  destruct (ok resp); simpl; [auto|].
  destruct (status resp =? 401); simpl; auto.
Qed.

(** With a working token endpoint, [getAuthToken] resolves with a
    non-empty credential. *)
Lemma yields_getAuthToken : yields good_token (getAuthToken net).
Proof.
  unfold getAuthToken.
  apply (yields_try_catch good_token).
  2:{ intros e (t & Ht & _). discriminate. }
  2:{ auto. }
  2:{ auto. }
  apply (yields_bind (fun r => r = Ok JNull \/ exists s, r = Ok (JStr s))).
  { intros w. unfold secure_get, gets. simpl.
    destruct (secure w !! "authToken"); eauto. }
  2:{ intros e [H|(s & H)]; discriminate. }
  2:{ intros [H|(s & H)]; discriminate. }
  intros stored Hstored.
  apply (yields_bind
           (fun r => exists c, r = Ok c /\
              match c with
              | inl t => good_token (Ok t)
              | inr t => truthy t = false \/ good_token (Ok t)
              end)).
  - destruct Hstored as [[= ->] | (s & [= ->])].
    + simpl. apply yields_ret. exists (inr JNull). auto.
    + simpl truthy. destruct (s =? "")%string eqn:Hs; simpl negb; cbv iota.
      * apply yields_ret. exists (inr (JStr s)). split; [reflexivity|].
        left. simpl. now rewrite Hs.
      * apply String.eqb_neq in Hs.
        eapply yields_weaken; [apply (yields_validate_stored s Hs)|].
        intros r [-> | [-> | ->]]; eexists; (split; [reflexivity|]).
        -- now exists s.
        -- now left.
        -- right. now exists s.
  - intros c (c' & [= <-] & Hc). destruct c as [t|t].
    + apply yields_ret. exact Hc.
    + destruct Hc as [Hf | Hg].
      * rewrite Hf. simpl negb. cbv iota. apply yields_fresh_token.
      * rewrite (truthy_good t Hg). simpl negb. cbv iota. apply yields_ret. exact Hg.
  - intros e (c & H & _). discriminate.
  - intros (c & H & _). discriminate.
Qed.

Lemma getAuthToken_ok w :
  exists t w1, getAuthToken net w = (Ok (JStr t), w1) /\ t <> ""
               /\ same_counts w w1.
Proof.
  pose proof (yields_getAuthToken w) as (t & Ht & Hne).
  pose proof (keeps_getAuthToken w) as Hk.
  destruct (getAuthToken net w) as [r w1]. simpl in *. subst r.
  now exists t, w1.
Qed.

Hypothesis H401 : answers_401 net.

Lemma clearAuthToken_clears w :
  exists w1, clearAuthToken w = (Ok tt, w1)
             /\ credential_cleared w1
             /\ api_requests w1 = api_requests w
             /\ invalidations w1 = (invalidations w + 1)%nat.
Proof.
  exists (set_secure (delete "auth_token")
            (set_secure (delete "authToken")
               (set_authToken JNull (push_effect EClearAuth w)))).
  split; [reflexivity|].
  unfold credential_cleared, api_requests, invalidations.
  cbn [secure authToken history effects set_secure set_authToken push_effect].
  repeat split.
  - rewrite lookup_delete_ne by discriminate. apply lookup_delete_eq.
  - apply lookup_delete_eq.
  - rewrite List.filter_app, length_app. reflexivity.
Qed.

(** One pass that is answered 401: below two retries it invalidates the
    credential and asks for a retry, afterwards it rejects. *)
Lemma attempt_401 url opts rc w :
  https_url url ->
  exists w1,
    attempt net url opts rc w
    = (if (rc <? 2)%nat then Ok Retry else Throw (Error "HTTP error! status: 401"), w1)
    /\ api_requests w1 = (api_requests w + 1)%nat
    /\ invalidations w1 = (invalidations w + if (rc <? 2)%nat then 1 else 0)%nat
    /\ ((rc < 2)%nat -> credential_cleared w1).
Proof.
  intros Hurl. unfold attempt.
  destruct (getAuthToken_ok w) as (t & w0 & E & Hne & Hapi & Hinv).
  unfold try_catch. rewrite (bind_ok _ _ _ _ _ E). cbv beta.
  unfold truthy. apply String.eqb_neq in Hne. rewrite Hne. cbn [negb]. cbv iota.
  unfold https_url in Hurl. rewrite Hurl. cbn [negb]. cbv iota.
  match goal with
  | |- context [fetch net ?r] => set (req := r)
  end.
  destruct (H401 (history w0) req eq_refl) as (resp & Hn & Hst).
  assert (Ef : fetch net req w0 = (Ok resp, push_request req w0)).
  { unfold fetch. now rewrite Hn. }
  rewrite (bind_ok _ _ _ _ _ Ef). cbv beta.
  assert (Hok : ok resp = false) by (unfold ok; rewrite Hst; reflexivity).
  rewrite Hok, Hst. cbn [negb]. cbv iota.
  assert (Hreq : api_requests (push_request req w0) = (api_requests w + 1)%nat).
  { rewrite api_requests_push. simpl. lia. }
  assert (Hinv0 : invalidations (push_request req w0) = invalidations w).
  { exact Hinv. }
  destruct (rc <? 2)%nat eqn:Hrc.
  - change ((401 =? 401) && true) with true. cbv iota.
    destruct (clearAuthToken_clears (push_request req w0)) as (w1 & Ec & Hcl & Ha & Hi).
    rewrite (bind_ok _ _ _ _ _ Ec). unfold ret.
    exists w1. split; [reflexivity|]. split; [lia|]. split; [lia|].
    intros _. exact Hcl.
  - change ((401 =? 401) && false) with false. cbv iota.
    change ((500 <=? 401) && (rc <? maxRetries)%nat) with false. cbv iota.
    assert (Hmsg : "HTTP error! status: " ++ pretty 401 = "HTTP error! status: 401")
      by (vm_compute; reflexivity).
    rewrite Hmsg. unfold throw. simpl.
    eexists. split; [reflexivity|]. split; [lia|]. split; [lia|].
    intros Hlt. apply Nat.ltb_ge in Hrc. lia.
Qed.

(** C8, as the code has it. A 401 is retried while [retryCount < 2]: each
    such 401 clears the cached credential and repeats the call, so a call
    that keeps being answered 401 is sent three times, the credential is
    invalidated twice, and the third 401 surfaces as
    "HTTP error! status: 401". *)
Theorem C8_unauthorized_is_retried_twice url opts w :
  https_url url ->
  (forall rc w0, (rc < 2)%nat ->
     exists w1, attempt net url opts rc w0 = (Ok Retry, w1)
                /\ credential_cleared w1
                /\ invalidations w1 = (invalidations w0 + 1)%nat)
  /\ exists w3,
      makeAuthenticatedRequest net url opts 0 w
      = (Throw (Error "HTTP error! status: 401"), w3)
      /\ api_requests w3 = (api_requests w + 3)%nat
      /\ invalidations w3 = (invalidations w + 2)%nat.
Proof.
  intros Hurl. split.
  - intros rc w0 Hrc.
    destruct (attempt_401 url opts rc w0 Hurl) as (w1 & E & _ & Hi & Hcl).
    pose proof Hrc as Hrc'. apply Nat.ltb_lt in Hrc'. rewrite Hrc' in E, Hi.
    exists w1. auto.
  - destruct (attempt_401 url opts 0 w Hurl) as (w1 & E1 & Ha1 & Hi1 & _).
    destruct (attempt_401 url opts 1 w1 Hurl) as (w2 & E2 & Ha2 & Hi2 & _).
    destruct (attempt_401 url opts 2 w2 Hurl) as (w3 & E3 & Ha3 & Hi3 & _).
    simpl in E1, E2, E3, Hi1, Hi2, Hi3.
    exists w3. split; [|lia].
    unfold makeAuthenticatedRequest. simpl attempts.
    rewrite (bind_ok _ _ _ _ _ E1). rewrite (bind_ok _ _ _ _ _ E2).
    now rewrite (bind_throw _ _ _ _ _ E3).
Qed.

End WithNetwork.

Lemma issues_tokens_scenario : issues_tokens Scenario.net_always_401.
Proof.
  intros h req Hsite. unfold Scenario.net_always_401. rewrite Hsite.
  eexists _, _, _. repeat split; discriminate.
Qed.

Lemma answers_401_scenario : answers_401 Scenario.net_always_401.
Proof.
  intros h req Hsite. unfold Scenario.net_always_401. rewrite Hsite.
  eexists. split; reflexivity.
Qed.

Lemma C8_witness :
  exists w3,
    makeAuthenticatedRequest Scenario.net_always_401 "/chat-usage/task-1" no_options 0
                             Scenario.fresh
    = (Throw (Error "HTTP error! status: 401"), w3)
    /\ api_requests w3 = 3%nat /\ invalidations w3 = 2%nat.
Proof.
  destruct (C8_unauthorized_is_retried_twice Scenario.net_always_401
              issues_tokens_scenario answers_401_scenario
              "/chat-usage/task-1" no_options Scenario.fresh eq_refl)
    as (_ & w3 & E & Ha & Hi).
  exists w3. split; [exact E|]. split; [exact Ha | exact Hi].
Defined.

(** C8 as stated fails: after the first retry a further 401 does not surface
    as an error; the credential is cleared a second time, the call is sent a
    third time, and here it succeeds. *)
Lemma C8_counterexample_second_retry :
  fst (makeAuthenticatedRequest Scenario.net_401_401_200 "/chat-usage/task-1" no_options 0
                                Scenario.fresh)
  = Ok (Resp 200 (Some (JObj [("has_subscription", JBool true)])) "")
  /\ api_requests (snd (makeAuthenticatedRequest Scenario.net_401_401_200
                          "/chat-usage/task-1" no_options 0 Scenario.fresh)) = 3%nat
  /\ invalidations (snd (makeAuthenticatedRequest Scenario.net_401_401_200
                           "/chat-usage/task-1" no_options 0 Scenario.fresh)) = 2%nat.
Proof. vm_compute. repeat split. Qed.




End UnauthorizedFacts.

(* ===================================================================== *)
(*  File submission, fallback and pre-completed jobs: facts              *)
(* ===================================================================== *)

Module SubmitFacts.
Import Obs Api MonadFacts AuthFacts RequestFacts.

Lemma post_ret {A} (P : result A -> world -> Prop) a :
  (forall w, P (Ok a) w) -> post P (ret a).
Proof. intros H w. apply H. Qed.

Lemma post_throw {A} (P : result A -> world -> Prop) e :
  (forall w, P (Throw e) w) -> post P (throw e).
Proof. intros H w. apply H. Qed.

Lemma post_bind_any {A B} (P : result B -> world -> Prop) (m : M A) (k : A -> M B) :
  (forall a, post P (k a)) ->
  (forall e w, P (Throw e) w) ->
  (forall w, P Diverged w) ->
  post P (bind m k).
Proof.
  intros Hk He Hd w. unfold bind.
  destruct (m w) as [[a|e|] w1]; simpl; [apply Hk | apply He | apply Hd].
Qed.

Lemma post_bind {A B} (Mid : result A -> world -> Prop) (P : result B -> world -> Prop)
      (m : M A) (k : A -> M B) :
  post Mid m ->
  (forall a w1, Mid (Ok a) w1 -> P (fst (k a w1)) (snd (k a w1))) ->
  (forall e w1, Mid (Throw e) w1 -> P (Throw e) w1) ->
  (forall w1, Mid Diverged w1 -> P Diverged w1) ->
  post P (bind m k).
Proof.
  intros Hm Hk He Hd w. unfold bind. specialize (Hm w).
  destruct (m w) as [[a|e|] w1]; simpl in *; [now apply Hk | now apply He | now apply Hd].
Qed.

Lemma post_bind_value {A B} (Q : result A -> Prop) (P : result B -> world -> Prop)
      (m : M A) (k : A -> M B) :
  yields Q m ->
  (forall a, Q (Ok a) -> post P (k a)) ->
  (forall e w, P (Throw e) w) ->
  (forall w, P Diverged w) ->
  post P (bind m k).
Proof.
  intros Hm Hk He Hd w. unfold bind. specialize (Hm w).
  destruct (m w) as [[a|e|] w1]; simpl in *; [now apply Hk | apply He | apply Hd].
Qed.

Lemma post_bind_ret {A B} (P : result B -> world -> Prop) (a : A) (k : A -> M B) :
  post P (k a) -> post P (bind (ret a) k).
Proof. intros H w. apply H. Qed.

Lemma post_bind_throw {A B} (P : result B -> world -> Prop) e (k : A -> M B) :
  (forall w, P (Throw e) w) -> post P (bind (throw e) k).
Proof. intros H w. apply H. Qed.

Lemma post_try_catch {A} (P : result A -> world -> Prop) (m : M A) h :
  post (fun r w => match r with Throw _ => True | _ => P r w end) m ->
  (forall e, post P (h e)) ->
  post P (try_catch m h).
Proof.
  intros Hm Hh w. unfold try_catch. specialize (Hm w).
  destruct (m w) as [[a|e|] w1]; simpl in *; [exact Hm | apply Hh | exact Hm].
Qed.

Lemma startsWith_direct s : Str.startsWith "direct_" ("direct_" ++ s) = true.
Proof. unfold Str.startsWith. simpl. now destruct s. Qed.

Section WithNetwork.
Variable net : list request -> request -> fetch_outcome.

Lemma resolve_subscription_bool b w :
  resolve_subscription net (JBool b) w = (Ok (JBool b), w).
Proof. reflexivity. Qed.

(** The direct-analyze fallback either rejects or hands back a
    pre-completed job whose result it has stored. *)
Lemma directAnalyze_precompleted fileUri fileName :
  post (fun r w => forall job, r = Ok job -> precompleted job w)
       (directAnalyze net fileUri fileName).
Proof.
  unfold directAnalyze.
  apply post_bind_any; [intros _ | intros ? ? ?; discriminate | intros ? ?; discriminate].
  apply post_bind_any; [intros analyzeResponse | intros ? ? ?; discriminate | intros ? ?; discriminate].
  destruct (negb (ok analyzeResponse)); [apply post_throw; intros ? ?; discriminate|].
  apply post_bind_any; [intros analyzeData | intros ? ? ?; discriminate | intros ? ?; discriminate].
  intros w job. unfold bind, gets, modify, ret. simpl.
  intros [= <-].
  exists ("direct_" ++ pretty (now w)), analyzeData.
  split; [reflexivity|]. split; [apply startsWith_direct|].
  apply lookup_insert_eq.
Qed.

Lemma upload_and_report_result fileUri urlResponse :
  post (fun r w => forall job, r = Ok job -> remote_task net job)
       (upload_and_report net fileUri urlResponse).
Proof.
  unfold upload_and_report.
  do 6 (apply post_bind_any;
        [intros ? | intros ? ? ?; discriminate | intros ? ?; discriminate]).
  match goal with |- context [negb (ok ?r)] => destruct (negb (ok r)) end;
    [apply post_throw; intros ? ?; discriminate|].
  eapply post_bind_value;
    [apply (makeAuthenticatedRequest_answered net "/report")
    | intros reportResponse Hans
    | intros ? ? ?; discriminate | intros ? ?; discriminate].
  specialize (Hans reportResponse eq_refl).
  destruct (negb (ok reportResponse)) eqn:Hok;
    [apply post_throw; intros ? ?; discriminate|].
  apply negb_false_iff in Hok.
  unfold read_json. destruct (json reportResponse) as [reportData|] eqn:Hj.
  2:{ apply post_bind_throw. intros w job. discriminate. }
  apply post_bind_ret.
  unfold field. destruct (get_field reportData "task_id") as [task_id|] eqn:Ht.
  2:{ apply post_bind_throw. intros w job. discriminate. }
  apply post_bind_ret. apply post_ret.
  intros w job [= <-].
  now exists reportResponse, reportData, task_id.
Qed.

(** Whatever [submitEnhancedFileJob] resolves with is a pre-completed job
    or the remote side's task. *)
Lemma submitEnhancedFileJob_result fileUri fileName sub :
  post (fun r w => forall job, r = Ok job -> precompleted job w \/ remote_task net job)
       (submitEnhancedFileJob net fileUri fileName sub).
Proof.
  unfold submitEnhancedFileJob.
  apply post_bind_any; [intros _ | intros ? ? ?; discriminate | intros ? ?; discriminate].
  apply (post_bind (fun r w => match r with
                               | Ok (FellBack job) => precompleted job w
                               | _ => True
                               end)).
  { apply post_try_catch.
    - apply post_bind_any; [intros r | exact (fun _ _ => I) | exact (fun _ => I)].
      apply post_ret. exact (fun _ => I).
    - intros _.
      apply (post_bind (fun r w => forall job, r = Ok job -> precompleted job w)).
      + apply directAnalyze_precompleted.
      + intros job w1 Hjob. simpl. now apply Hjob.
      + exact (fun _ _ _ => I).
      + exact (fun _ _ => I). }
  2:{ intros ? ? ? ?; discriminate. }
  2:{ intros ? ? ?; discriminate. }
  intros step1 w1 Hstep.
  destruct step1 as [urlResponse | job0].
  2:{ simpl. intros job [= <-]. now left. }
  destruct (negb (ok urlResponse)).
  - intros job Hjob. left.
    now apply (directAnalyze_precompleted fileUri fileName w1).
  - intros job Hjob. right.
    now apply (upload_and_report_result fileUri urlResponse w1).
Qed.

(** C5, as the code has it. Only the first Upload Gateway step has a
    fallback: when the upload-target request rejects (network error, non-2xx
    status), [submitEnhancedFileJob] continues as the direct inline
    submission. A failure of the transfer step (the PUT rejects, or comes
    back non-2xx as it does for an expired target) makes the submission
    reject with that error; no inline submission is attempted. *)
Theorem C5_fallback_covers_target_request_only fileUri fileName (b : bool) w :
  (forall e w1,
      makeAuthenticatedRequest net "/generate-upload-url"
                               (upload_url_request fileName) 0 w = (Throw e, w1) ->
      submitEnhancedFileJob net fileUri fileName (JBool b) w
      = directAnalyze net fileUri fileName w1)
  /\ (forall r w1 urlData signed_url fileBlob err,
         makeAuthenticatedRequest net "/generate-upload-url"
                                  (upload_url_request fileName) 0 w = (Ok r, w1) ->
         json r = Some urlData ->
         get_field urlData "signed_url" = Some signed_url ->
         net (history w1) (local_file_request fileUri) = Fetched fileBlob ->
         transfer_error (net (history w1 ++ [local_file_request fileUri])%list
                             (upload_request signed_url)) = Some err ->
         submitEnhancedFileJob net fileUri fileName (JBool b) w
         = (Throw err,
            push_request (upload_request signed_url)
                         (push_request (local_file_request fileUri) w1))).
Proof.
  split.
  - intros e w1 Hurl. unfold submitEnhancedFileJob.
    rewrite (bind_ok _ _ _ _ _ (resolve_subscription_bool b w)). cbv beta.
    unfold try_catch, bind at 1 2. rewrite Hurl.
    unfold bind. destruct (directAnalyze net fileUri fileName w1) as [[job|e'|] w2];
      reflexivity.
  - intros r w1 urlData signed_url fileBlob err Hurl Hjson Hsu Hfile Hup.
    pose proof (makeAuthenticatedRequest_ok net _ _ _ _ _ _ Hurl) as Hok.
    unfold submitEnhancedFileJob.
    rewrite (bind_ok _ _ _ _ _ (resolve_subscription_bool b w)). cbv beta.
    unfold try_catch, bind at 1 2. rewrite Hurl.
    unfold ret at 1. cbv beta iota. rewrite Hok. cbn [negb].
    unfold upload_and_report, read_json. rewrite Hjson.
    unfold bind at 1. unfold ret at 1. cbv beta iota.
    unfold field.
    assert (Hfields : forall k, exists v, get_field urlData k = Some v).
    { intros k. destruct urlData; try discriminate; simpl; eauto. }
    rewrite Hsu.
    destruct (Hfields "file_name") as (fn & ->).
    destruct (Hfields "bucket") as (bk & ->).
    unfold bind at 1. unfold ret at 1. cbv beta iota.
    unfold bind at 1. unfold ret at 1. cbv beta iota.
    unfold bind at 1. unfold ret at 1. cbv beta iota.
    unfold bind at 1. unfold fetch at 1. rewrite Hfile. cbv beta iota.
    unfold bind at 1. unfold fetch at 1.
    change (history (push_request (local_file_request fileUri) w1))
      with (history w1 ++ [local_file_request fileUri])%list.
    unfold transfer_error in Hup.
    destruct (net (history w1 ++ [local_file_request fileUri])%list (upload_request signed_url))
      as [up|e].
    + destruct (ok up); [discriminate|]. injection Hup as <-. reflexivity.
    + injection Hup as <-. reflexivity.
Qed.

(** A resolved [submitAndMonitor] has just put its [monitorJob] closure on
    a 3000 ms timer. *)
Lemma submitAndMonitor_schedules linkOrFileUri cbs sub isFile fileName :
  post (fun r w1 => forall jobId, r = Ok jobId ->
          exists ts es hs,
            timers w1 = (ts ++ [PollClosure jobId hs cbs])%list
            /\ effects w1 = (es ++ [ESetTimeout 3000])%list)
       (submitAndMonitor net linkOrFileUri cbs sub isFile fileName).
Proof.
  unfold submitAndMonitor.
  apply post_bind_any;
    [intros hs | intros ? ? ?; discriminate | intros ? ?; discriminate].
  apply post_bind_any;
    [intros jobResponse | intros ? ? ?; discriminate | intros ? ?; discriminate].
  unfold field. destruct (get_field jobResponse "job_id") as [jobId|].
  2:{ apply post_bind_throw. intros ? ?. discriminate. }
  apply post_bind_ret.
  intros w jobId' [= <-].
  exists (timers w), (effects w), hs. split; reflexivity.
Qed.

Lemma getEnhancedJobStatus_direct id r hs w :
  Str.startsWith "direct_" id = true ->
  directResults w !! id = Some r ->
  truthy r = true ->
  getEnhancedJobStatus net (JStr id) hs w
  = (Ok (JobStatus (JStr "completed") r JNull JNull "Analysis complete!"), w).
Proof.
  intros Hid Hr Ht. unfold getEnhancedJobStatus. rewrite Hid.
  unfold bind, gets. rewrite Hr. simpl. now rewrite Ht.
Qed.

Lemma calls_of_push_call c w :
  calls_of (push_effect (ECall c) w) = (calls_of w ++ [c])%list.
Proof. unfold calls_of. simpl. now rewrite omap_app. Qed.

Lemma timeouts_of_push_call c w :
  timeouts_of (push_effect (ECall c) w) = timeouts_of w.
Proof. unfold timeouts_of. simpl. rewrite omap_app. simpl. apply app_nil_r. Qed.

(** C4, as the code has it. A resolved file submission hands back a
    pre-completed job (id prefixed "direct_", result stored) or the remote
    side's task id, as answered to [/report]. [submitAndMonitor] puts the
    monitor on a 3000 ms timer
    for every id, pre-completed ones included. When the monitor runs for a
    "direct_" id whose stored result is truthy, the status query answers
    "completed" with that result without any request, onUpdate and then
    onComplete are called, and no further timer is set. *)
Theorem C4_precompleted_job_completes_on_first_query id r hs cbs w :
  Str.startsWith "direct_" id = true ->
  directResults w !! id = Some r ->
  truthy r = true ->
  (forall fileUri fileName sub w0 job w1,
      submitEnhancedFileJob net fileUri fileName sub w0 = (Ok job, w1) ->
      precompleted job w1 \/ remote_task net job)
  /\ (forall linkOrFileUri cbs0 sub isFile fileName w0 jobId w1,
         submitAndMonitor net linkOrFileUri cbs0 sub isFile fileName w0 = (Ok jobId, w1) ->
         exists ts es hs0,
           timers w1 = (ts ++ [PollClosure jobId hs0 cbs0])%list
           /\ effects w1 = (es ++ [ESetTimeout 3000])%list)
  /\ getEnhancedJobStatus net (JStr id) hs w
     = (Ok (JobStatus (JStr "completed") r JNull JNull "Analysis complete!"), w)
  /\ exists w1,
      monitorJob net (PollClosure (JStr id) hs cbs) w = (Ok tt, w1)
      /\ history w1 = history w
      /\ timers w1 = timers w
      /\ timeouts_of w1 = timeouts_of w
      /\ calls_of w1
         = (calls_of w
            ++ fired (has_onUpdate cbs)
                     (OnUpdate (JStr id)
                        (status_obj (JobStatus (JStr "completed") r JNull JNull
                                               "Analysis complete!")))
            ++ fired (has_onComplete cbs) (OnComplete (JStr id) r JNull))%list.
Proof.
  intros Hid Hr Ht.
  split.
  { intros fileUri fileName sub w0 job w1 E.
    pose proof (submitEnhancedFileJob_result fileUri fileName sub w0) as H.
    rewrite E in H. now apply H. }
  split.
  { intros linkOrFileUri cbs0 sub isFile fileName w0 jobId w1 E.
    pose proof (submitAndMonitor_schedules linkOrFileUri cbs0 sub isFile fileName w0) as H.
    rewrite E in H. now apply H. }
  pose proof (getEnhancedJobStatus_direct id r hs w Hid Hr Ht) as Est.
  split; [exact Est|].
  unfold monitorJob, try_catch. cbn [pc_jobId pc_hasSubscription pc_callbacks].
  rewrite (bind_ok _ _ _ _ _ Est). cbv beta.
  cbn [st_status st_result st_transcription_data strict_eq String.eqb].
  destruct cbs as [u c e]. cbn [has_onUpdate has_onComplete has_onError].
  destruct u, c; unfold fired, invoke, bind, emit, modify, ret; cbn -[status_obj];
    eexists; (split; [reflexivity|]);
    rewrite ?calls_of_push_call, ?timeouts_of_push_call, ?app_nil_r, <- ?app_assoc;
    repeat split; reflexivity.
Qed.

End WithNetwork.

Lemma C4_witness :
  exists w1,
    monitorJob Scenario.net_target_down
               (PollClosure (JStr "direct_1700000007000") (JBool true) Scenario.all_callbacks)
               (snd (submitEnhancedFileJob Scenario.net_target_down "file:///a.mp3"
                       (JStr "a.mp3") (JBool true) Scenario.fresh))
    = (Ok tt, w1)
    /\ timers w1 = []
    /\ timeouts_of w1 = [].
Proof.
  destruct (C4_precompleted_job_completes_on_first_query Scenario.net_target_down
              "direct_1700000007000"
              (JObj [("overall_prediction", JStr "AI"); ("aggregate_confidence", JNum 1)])
              (JBool true) Scenario.all_callbacks
              (snd (submitEnhancedFileJob Scenario.net_target_down "file:///a.mp3"
                      (JStr "a.mp3") (JBool true) Scenario.fresh)))
    as (_ & _ & _ & w1 & E & _ & Ht & Hto & _);
    try (vm_compute; reflexivity).
  exists w1. split; [exact E|]. split.
  - rewrite Ht. vm_compute. reflexivity.
  - rewrite Hto. vm_compute. reflexivity.
Defined.

(** C4 as stated fails: scenario A (the upload-target request keeps failing,
    the inline submission answers) ends [submitAndMonitor] with the
    pre-completed id, but with the monitor waiting on a 3000 ms timer and no
    callback called yet; COMPLETED is reported only when that timer fires. *)
Lemma C4_counterexample_monitor_timer_is_started :
  fst (submitAndMonitor Scenario.net_target_down (JStr "file:///a.mp3")
                        Scenario.all_callbacks (JBool true) true (JStr "a.mp3")
                        Scenario.fresh)
  = Ok (JStr "direct_1700000007000")
  /\ timeouts_of (snd (submitAndMonitor Scenario.net_target_down (JStr "file:///a.mp3")
                         Scenario.all_callbacks (JBool true) true (JStr "a.mp3")
                         Scenario.fresh))
     = [3000]
  /\ timers (snd (submitAndMonitor Scenario.net_target_down (JStr "file:///a.mp3")
                    Scenario.all_callbacks (JBool true) true (JStr "a.mp3")
                    Scenario.fresh))
     = [PollClosure (JStr "direct_1700000007000") (JBool true) Scenario.all_callbacks]
  /\ calls_of (snd (submitAndMonitor Scenario.net_target_down (JStr "file:///a.mp3")
                      Scenario.all_callbacks (JBool true) true (JStr "a.mp3")
                      Scenario.fresh))
     = []
  /\ calls_of (snd (fire_timer Scenario.net_target_down
                      (snd (submitAndMonitor Scenario.net_target_down (JStr "file:///a.mp3")
                              Scenario.all_callbacks (JBool true) true (JStr "a.mp3")
                              Scenario.fresh))))
     = [ OnUpdate (JStr "direct_1700000007000")
           (JObj [ ("status", JStr "completed");
                   ("result", JObj [("overall_prediction", JStr "AI");
                                    ("aggregate_confidence", JNum 1)]);
                   ("transcription_data", JNull);
                   ("error", JNull);
                   ("progress_message", JStr "Analysis complete!") ]);
         OnComplete (JStr "direct_1700000007000")
           (JObj [("overall_prediction", JStr "AI"); ("aggregate_confidence", JNum 1)])
           JNull ].
Proof. vm_compute. repeat split. Qed.


Lemma C5_witness :
  fst (submitEnhancedFileJob Scenario.net_target_down "file:///a.mp3" (JStr "a.mp3")
                             (JBool true) Scenario.fresh)
  = Ok (JObj [("job_id", JStr "direct_1700000007000")])
  /\ fst (submitEnhancedFileJob Scenario.net_target_expired "file:///a.mp3" (JStr "a.mp3")
                                (JBool true) Scenario.fresh)
     = Throw (Error "File upload failed: 403").
Proof.
  split.
  - destruct (C5_fallback_covers_target_request_only Scenario.net_target_down
                "file:///a.mp3" (JStr "a.mp3") true Scenario.fresh) as [Hfall _].
    destruct (makeAuthenticatedRequest Scenario.net_target_down "/generate-upload-url"
                (upload_url_request (JStr "a.mp3")) 0 Scenario.fresh)
      as [[r|e|] w1] eqn:E; vm_compute in E; try discriminate.
    rewrite (Hfall e w1 eq_refl). injection E as <- <-.
    vm_compute. reflexivity.
  - destruct (C5_fallback_covers_target_request_only Scenario.net_target_expired
                "file:///a.mp3" (JStr "a.mp3") true Scenario.fresh) as [_ Hfatal].
    destruct (makeAuthenticatedRequest Scenario.net_target_expired "/generate-upload-url"
                (upload_url_request (JStr "a.mp3")) 0 Scenario.fresh)
      as [[r|e|] w1] eqn:E; vm_compute in E; try discriminate.
    injection E as <- <-.
    erewrite Hfatal; [reflexivity | reflexivity | reflexivity | reflexivity
                      | reflexivity | vm_compute; reflexivity].
Defined.

(** C5 as stated fails: with the upload target issued but the write to it
    refused (403, expired signed URL), the submission rejects with
    "File upload failed: 403"; the analyze endpoint is never called and no
    direct result is stored. *)
Lemma C5_counterexample_transfer_failure_is_fatal :
  fst (submitEnhancedFileJob Scenario.net_target_expired "file:///a.mp3" (JStr "a.mp3")
                             (JBool true) Scenario.fresh)
  = Throw (Error "File upload failed: 403")
  /\ map r_url (history (snd (submitEnhancedFileJob Scenario.net_target_expired
                                "file:///a.mp3" (JStr "a.mp3") (JBool true) Scenario.fresh)))
     = [ "https://your-api-domain.com/auth/token";
         "https://your-api-domain.com/generate-upload-url";
         "file:///a.mp3";
         "https://storage.example/upload/a.mp3" ]
  /\ directResults (snd (submitEnhancedFileJob Scenario.net_target_expired
                           "file:///a.mp3" (JStr "a.mp3") (JBool true) Scenario.fresh))
     = ∅.
Proof. vm_compute. repeat split. Qed.


End SubmitFacts.

(* ===================================================================== *)
(*  Interval polling: facts                                              *)
(* ===================================================================== *)

Module PollingFacts.
Import Obs Polling.

Lemma terminal_calls_app cs c :
  terminal_calls (cs ++ [c]) = (terminal_calls cs + if is_terminal c then 1 else 0)%nat.
Proof.
  unfold terminal_calls. rewrite List.filter_app, length_app. simpl.
  destruct (is_terminal c); reflexivity.
Qed.

Lemma calls_invoke present c s :
  calls (invoke present c s) = (calls s ++ fired present c)%list.
Proof. destruct present; simpl; [reflexivity | now rewrite app_nil_r]. Qed.

Lemma stopPolling_calls jobId s : calls (stopPolling jobId s) = calls s.
Proof. unfold stopPolling. now destruct (pollingIntervals s !! jobId). Qed.

Lemma stopPolling_inflight jobId s : inflight (stopPolling jobId s) = inflight s.
Proof. unfold stopPolling. now destruct (pollingIntervals s !! jobId). Qed.

(** After [stopPolling(jobId)] no interval is registered for the job, and the
    one that was registered is cleared. *)
Lemma stopPolling_unregisters jobId s :
  pollingIntervals (stopPolling jobId s) !! jobId = None
  /\ forall h, pollingIntervals s !! jobId = Some h -> live (stopPolling jobId s) !! h = None.
Proof.
  unfold stopPolling. destruct (pollingIntervals s !! jobId) as [h|] eqn:E; simpl.
  - split; [apply lookup_delete_eq|]. intros h' [= <-]. apply lookup_delete_eq.
  - split; [exact E | discriminate].
Qed.

(** A cleared interval does not fire. *)
Lemma tick_cleared h s : live s !! h = None -> tick h s = s.
Proof. intros H. unfold tick. now rewrite H. Qed.

(** What the rest of the interval callback does when the status request
    rejected: stop polling, then report the error. *)
Lemma resume_rejected jobId cbs e s :
  resume (jobId, cbs) (Rejected e) s
  = invoke (has_onError cbs) (OnError (JStr jobId) (JStr (e_message e)))
           (stopPolling jobId s).
Proof. reflexivity. Qed.

Section OneJob.
Variable jobId : string.
Variable cbs : callbacks.

Lemma started_inv : one_job_inv jobId cbs (started jobId cbs).
Proof.
  exists true. unfold started, startPollingWithCaching, stopPolling, init. simpl.
  rewrite lookup_empty. simpl. rewrite !insert_empty.
  repeat split; [constructor | simpl; lia].
Qed.

Lemma stopPolling_inv s :
  one_job_inv jobId cbs s ->
  exists s1, stopPolling jobId s = s1
             /\ pollingIntervals s1 = ∅ /\ live s1 = ∅
             /\ inflight s1 = inflight s /\ calls s1 = calls s
             /\ next_handle s1 = next_handle s.
Proof.
  intros (alive & Hp & Hl & _ & _). eexists. split; [reflexivity|].
  unfold stopPolling. rewrite Hp. destruct alive.
  - rewrite lookup_singleton_eq. simpl. rewrite Hl, !delete_singleton_eq. auto.
  - rewrite lookup_empty. rewrite Hp, Hl. auto.
Qed.

Lemma stopPolling_other_inv other s :
  one_job_inv jobId cbs s -> one_job_inv jobId cbs (stopPolling other s).
Proof.
  intros Hinv. destruct (String.eqb_spec other jobId) as [->|Hne].
  - destruct (stopPolling_inv s Hinv) as (s1 & -> & Hp & Hl & Hi & Hc & _).
    destruct Hinv as (alive & _ & _ & Hall & Hpot).
    exists false. rewrite Hp, Hl, Hi, Hc. repeat split; auto. lia.
  - destruct Hinv as (alive & Hp & Hl & Hall & Hpot).
    unfold stopPolling. rewrite Hp.
    assert (E : (if alive then {[jobId := 0%nat]} else ∅ : gmap string nat) !! other = None).
    { destruct alive; [now apply lookup_singleton_ne | apply lookup_empty]. }
    rewrite E. exists alive. rewrite Hp. auto.
Qed.

(** After a terminal call nothing is live or suspended. *)
Lemma terminal_inv present c s :
  is_terminal c = true ->
  one_job_inv jobId cbs s ->
  inflight s = [] ->
  terminal_calls (calls s) = 0%nat ->
  one_job_inv jobId cbs (invoke present c (stopPolling jobId s)).
Proof.
  intros Hc Hinv Hin Ht.
  destruct (stopPolling_inv s Hinv) as (s1 & -> & Hp & Hl & Hi & Hcs & _).
  exists false. destruct present; simpl; rewrite ?Hp, ?Hl, ?Hi, ?Hcs, ?Hin.
  - repeat split; auto. rewrite terminal_calls_app, Hc, Ht. simpl. lia.
  - repeat split; auto. rewrite Ht. simpl. lia.
Qed.

(** One step of a schedule without overlap keeps the invariant. *)
Lemma step_inv s e :
  one_job_inv jobId cbs s ->
  is_start e = false ->
  match e with Tick _ => inflight s = [] | _ => True end ->
  one_job_inv jobId cbs (step s e).
Proof.
  intros Hinv Hns Hov. destruct e as [j c | h | i o | j]; simpl in *.
  - discriminate.
  - destruct Hinv as (alive & Hp & Hl & Hall & Hpot).
    unfold tick. rewrite Hl.
    destruct alive.
    + destruct (decide (h = 0%nat)) as [->|Hne].
      * rewrite lookup_singleton_eq. exists true. simpl. rewrite Hov in *. simpl in *.
        repeat split; auto.
      * rewrite lookup_singleton_ne by auto. exists true. auto.
    + rewrite lookup_empty. exists false. auto.
  - unfold settle. destruct (inflight s !! i) as [closure|] eqn:Ei; [|exact Hinv].
    pose proof Hinv as (alive & Hp & Hl & Hall & Hpot).
    assert (Hone : inflight s = [closure] /\ i = 0%nat
                   /\ terminal_calls (calls s) = 0%nat /\ closure = (jobId, cbs)).
    { destruct (inflight s) as [|c0 [|c1 rest]] eqn:Ein.
      - discriminate.
      - destruct i; [|destruct i; discriminate]. simpl in Ei. injection Ei as ->.
        inversion Hall; subst. repeat split; auto. simpl in Hpot. lia.
      - simpl in Hpot. lia. }
    destruct Hone as (Hin & -> & Ht & ->). rewrite Hin. simpl delete.
    set (s0 := Service (pollingIntervals s) (live s) (next_handle s) [] (calls s)).
    assert (Hinv0 : one_job_inv jobId cbs s0).
    { exists alive. subst s0. simpl. repeat split; auto. lia. }
    unfold resume.
    destruct o as [status | err].
    + destruct (get_field status "status") as [st|].
      * destruct (strict_eq st (JStr "completed")).
        -- now apply terminal_inv.
        -- destruct (strict_eq st (JStr "failed")); [now apply terminal_inv | exact Hinv0].
      * now apply terminal_inv.
    + now apply terminal_inv.
  - now apply stopPolling_other_inv.
Qed.

Lemma run_inv es s :
  one_job_inv jobId cbs s ->
  forallb (fun e => negb (is_start e)) es = true ->
  no_overlap s es = true ->
  one_job_inv jobId cbs (run s es).
Proof.
  revert s. induction es as [|e es IH]; intros s Hinv Hns Hov; [exact Hinv|].
  simpl in *. apply andb_true_iff in Hns as [Hns1 Hns2].
  apply andb_true_iff in Hov as [Hov1 Hov2].
  apply IH; auto. apply step_inv; auto.
  - now apply negb_true_iff.
  - destruct e; auto. now destruct (inflight s).
Qed.

(** Interval polling of one job, with no tick firing while a status
    request is pending: at most one of onComplete/onError is ever called,
    and after it no interval is live and no callback is suspended. *)
Lemma no_overlap_at_most_one_terminal es :
  forallb (fun e => negb (is_start e)) es = true ->
  no_overlap (started jobId cbs) es = true ->
  (terminal_calls (calls (run (started jobId cbs) es)) <= 1)%nat
  /\ (terminal_calls (calls (run (started jobId cbs) es)) = 1%nat ->
      live (run (started jobId cbs) es) = ∅
      /\ inflight (run (started jobId cbs) es) = []).
Proof.
  intros Hns Hov.
  destruct (run_inv es _ started_inv Hns Hov) as (alive & _ & Hl & _ & Hpot).
  split; [lia|]. intros H1. rewrite H1 in Hpot.
  destruct alive; [simpl in Hpot; lia|].
  split; [exact Hl|]. destruct (inflight (run (started jobId cbs) es)); [reflexivity|].
  simpl in Hpot. lia.
Qed.

End OneJob.

End PollingFacts.

(* ===================================================================== *)
(*  The monitor of submitAndMonitor: facts                               *)
(* ===================================================================== *)

Module MonitorFacts.
Import Obs Api MonadFacts AuthFacts RequestFacts.

Lemma quiet_refl w : quiet w w.
Proof. repeat split. Qed.

Lemma quiet_trans a b c : quiet a b -> quiet b c -> quiet a c.
Proof. intros (H1 & H2 & H3) (H4 & H5 & H6). repeat split; congruence. Qed.

Create HintDb quiet.

Ltac quiet_tac :=
  repeat first
    [ apply (keeps_ret _ quiet_refl)
    | apply (keeps_throw _ quiet_refl)
    | apply (keeps_gets _ quiet_refl)
    | apply (keeps_field _ quiet_refl)
    | apply (keeps_read_json _ quiet_refl)
    | solve [eauto with quiet]
    | apply (keeps_bind _ quiet_trans); [|intros ?]
    | apply (keeps_try_catch _ quiet_trans); [|intros ?]
    | match goal with
      | |- keeps _ (if ?c then _ else _) => destruct c
      | |- keeps _ (match ?x with _ => _ end) => destruct x
      end ].

Lemma quiet_push_effect e w :
  effect_call e = None -> effect_timeout e = None -> quiet w (push_effect e w).
Proof.
  intros Hc Ht. unfold quiet, calls_of, timeouts_of. simpl.
  rewrite !omap_app. simpl. rewrite Hc, Ht, !app_nil_r. auto.
Qed.

Lemma quiet_set_secure f : keeps quiet (modify (set_secure f)).
Proof. intros w. repeat split. Qed.

Lemma quiet_set_authToken t : keeps quiet (modify (set_authToken t)).
Proof. intros w. repeat split. Qed.

Lemma quiet_set_directResults f : keeps quiet (modify (set_directResults f)).
Proof. intros w. repeat split. Qed.

Lemma quiet_sleep ms : keeps quiet (sleep ms).
Proof. intros w. apply (quiet_push_effect (ESleep ms) w); reflexivity. Qed.

Lemma quiet_clear : keeps quiet (emit EClearAuth).
Proof. intros w. apply (quiet_push_effect EClearAuth w); reflexivity. Qed.

Lemma quiet_secure_get k : keeps quiet (secure_get k).
Proof. apply (keeps_gets _ quiet_refl). Qed.

Lemma quiet_secure_set k v : keeps quiet (secure_set k v).
Proof.
  unfold secure_set. destruct v; try apply (keeps_throw _ quiet_refl).
  apply quiet_set_secure.
Qed.

Lemma quiet_secure_delete k : keeps quiet (secure_delete k).
Proof. apply quiet_set_secure. Qed.

#[local] Hint Resolve quiet_set_secure quiet_set_authToken quiet_set_directResults
  quiet_sleep quiet_clear quiet_secure_get quiet_secure_set quiet_secure_delete : quiet.

Section WithNetwork.
Variable net : list request -> request -> fetch_outcome.

Lemma quiet_fetch req : keeps quiet (fetch net req).
Proof. intros w. unfold fetch. destruct (net (history w) req); repeat split. Qed.
#[local] Hint Resolve quiet_fetch : quiet.

Lemma quiet_getConsistentUserId kc : keeps quiet (getConsistentUserId kc).
Proof. unfold getConsistentUserId, rejecting. quiet_tac. Qed.
#[local] Hint Resolve quiet_getConsistentUserId : quiet.

Lemma quiet_generateNewToken : keeps quiet (generateNewToken net).
Proof. unfold generateNewToken. quiet_tac. Qed.
#[local] Hint Resolve quiet_generateNewToken : quiet.

Lemma quiet_validate_stored t : keeps quiet (validate_stored net t).
Proof. unfold validate_stored. quiet_tac. Qed.
#[local] Hint Resolve quiet_validate_stored : quiet.

Lemma quiet_getAuthToken : keeps quiet (getAuthToken net).
Proof. unfold getAuthToken. quiet_tac. Qed.
#[local] Hint Resolve quiet_getAuthToken : quiet.

Lemma quiet_clearAuthToken : keeps quiet clearAuthToken.
Proof. unfold clearAuthToken. quiet_tac. Qed.
#[local] Hint Resolve quiet_clearAuthToken : quiet.

Lemma quiet_attempt url opts rc : keeps quiet (attempt net url opts rc).
Proof. unfold attempt. quiet_tac. Qed.
#[local] Hint Resolve quiet_attempt : quiet.

Lemma quiet_attempts fuel url opts rc : keeps quiet (attempts net fuel url opts rc).
Proof.
  revert rc. induction fuel as [|fuel IH]; intros rc; simpl.
  - intros w. apply quiet_refl.
  - quiet_tac.
Qed.

Lemma quiet_makeAuthenticatedRequest url opts rc :
  keeps quiet (makeAuthenticatedRequest net url opts rc).
Proof. apply quiet_attempts. Qed.
#[local] Hint Resolve quiet_makeAuthenticatedRequest : quiet.

Lemma quiet_checkSubscriptionStatus : keeps quiet (checkSubscriptionStatus net).
Proof. unfold checkSubscriptionStatus. quiet_tac. Qed.
#[local] Hint Resolve quiet_checkSubscriptionStatus : quiet.

Lemma quiet_resolve_subscription s : keeps quiet (resolve_subscription net s).
Proof. unfold resolve_subscription. quiet_tac. Qed.
#[local] Hint Resolve quiet_resolve_subscription : quiet.

(** A status query calls no subscriber and touches no monitor timer. *)
Lemma quiet_getEnhancedJobStatus jobId s :
  keeps quiet (getEnhancedJobStatus net jobId s).
Proof. unfold getEnhancedJobStatus. quiet_tac. Qed.

#[local] Hint Resolve returns_makeAuthenticatedRequest returns_fetch : returns.

Lemma returns_checkSubscriptionStatus : returns (checkSubscriptionStatus net).
Proof. unfold checkSubscriptionStatus. returns_tac. Qed.
#[local] Hint Resolve returns_checkSubscriptionStatus : returns.

Lemma returns_resolve_subscription s : returns (resolve_subscription net s).
Proof. unfold resolve_subscription. returns_tac. Qed.
#[local] Hint Resolve returns_resolve_subscription : returns.

Lemma returns_getEnhancedJobStatus jobId s :
  returns (getEnhancedJobStatus net jobId s).
Proof. unfold getEnhancedJobStatus. returns_tac. Qed.

Lemma terminal_calls_cat a b :
  Polling.terminal_calls (a ++ b)
  = (Polling.terminal_calls a + Polling.terminal_calls b)%nat.
Proof. unfold Polling.terminal_calls. now rewrite List.filter_app, length_app. Qed.

Lemma invoke_spec present c w :
  exists w1, invoke present c w = (Ok tt, w1)
             /\ calls_of w1 = (calls_of w ++ fired present c)%list
             /\ timers w1 = timers w.
Proof.
  destruct present; simpl; eexists; (split; [reflexivity|]); split; try reflexivity.
  - unfold calls_of. simpl. now rewrite omap_app.
  - now rewrite app_nil_r.
Qed.

Lemma setTimeout_spec c ms w :
  exists w1, setTimeout_monitorJob c ms w = (Ok tt, w1)
             /\ calls_of w1 = calls_of w
             /\ timers w1 = (timers w ++ [c])%list.
Proof.
  eexists. split; [reflexivity|]. split; [|reflexivity].
  unfold calls_of. simpl. rewrite omap_app. simpl. apply app_nil_r.
Qed.

Lemma fired_update_not_terminal present j st :
  Polling.terminal_calls (fired present (OnUpdate j st)) = 0%nat.
Proof. now destruct present. Qed.

Lemma fired_terminal present before t :
  Polling.is_terminal t = true ->
  Polling.terminal_calls before = 0%nat ->
  Polling.terminal_calls (before ++ fired present t) = 0%nat
  \/ ends_terminal (before ++ fired present t).
Proof.
  intros Ht Hb. destruct present; simpl.
  - right. now exists before, t.
  - left. now rewrite app_nil_r.
Qed.

(** One run of [monitorJob]: it resolves; it either re-arms its timer (or
    stops silently) without a terminal call, or ends with the one terminal
    call and sets no timer. *)
Lemma monitorJob_step c w :
  exists w1 made,
    monitorJob net c w = (Ok tt, w1)
    /\ calls_of w1 = (calls_of w ++ made)%list
    /\ ((Polling.terminal_calls made = 0%nat
         /\ (timers w1 = (timers w ++ [c])%list \/ timers w1 = timers w))
        \/ (timers w1 = timers w /\ ends_terminal made)).
Proof.
  unfold monitorJob, try_catch.
  pose proof (returns_getEnhancedJobStatus (pc_jobId c) (pc_hasSubscription c) w) as Hret.
  pose proof (quiet_getEnhancedJobStatus (pc_jobId c) (pc_hasSubscription c) w)
    as (Ht & Hc & _).
  unfold bind at 1.
  destruct (getEnhancedJobStatus net (pc_jobId c) (pc_hasSubscription c) w)
    as [[st|e|] w0]; simpl in Hret, Ht, Hc; [| |contradiction].
  - set (upd := OnUpdate (pc_jobId c) (status_obj st)).
    destruct (invoke_spec (has_onUpdate (pc_callbacks c)) upd w0) as (w1 & E1 & Hc1 & Ht1).
    rewrite (bind_ok _ _ _ _ _ E1). cbv beta.
    destruct (strict_eq (st_status st) (JStr "completed")).
    { match goal with
      | |- context [invoke ?p ?t w1] =>
          destruct (invoke_spec p t w1) as (w2 & E2 & Hc2 & Ht2);
          exists w2, (fired (has_onUpdate (pc_callbacks c)) upd ++ fired p t)%list;
          rewrite E2; split; [reflexivity|];
          split; [rewrite Hc2, Hc1, Hc; now rewrite app_assoc|];
          destruct (fired_terminal p (fired (has_onUpdate (pc_callbacks c)) upd) t
                      eq_refl (fired_update_not_terminal _ _ _)) as [H0 | H1];
          [left; split; [exact H0 | right; congruence]
          | right; split; [congruence | exact H1]]
      end. }
    destruct (strict_eq (st_status st) (JStr "failed")).
    { match goal with
      | |- context [invoke ?p ?t w1] =>
          destruct (invoke_spec p t w1) as (w2 & E2 & Hc2 & Ht2);
          exists w2, (fired (has_onUpdate (pc_callbacks c)) upd ++ fired p t)%list;
          rewrite E2; split; [reflexivity|];
          split; [rewrite Hc2, Hc1, Hc; now rewrite app_assoc|];
          destruct (fired_terminal p (fired (has_onUpdate (pc_callbacks c)) upd) t
                      eq_refl (fired_update_not_terminal _ _ _)) as [H0 | H1];
          [left; split; [exact H0 | right; congruence]
          | right; split; [congruence | exact H1]]
      end. }
    destruct (setTimeout_spec c 2000 w1) as (w2 & E2 & Hc2 & Ht2).
    exists w2, (fired (has_onUpdate (pc_callbacks c)) upd). rewrite E2.
    split; [reflexivity|]. split; [congruence|].
    left. split; [apply fired_update_not_terminal|]. left. congruence.
  - match goal with
    | |- context [invoke ?p ?t w0] =>
        destruct (invoke_spec p t w0) as (w2 & E2 & Hc2 & Ht2);
        exists w2, (fired p t); rewrite E2; split; [reflexivity|];
        split; [congruence|];
        destruct (fired_terminal p [] t eq_refl eq_refl) as [H0 | H1];
        [left; split; [exact H0 | right; congruence]
        | right; split; [congruence | exact H1]]
    end.
Qed.

(** What a rejected status query makes of the monitor: onError with the
    error's message, and no timer for another query. *)
Lemma monitorJob_rejected c e w w0 :
  getEnhancedJobStatus net (pc_jobId c) (pc_hasSubscription c) w = (Throw e, w0) ->
  exists w1,
    monitorJob net c w = (Ok tt, w1)
    /\ calls_of w1
       = (calls_of w ++ fired (has_onError (pc_callbacks c))
                              (OnError (pc_jobId c) (JStr (e_message e))))%list
    /\ timers w1 = timers w
    /\ timeouts_of w1 = timeouts_of w.
Proof.
  intros E.
  pose proof (quiet_getEnhancedJobStatus (pc_jobId c) (pc_hasSubscription c) w)
    as (Ht & Hc & Hto).
  rewrite E in Ht, Hc, Hto. simpl in Ht, Hc, Hto.
  unfold monitorJob, try_catch. rewrite (bind_throw _ _ _ _ _ E).
  destruct (has_onError (pc_callbacks c)); simpl.
  - eexists. split; [reflexivity|]. unfold calls_of, timeouts_of in *. simpl.
    rewrite !omap_app, Hc, Hto. simpl. rewrite app_nil_r. auto.
  - eexists. split; [reflexivity|]. rewrite app_nil_r. auto.
Qed.

Lemma fire_timer_chain c made w :
  chain_state c made w ->
  exists w1 made1,
    fire_timer net w = (Ok tt, w1)
    /\ calls_of w1 = (calls_of w ++ made1)%list
    /\ chain_state c (made ++ made1) w1.
Proof.
  intros Hst. unfold fire_timer.
  destruct (timers w) as [|c0 rest] eqn:Etimers.
  - exists w, []. rewrite !app_nil_r. split; [reflexivity|]. split; [reflexivity|].
    destruct Hst as [[H0 _] | [_ H1]]; [left | right]; rewrite Etimers; auto.
  - destruct Hst as [[H0 [Hc | Hc]] | [Hc _]]; rewrite Etimers in Hc; try discriminate.
    injection Hc as -> ->.
    destruct (monitorJob_step c (set_timers (fun _ => []) w))
      as (w1 & made1 & E & Hcalls & Hcase).
    exists w1, made1. split; [exact E|]. split; [exact Hcalls|].
    simpl in Hcase.
    destruct Hcase as [[Hm [Ht | Ht]] | [Ht (before & t & -> & Hterm & Hb)]].
    + left. split; [rewrite terminal_calls_cat; lia | left; exact Ht].
    + left. split; [rewrite terminal_calls_cat; lia | right; exact Ht].
    + right. split; [exact Ht|].
      exists (made ++ before)%list, t. rewrite app_assoc. split; [reflexivity|].
      split; [exact Hterm|]. rewrite terminal_calls_cat. lia.
Qed.

(** The monitor chain of one [submitAndMonitor] call, however many timer
    firings are run: every run resolves, at most one of
    onComplete/onError is called, and it is the last call, after which no
    timer is left. *)
Lemma monitor_chain_at_most_one_terminal c w n :
  timers w = [c] ->
  exists w1 made,
    run_timers net n w = (Ok tt, w1)
    /\ calls_of w1 = (calls_of w ++ made)%list
    /\ chain_state c made w1.
Proof.
  intros Ht.
  assert (Hgen : forall n w0 made0,
             chain_state c made0 w0 ->
             exists w1 made1,
               run_timers net n w0 = (Ok tt, w1)
               /\ calls_of w1 = (calls_of w0 ++ made1)%list
               /\ chain_state c (made0 ++ made1) w1).
  { clear. induction n as [|n IH]; intros w0 made0 Hst.
    - exists w0, []. rewrite !app_nil_r. auto.
    - destruct (fire_timer_chain c made0 w0 Hst) as (w1 & made1 & E1 & Hc1 & Hst1).
      destruct (IH w1 _ Hst1) as (w2 & made2 & E2 & Hc2 & Hst2).
      exists w2, (made1 ++ made2)%list. simpl.
      rewrite (bind_ok _ _ _ _ _ E1). split; [exact E2|].
      split; [rewrite Hc2, Hc1; now rewrite app_assoc|].
      now rewrite app_assoc. }
  destruct (Hgen n w []) as (w1 & made & E & Hc & Hst).
  { left. auto. }
  exists w1, made. auto.
Qed.

End WithNetwork.


End MonitorFacts.

(* ===================================================================== *)
(*  The job monitor: poll errors and terminal callbacks                  *)
(* ===================================================================== *)

Module JobMonitorFacts.
Import Obs Api Polling PollingFacts MonitorFacts.

Lemma invoke_keeps_timers present c s :
  pollingIntervals (Polling.invoke present c s) = pollingIntervals s
  /\ live (Polling.invoke present c s) = live s.
Proof. now destruct present. Qed.

(** C3, as the code has it. The first rejected status request ends the
    monitoring of a job. In the interval poller the callback stops the
    interval (no later tick fires for it) and calls onError with the error's
    message; in [monitorJob] the catch calls onError and returns without
    setting the next timer. Neither counts consecutive errors. *)
Theorem C3_first_poll_error_ends_monitoring :
  (forall s i jobId cbs e h,
      inflight s !! i = Some (jobId, cbs) ->
      pollingIntervals s !! jobId = Some h ->
      calls (settle i (Rejected e) s)
      = (calls s ++ fired (has_onError cbs) (OnError (JStr jobId) (JStr (e_message e))))%list
      /\ pollingIntervals (settle i (Rejected e) s) !! jobId = None
      /\ live (settle i (Rejected e) s) !! h = None
      /\ tick h (settle i (Rejected e) s) = settle i (Rejected e) s)
  /\ (forall net c e w w0,
         getEnhancedJobStatus net (pc_jobId c) (pc_hasSubscription c) w = (Throw e, w0) ->
         exists w1,
           monitorJob net c w = (Ok tt, w1)
           /\ calls_of w1
              = (calls_of w ++ fired (has_onError (pc_callbacks c))
                                     (OnError (pc_jobId c) (JStr (e_message e))))%list
           /\ timers w1 = timers w
           /\ timeouts_of w1 = timeouts_of w).
Proof.
  split.
  - intros s i jobId cbs e h Hin Hreg.
    unfold settle. rewrite Hin. rewrite resume_rejected.
    set (s0 := Service (pollingIntervals s) (live s) (next_handle s)
                       (delete i (inflight s)) (calls s)).
    destruct (invoke_keeps_timers (has_onError cbs)
                (OnError (JStr jobId) (JStr (e_message e))) (stopPolling jobId s0))
      as [Hp Hl].
    destruct (stopPolling_unregisters jobId s0) as [Hnone Hdead].
    assert (Hlive : live (Polling.invoke (has_onError cbs)
                            (OnError (JStr jobId) (JStr (e_message e)))
                            (stopPolling jobId s0)) !! h = None).
    { rewrite Hl. now apply Hdead. }
    split; [now rewrite calls_invoke, stopPolling_calls|].
    split; [now rewrite Hp|].
    split; [exact Hlive | now apply tick_cleared].
  - intros net c e w w0. apply monitorJob_rejected.
Qed.

Lemma C3_witness :
  calls (settle 0 (Rejected (TypeError "Network request failed"))
                (run init [Start "job-1" Scenario.all_callbacks; Tick 0]))
  = [OnError (JStr "job-1") (JStr "Network request failed")]
  /\ (exists w1,
         monitorJob (fun _ _ => Scenario.network_failure)
                    (PollClosure (JStr "task-1") (JBool false) Scenario.all_callbacks)
                    Scenario.fresh = (Ok tt, w1)
         /\ timers w1 = []).
Proof.
  destruct C3_first_poll_error_ends_monitoring as [Hpoll Hmon].
  split.
  - destruct (Hpoll (run init [Start "job-1" Scenario.all_callbacks; Tick 0]) 0%nat
                    "job-1" Scenario.all_callbacks (TypeError "Network request failed") 0%nat)
      as (Hcalls & _); [reflexivity | reflexivity |].
    exact Hcalls.
  - destruct (getEnhancedJobStatus (fun _ _ => Scenario.network_failure)
                (JStr "task-1") (JBool false) Scenario.fresh) as [[st|e|] w0] eqn:E;
      vm_compute in E; try discriminate.
    destruct (Hmon (fun _ _ => Scenario.network_failure)
                   (PollClosure (JStr "task-1") (JBool false) Scenario.all_callbacks)
                   e Scenario.fresh w0 E) as (w1 & Em & _ & Ht & _).
    exists w1. split; [exact Em | exact Ht].
Defined.

(** C3 as stated fails: one rejected status request ends the polling. The
    error is reported at once, the interval is cleared, and a later tick or
    a completed status has no effect. *)
Lemma C3_counterexample_single_error_stops_polling :
  calls (run init [Start "job-1" Scenario.all_callbacks; Tick 0;
                   Settle 0 (Rejected (TypeError "Network request failed"))])
  = [OnError (JStr "job-1") (JStr "Network request failed")]
  /\ live (run init [Start "job-1" Scenario.all_callbacks; Tick 0;
                     Settle 0 (Rejected (TypeError "Network request failed"))])
     = ∅
  /\ calls (run init [Start "job-1" Scenario.all_callbacks; Tick 0;
                      Settle 0 (Rejected (TypeError "Network request failed"));
                      Tick 0; Settle 0 Scenario.completed_status])
     = [OnError (JStr "job-1") (JStr "Network request failed")].
Proof. vm_compute. repeat split. Qed.

(** In [monitorJob] the retries happen inside the one status query: with
    the network down the request is sent four times (backoff 1 s, 2 s, 4 s),
    then the query rejects, onError is called and no timer is set. *)
Example monitor_gives_up_within_one_query :
  api_requests (snd (monitorJob Scenario.net_api_down
                       (PollClosure (JStr "task-1") (JBool false) Scenario.all_callbacks)
                       Scenario.fresh))
  = 4%nat
  /\ calls_of (snd (monitorJob Scenario.net_api_down
                      (PollClosure (JStr "task-1") (JBool false) Scenario.all_callbacks)
                      Scenario.fresh))
     = [ OnError (JStr "task-1")
           (JStr "Network connection failed. Please check your internet connection and try again.") ]
  /\ timers (snd (monitorJob Scenario.net_api_down
                    (PollClosure (JStr "task-1") (JBool false) Scenario.all_callbacks)
                    Scenario.fresh))
     = [].
Proof. vm_compute. repeat split. Qed.

(** C1, at the input where the interval poller breaks it. Two interval ticks
    fire before the first status request has settled (the request takes
    longer than the 2 s interval); both requests then answer "completed".
    [stopPolling] in the first callback clears the interval but not the
    second callback, which is already suspended at its await: onComplete is
    called twice for the one job. *)
Theorem C1_overlapping_ticks_call_onComplete_twice :
  calls (run init [Start "job-1" Scenario.all_callbacks; Tick 0; Tick 0;
                   Settle 0 Scenario.completed_status;
                   Settle 0 Scenario.completed_status])
  = [ OnComplete (JStr "job-1") (JObj [("overall_prediction", JStr "AI")]) JNull;
      OnComplete (JStr "job-1") (JObj [("overall_prediction", JStr "AI")]) JNull ]
  /\ terminal_calls
       (calls (run init [Start "job-1" Scenario.all_callbacks; Tick 0; Tick 0;
                         Settle 0 Scenario.completed_status;
                         Settle 0 Scenario.completed_status]))
     = 2%nat
  /\ no_overlap init [Start "job-1" Scenario.all_callbacks; Tick 0; Tick 0;
                      Settle 0 Scenario.completed_status;
                      Settle 0 Scenario.completed_status]
     = false.
Proof. vm_compute. repeat split. Qed.

(** The same two answers, each settling before the next tick: one call. *)
Example sequential_ticks_call_onComplete_once :
  calls (run init [Start "job-1" Scenario.all_callbacks; Tick 0;
                   Settle 0 Scenario.pending_status; Tick 0;
                   Settle 0 Scenario.completed_status; Tick 0;
                   Settle 0 Scenario.completed_status])
  = [ OnComplete (JStr "job-1") (JObj [("overall_prediction", JStr "AI")]) JNull ].
Proof. vm_compute. reflexivity. Qed.

(** The push channel keeps no record of a job having ended:
    [handleJobNotification] calls the registered onComplete for every
    COMPLETED delivery, and leaves the registration in place. *)
Example push_delivery_is_not_deduplicated :
  let registry := Push.registerJobCallbacks "job-1" Scenario.all_callbacks ∅ in
  let data := JObj [("job_id", JStr "job-1"); ("type", JStr "job_update");
                    ("status", JStr "COMPLETED")] in
  length (Push.handleJobNotification registry data (JStr "Done") (JStr "Ready") false
          ++ Push.handleJobNotification registry data (JStr "Done") (JStr "Ready") false)%list
  = 2%nat.
Proof. vm_compute. reflexivity. Qed.

End JobMonitorFacts.

(* ===================================================================== *)
(*  Tier shaping: facts                                                  *)
(* ===================================================================== *)

Module ShaperFacts.
Import Shaper Results.

(** C7. Shaped for FREE, a result keeps its whole chunk timeline and its
    overall label and confidence, has a null transcript whatever the input
    carried, and is marked limited; shaped for PRO it is passed through
    unchanged and marked not limited. On the client, the result screen of a
    free user renders the Pro placeholder instead of the transcription,
    whatever transcription data is at hand, and the full timeline for both
    tiers. *)
Theorem C7_free_tier_withholds_transcript (r : AnalysisResult) :
  d_chunks (shape r FREE) = chunks r
  /\ d_overallLabel (shape r FREE) = overallLabel r
  /\ d_aggregateConfidence (shape r FREE) = aggregateConfidence r
  /\ d_transcript (shape r FREE) = None
  /\ isLimited (shape r FREE) = true
  /\ as_result (shape r PRO) = r
  /\ isLimited (shape r PRO) = false
  /\ (forall combined aiDetectionTimeline chartData,
         renderTranscription false false combined aiDetectionTimeline chartData
         = ProPlaceholder)
  /\ (forall hasSubscription processedTimelineData,
         displayData hasSubscription processedTimelineData = processedTimelineData).
Proof.
  destruct r as [j l a c t]. repeat split.
Qed.

(** A result that carries a transcript loses it for FREE and keeps it for
    PRO. *)
Example shape_sample :
  let r := Result "task-1" AI (9 # 10)
                  [Chunk 0 0 AI (9 # 10); Chunk 1 3 HUMAN (6 # 10)]
                  (Some (Transcript "hello world" [] "greeting" "neutral")) in
  d_transcript (shape r FREE) = None
  /\ d_chunks (shape r FREE) = chunks r
  /\ d_transcript (shape r PRO) = transcript r.
Proof. repeat split. Qed.

End ShaperFacts.

(* ===================================================================== *)
(*  Result cache and its callers: round trips and frame                  *)
(* ===================================================================== *)

Module CacheFacts.
Import ResultCache ResultCacheFacts Home.

Lemma truthy_json_roundtrip v : truthy (json_roundtrip v) = truthy v.
Proof. destruct v; reflexivity. Qed.

Lemma typeof_object_json_roundtrip v : typeof_object (json_roundtrip v) = typeof_object v.
Proof. destruct v; reflexivity. Qed.

Lemma truthy_defined v : truthy v = true -> v <> JUndefined.
Proof. intros H ->. discriminate. Qed.

(** Serializing the cache record keeps its six properties when neither the
    job id nor the result is undefined. *)
Lemma json_roundtrip_cacheData jobId result td now :
  jobId <> JUndefined -> result <> JUndefined ->
  json_roundtrip (cacheData jobId result (default_null td) now)
  = cacheData (json_roundtrip jobId) (json_roundtrip result)
              (json_roundtrip (default_null td)) now.
Proof.
  intros Hj Hr. unfold cacheData.
  destruct jobId; try congruence; destruct result; try congruence;
    destruct td; reflexivity.
Qed.

Lemma cacheResult_valid jobId result td now (st : gmap string text) :
  truthy result = true -> typeof_object result = true ->
  cacheResult jobId result td now st
  = <[COMPLETED_RESULTS_KEY :=
        TJson (json_roundtrip (cacheData jobId result (default_null td) now))]>
      (clearAllCache st).
Proof. intros Ht Ho. unfold cacheResult. now rewrite Ht, Ho. Qed.

Lemma clearAllCache_insert v (st : gmap string text) :
  clearAllCache (<[COMPLETED_RESULTS_KEY := v]> (clearAllCache st)) = clearAllCache st.
Proof.
  unfold clearAllCache. rewrite delete_insert_eq. apply delete_delete_eq.
Qed.

Lemma clearAllCache_other k (st : gmap string text) :
  k <> COMPLETED_RESULTS_KEY -> clearAllCache st !! k = st !! k.
Proof. intros Hk. unfold clearAllCache. now apply lookup_delete_ne. Qed.

Lemma getCachedResult_cases (st : gmap string text) :
  (exists cd, st !! COMPLETED_RESULTS_KEY = Some (TJson cd)
              /\ invalid_structure cd = Some false
              /\ getCachedResult st = (Some cd, st))
  \/ (getCachedResult st = (None, st)
      /\ (st !! COMPLETED_RESULTS_KEY = None \/ st !! COMPLETED_RESULTS_KEY = Some TEmpty))
  \/ getCachedResult st = (None, clearAllCache st).
Proof.
  unfold getCachedResult.
  destruct (st !! COMPLETED_RESULTS_KEY) as [[| |cd]|] eqn:E; auto.
  destruct (invalid_structure cd) as [[|]|] eqn:V; eauto 6.
Qed.

Lemma getUnshown_store (st : gmap string text) :
  snd (getUnshownCompletedResults st) = snd (getCachedResult st).
Proof.
  unfold getUnshownCompletedResults.
  destruct (getCachedResult_cases st) as [(cd & _ & V & ->) | [[-> _] | ->]];
    try reflexivity.
  rewrite (valid_result cd V). now destruct (negb _).
Qed.

(** X1. A result stored under a truthy job id is read back: after
    [cacheResult(jobId, result, td)] with a non-null object as result,
    [getUnshownCompletedResults] returns exactly one entry, carrying the job
    id, the result, the transcription data (null when none was passed) and
    the time of caching, each as JSON serialization leaves it, whatever the
    cache held before; the read leaves the store as it is. *)
Theorem cached_result_is_read_back jobId result td now (st : gmap string text) :
  truthy jobId = true -> truthy result = true -> typeof_object result = true ->
  getUnshownCompletedResults (cacheResult jobId result td now st)
  = ([Unshown (json_roundtrip jobId) (json_roundtrip result)
              (json_roundtrip (default_null td)) (JNum now)],
     cacheResult jobId result td now st).
Proof.
  intros Hj Ht Ho.
  rewrite (cacheResult_valid _ _ _ _ _ Ht Ho).
  rewrite json_roundtrip_cacheData by now apply truthy_defined.
  set (cd := cacheData _ _ _ _).
  assert (V : invalid_structure cd = Some false).
  { unfold invalid_structure, cd. simpl.
    now rewrite !truthy_json_roundtrip, typeof_object_json_roundtrip, Hj, Ht, Ho. }
  unfold getUnshownCompletedResults.
  rewrite (getCachedResult_valid _ cd (lookup_insert_eq _ _ _) V).
  rewrite (valid_result cd V). reflexivity.
Qed.

Lemma cached_result_is_read_back_witness :
  fst (getUnshownCompletedResults
         (cacheResult (JStr "job-7") (JObj [("overall_prediction", JStr "Human")])
                      JUndefined 1700000000500 sample_store))
  = [Unshown (JStr "job-7") (JObj [("overall_prediction", JStr "Human")]) JNull
             (JNum 1700000000500)].
Proof.
  rewrite (cached_result_is_read_back (JStr "job-7")
             (JObj [("overall_prediction", JStr "Human")]) JUndefined 1700000000500
             sample_store); reflexivity.
Defined.

(** X2. A result cached under a falsy job id (undefined, null, the empty
    string, 0) is written but never delivered: the first read finds the
    structure invalid, returns nothing and clears the slot. *)
Theorem result_cached_without_job_id_is_dropped jobId result td now
        (st : gmap string text) :
  truthy jobId = false -> truthy result = true -> typeof_object result = true ->
  cacheResult jobId result td now st !! COMPLETED_RESULTS_KEY <> None
  /\ getUnshownCompletedResults (cacheResult jobId result td now st)
     = ([], clearAllCache st).
Proof.
  intros Hj Ht Ho.
  rewrite (cacheResult_valid _ _ _ _ _ Ht Ho).
  split; [now rewrite lookup_insert_eq|].
  set (cd := json_roundtrip _).
  assert (V : invalid_structure cd = Some true).
  { unfold cd, cacheData.
    destruct jobId as [| |[|]|n|s| |]; try discriminate;
      destruct result; try discriminate; destruct td; simpl in *;
      unfold invalid_structure; simpl; try reflexivity; now rewrite Hj. }
  unfold getUnshownCompletedResults, getCachedResult.
  rewrite lookup_insert_eq, V. now rewrite clearAllCache_insert.
Qed.

Lemma result_cached_without_job_id_is_dropped_witness :
  getUnshownCompletedResults
    (cacheResult JUndefined (JObj [("overall_prediction", JStr "AI")]) JNull
                 1700000000000 ∅)
  = ([], clearAllCache ∅).
Proof.
  apply (result_cached_without_job_id_is_dropped JUndefined
           (JObj [("overall_prediction", JStr "AI")]) JNull 1700000000000 ∅);
    reflexivity.
Defined.

(** X3. The cache service works on its one storage key only: no operation
    of it changes what AsyncStorage holds under any other key. *)
Theorem cache_touches_only_its_key k jobId result td now (st : gmap string text) :
  k <> COMPLETED_RESULTS_KEY ->
  cacheResult jobId result td now st !! k = st !! k
  /\ snd (getCachedResult st) !! k = st !! k
  /\ snd (getUnshownCompletedResults st) !! k = st !! k
  /\ markResultAsShown jobId st !! k = st !! k
  /\ snd (getCacheStats st) !! k = st !! k
  /\ initialize st !! k = st !! k.
Proof.
  intros Hk.
  assert (G : snd (getCachedResult st) !! k = st !! k).
  { destruct (getCachedResult_cases st) as [(cd & _ & _ & ->) | [[-> _] | ->]];
      simpl; auto using clearAllCache_other. }
  repeat split.
  - unfold cacheResult.
    destruct (_ || _); [|rewrite lookup_insert_ne by congruence];
      now apply clearAllCache_other.
  - exact G.
  - now rewrite getUnshown_store.
  - unfold markResultAsShown.
    destruct (getCachedResult st) as [[cd|] st1]; simpl in G; [|exact G].
    destruct (strict_eq _ _); [rewrite clearAllCache_other by exact Hk|]; exact G.
  - unfold getCacheStats.
    destruct (getCachedResult st) as [[cd|] st1]; exact G.
  - now apply clearAllCache_other.
Qed.

Lemma cache_touches_only_its_key_witness :
  cacheResult (JStr "job-1") (JObj []) JNull 1700000000000
              {[ "pending_jobs" := TJson (JObj []) ]} !! "pending_jobs"
  = Some (TJson (JObj [])).
Proof.
  rewrite (proj1 (cache_touches_only_its_key "pending_jobs" (JStr "job-1") (JObj []) JNull
                    1700000000000 {[ "pending_jobs" := TJson (JObj []) ]}
                    ltac:(discriminate))).
  reflexivity.
Defined.

(** X4. [getCachedResult] heals the slot. Whatever the slot holds, after one
    call it holds either nothing (or the empty text) or an entry of valid
    structure: a second call returns what the first returned and changes
    nothing. An entry is returned only when it is valid, and then the store
    is left as it was. *)
Theorem getCachedResult_heals (st : gmap string text) :
  getCachedResult (snd (getCachedResult st)) = getCachedResult st
  /\ match fst (getCachedResult st) with
     | Some cd =>
         snd (getCachedResult st) = st
         /\ st !! COMPLETED_RESULTS_KEY = Some (TJson cd)
         /\ invalid_structure cd = Some false
     | None =>
         snd (getCachedResult st) !! COMPLETED_RESULTS_KEY = None
         \/ snd (getCachedResult st) !! COMPLETED_RESULTS_KEY = Some TEmpty
     end.
Proof.
  destruct (getCachedResult_cases st) as [(cd & Hst & V & E) | [[E H] | E]];
    rewrite E; simpl.
  - split; [exact E|]. auto.
  - split; [exact E|]. exact H.
  - split; [apply getCachedResult_cleared|]. left. apply clearAllCache_empty.
Qed.

(** X5. The statistics agree with what a read delivers: [getCacheStats]
    reports as unshown exactly the number of entries that
    [getUnshownCompletedResults] returns, never more than one cached entry,
    one cache key per cached entry; and both calls leave the store as
    [getCachedResult] leaves it (the second structure test of
    [getUnshownCompletedResults] never clears anything). *)
Theorem stats_agree_with_unshown (st : gmap string text) :
  unshownCount (fst (getCacheStats st))
  = Z.of_nat (length (fst (getUnshownCompletedResults st)))
  /\ totalCached (fst (getCacheStats st))
     = Z.of_nat (length (cacheKeys (fst (getCacheStats st))))
  /\ 0 <= unshownCount (fst (getCacheStats st)) <= totalCached (fst (getCacheStats st))
  /\ totalCached (fst (getCacheStats st)) <= 1
  /\ oldCount (fst (getCacheStats st)) = 0
  /\ snd (getCacheStats st) = snd (getCachedResult st)
  /\ snd (getUnshownCompletedResults st) = snd (getCachedResult st).
Proof.
  unfold getCacheStats, getUnshownCompletedResults.
  destruct (getCachedResult_cases st) as [(cd & _ & V & ->) | [[-> _] | ->]];
    simpl; try (repeat split; reflexivity || lia).
  rewrite (valid_result cd V).
  destruct (truthy (assoc_field cd "shown")); simpl; repeat split; reflexivity || lia.
Qed.

(** X6. Marking another job as shown leaves the cached entry where it is:
    [markResultAsShown] clears the slot only for an argument strictly equal
    to the stored job id (a number does not match the string of its
    digits). *)
Theorem marking_another_job_keeps_entry (st : gmap string text) cd j other :
  st !! COMPLETED_RESULTS_KEY = Some (TJson cd) ->
  invalid_structure cd = Some false ->
  get_field cd "jobId" = Some (JStr j) ->
  other <> JStr j ->
  markResultAsShown other st = st
  /\ fst (getCachedResult (markResultAsShown other st)) = Some cd.
Proof.
  intros Hst V Hj Hne.
  assert (E : markResultAsShown other st = st).
  { unfold markResultAsShown.
    rewrite (getCachedResult_valid st cd Hst V).
    unfold assoc_field. rewrite Hj.
    destruct other; simpl; try reflexivity.
    destruct (String.eqb_spec j s); [congruence|reflexivity]. }
  rewrite E. split; [reflexivity|].
  now rewrite (getCachedResult_valid st cd Hst V).
Qed.

Lemma marking_another_job_keeps_entry_witness :
  markResultAsShown (JStr "job-2") sample_store = sample_store
  /\ markResultAsShown (JNum 1) sample_store = sample_store.
Proof.
  split.
  - apply (marking_another_job_keeps_entry sample_store
             (cacheData (JStr "job-1") (JObj [("overall_prediction", JStr "AI")]) JNull
                        1700000000000) "job-1" (JStr "job-2"));
      try reflexivity; discriminate.
  - apply (marking_another_job_keeps_entry sample_store
             (cacheData (JStr "job-1") (JObj [("overall_prediction", JStr "AI")]) JNull
                        1700000000000) "job-1" (JNum 1));
      try reflexivity; discriminate.
Defined.

Lemma mark_valid (st : gmap string text) cd j :
  st !! COMPLETED_RESULTS_KEY = Some (TJson cd) ->
  invalid_structure cd = Some false ->
  get_field cd "jobId" = Some (JStr j) ->
  markResultAsShown (JStr j) st = clearAllCache st.
Proof.
  intros Hst V Hj. unfold markResultAsShown.
  rewrite (getCachedResult_valid st cd Hst V).
  unfold assoc_field. rewrite Hj. simpl. now rewrite String.eqb_refl.
Qed.

Lemma unshown_valid (st : gmap string text) cd :
  st !! COMPLETED_RESULTS_KEY = Some (TJson cd) ->
  invalid_structure cd = Some false ->
  truthy (assoc_field cd "shown") = false ->
  getUnshownCompletedResults st = ([entry_of cd], st).
Proof.
  intros Hst V Hs. unfold getUnshownCompletedResults.
  rewrite (getCachedResult_valid st cd Hst V), Hs. simpl.
  now rewrite (valid_result cd V).
Qed.

Lemma unshown_cleared (st : gmap string text) :
  getUnshownCompletedResults (clearAllCache st) = ([], clearAllCache st).
Proof. unfold getUnshownCompletedResults. now rewrite getCachedResult_cleared. Qed.

Lemma getCompletedJobs_cleared (st : gmap string text) :
  getCompletedJobs (clearAllCache st) = ([], clearAllCache st).
Proof. unfold getCompletedJobs. now rewrite unshown_cleared. Qed.

(** X7. [jobCompletionUtils.getCompletedJobs] consumes what it returns:
    with a valid unshown entry under a string job id in the cache it
    returns that one job and clears the slot, so that calling it again
    returns nothing. *)
Theorem getCompletedJobs_consumes (st : gmap string text) cd j :
  st !! COMPLETED_RESULTS_KEY = Some (TJson cd) ->
  invalid_structure cd = Some false ->
  get_field cd "jobId" = Some (JStr j) ->
  truthy (assoc_field cd "shown") = false ->
  getCompletedJobs st
  = ([CompletedJob (assoc_field cd "result") (JStr j) (assoc_field cd "cachedAt")],
     clearAllCache st)
  /\ getCompletedJobs (snd (getCompletedJobs st)) = ([], clearAllCache st).
Proof.
  intros Hst V Hj Hs.
  assert (E : getCompletedJobs st
              = ([CompletedJob (assoc_field cd "result") (JStr j) (assoc_field cd "cachedAt")],
                 clearAllCache st)).
  { unfold getCompletedJobs. rewrite (unshown_valid st cd Hst V Hs).
    unfold mark_all, entry_of. simpl.
    assert (Ej : assoc_field cd "jobId" = JStr j) by (unfold assoc_field; now rewrite Hj).
    rewrite Ej. now rewrite (mark_valid st cd j Hst V Hj). }
  rewrite E. split; [reflexivity|]. apply getCompletedJobs_cleared.
Qed.

Lemma getCompletedJobs_consumes_witness :
  fst (getCompletedJobs sample_store)
  = [CompletedJob (JObj [("overall_prediction", JStr "AI")]) (JStr "job-1")
                  (JNum 1700000000000)]
  /\ fst (getCompletedJobs (snd (getCompletedJobs sample_store))) = [].
Proof.
  destruct (getCompletedJobs_consumes sample_store
              (cacheData (JStr "job-1") (JObj [("overall_prediction", JStr "AI")]) JNull
                         1700000000000) "job-1") as [H1 H2];
    try reflexivity.
  rewrite H2, H1. split; reflexivity.
Defined.

(** X8. [checkCompletedJobs] of the home screen shows a cached result once.
    With a valid unshown entry under a string job id in the cache, it calls
    [handleProcessingComplete] exactly once, with the cached result and
    transcription data (the second look through
    [jobCompletionUtils.getCompletedJobs] finds the slot already cleared),
    and clears the slot, so that a later check shows nothing. Its guard on
    results already displayed reads the state captured on mount, which is
    empty: the check reads and clears the cache whatever is on screen. *)
Theorem cached_result_is_shown_once (st : gmap string text) cd j :
  st !! COMPLETED_RESULTS_KEY = Some (TJson cd) ->
  invalid_structure cd = Some false ->
  get_field cd "jobId" = Some (JStr j) ->
  truthy (assoc_field cd "shown") = false ->
  checkCompletedJobs st
  = ([Shown (assoc_field cd "result") (default_null (assoc_field cd "transcriptionData"))],
     clearAllCache st)
  /\ checkCompletedJobs (snd (checkCompletedJobs st)) = ([], clearAllCache st).
Proof.
  intros Hst V Hj Hs.
  assert (Ej : assoc_field cd "jobId" = JStr j) by (unfold assoc_field; now rewrite Hj).
  assert (E : checkCompletedJobs st
              = ([Shown (assoc_field cd "result")
                        (default_null (assoc_field cd "transcriptionData"))],
                 clearAllCache st)).
  { unfold checkCompletedJobs. simpl truthy. cbv iota.
    rewrite (unshown_valid st cd Hst V Hs).
    unfold mark_all, entry_of. simpl. rewrite Ej, (mark_valid st cd j Hst V Hj).
    now rewrite getCompletedJobs_cleared. }
  rewrite E. split; [reflexivity|].
  unfold checkCompletedJobs. simpl.
  rewrite unshown_cleared. simpl. now rewrite getCompletedJobs_cleared.
Qed.

Lemma cached_result_is_shown_once_witness :
  fst (checkCompletedJobs sample_store)
  = [Shown (JObj [("overall_prediction", JStr "AI")]) JNull]
  /\ fst (checkCompletedJobs (snd (checkCompletedJobs sample_store))) = [].
Proof.
  destruct (cached_result_is_shown_once sample_store
              (cacheData (JStr "job-1") (JObj [("overall_prediction", JStr "AI")]) JNull
                         1700000000000) "job-1") as (H1 & H2);
    try reflexivity.
  rewrite H2, H1. split; reflexivity.
Defined.

End CacheFacts.

(* ===================================================================== *)
(*  makeAuthenticatedRequest: retries, back-off, refusals                *)
(* ===================================================================== *)

Module RetryFacts.
Import Obs Remote Api Attempt MonadFacts AuthFacts RequestFacts UnauthorizedFacts.

(** One pass, with its two halves named. *)
Lemma attempt_parts net url opts rc :
  attempt net url opts rc
  = try_catch
      (token <- getAuthToken net ;;
       if negb (truthy token) then throw (Error "No authentication token available")
       else if negb (Str.startsWith "https://"
                       (if Str.startsWith "http" url then url else baseURL ++ url))
       then throw (Error "HTTPS is required for all API requests. Ensure your API_BASE_URL uses https://")
       else
         response <- fetch net (api_request url opts token) ;;
         on_response rc response)%js
      (on_error rc).
Proof. reflexivity. Qed.

Lemma keeps_weaken (R R' : world -> world -> Prop) {A} (m : M A) :
  (forall w w1, R w w1 -> R' w w1) -> keeps R m -> keeps R' m.
Proof. intros H Hm w. apply H, Hm. Qed.

Lemma no_effects_refl w : no_effects w w.
Proof. split; reflexivity. Qed.

Lemma no_effects_trans a b c : no_effects a b -> no_effects b c -> no_effects a c.
Proof. intros [H1 H2] [H3 H4]. split; congruence. Qed.

Lemma same_api_refl w : same_api w w.
Proof. reflexivity. Qed.

Lemma same_api_trans a b c : same_api a b -> same_api b c -> same_api a c.
Proof. unfold same_api. congruence. Qed.

Create HintDb frame.

(** Decompose a frame goal along the structure of the computation. *)
Ltac frame_tac Hrefl Htrans :=
  repeat first
    [ apply (keeps_ret _ Hrefl)
    | apply (keeps_throw _ Hrefl)
    | apply (keeps_gets _ Hrefl)
    | apply (keeps_field _ Hrefl)
    | apply (keeps_read_json _ Hrefl)
    | solve [eauto with frame]
    | apply (keeps_bind _ Htrans); [|intros ?]
    | apply (keeps_try_catch _ Htrans); [|intros ?]
    | match goal with
      | |- keeps _ (if ?c then _ else _) => destruct c
      | |- keeps _ (match ?x with _ => _ end) => destruct x
      end ].

Section Bounded.
Variable net : list request -> request -> fetch_outcome.

Lemma no_effects_fetch req : is_api req = false -> keeps no_effects (fetch net req).
Proof.
  intros Hreq w. unfold fetch.
  destruct (net (history w) req); simpl; (split; [reflexivity|]);
    rewrite api_requests_push, Hreq; lia.
Qed.

Lemma no_effects_secure_set k v : keeps no_effects (secure_set k v).
Proof.
  unfold secure_set. destruct v; try apply (keeps_throw _ no_effects_refl).
  intros w. split; reflexivity.
Qed.

Lemma no_effects_secure_get k : keeps no_effects (secure_get k).
Proof. apply (keeps_gets _ no_effects_refl). Qed.

Lemma no_effects_set_authToken t : keeps no_effects (modify (set_authToken t)).
Proof. intros w. split; reflexivity. Qed.

#[local] Hint Resolve no_effects_secure_set no_effects_secure_get
  no_effects_set_authToken : frame.

Lemma no_effects_getConsistentUserId kc : keeps no_effects (getConsistentUserId kc).
Proof. unfold getConsistentUserId, rejecting. frame_tac no_effects_refl no_effects_trans. Qed.
#[local] Hint Resolve no_effects_getConsistentUserId : frame.

Lemma no_effects_generateNewToken : keeps no_effects (generateNewToken net).
Proof.
  unfold generateNewToken. frame_tac no_effects_refl no_effects_trans.
  now apply no_effects_fetch.
Qed.
#[local] Hint Resolve no_effects_generateNewToken : frame.

Lemma no_effects_validate_stored t : keeps no_effects (validate_stored net t).
Proof.
  unfold validate_stored. frame_tac no_effects_refl no_effects_trans.
  now apply no_effects_fetch.
Qed.
#[local] Hint Resolve no_effects_validate_stored : frame.

(** Acquiring a credential has no effect besides credential traffic. *)
Lemma no_effects_getAuthToken : keeps no_effects (getAuthToken net).
Proof. unfold getAuthToken. frame_tac no_effects_refl no_effects_trans. Qed.

Lemma same_api_getAuthToken : keeps same_api (getAuthToken net).
Proof.
  apply (keeps_weaken no_effects); [|apply no_effects_getAuthToken].
  now intros w w1 [_ H].
Qed.

Lemma same_api_push_effect e : keeps same_api (modify (push_effect e)).
Proof. intros w. reflexivity. Qed.

Lemma same_api_clearAuthToken : keeps same_api clearAuthToken.
Proof. intros w. reflexivity. Qed.

Lemma same_api_sleep ms : keeps same_api (sleep ms).
Proof. intros w. reflexivity. Qed.

#[local] Hint Resolve same_api_getAuthToken same_api_clearAuthToken same_api_sleep : frame.

Lemma same_api_on_response rc r : keeps same_api (on_response rc r).
Proof. unfold on_response. frame_tac same_api_refl same_api_trans. Qed.

Lemma same_api_on_error rc e : keeps same_api (on_error rc e).
Proof. unfold on_error. frame_tac same_api_refl same_api_trans. Qed.

Lemma one_more_of_same {A} (m : M A) : keeps same_api m -> keeps one_more m.
Proof. intros H w. specialize (H w). unfold one_more, same_api in *. lia. Qed.

Lemma one_more_bind_l {A B} (m : M A) (k : A -> M B) :
  keeps same_api m -> (forall a, keeps one_more (k a)) -> keeps one_more (bind m k).
Proof.
  intros Hm Hk w. unfold bind. specialize (Hm w).
  destruct (m w) as [[a|e|] w1]; simpl in *;
    try (unfold one_more, same_api in *; lia).
  specialize (Hk a w1). unfold one_more, same_api in *. lia.
Qed.

Lemma one_more_bind_r {A B} (m : M A) (k : A -> M B) :
  keeps one_more m -> (forall a, keeps same_api (k a)) -> keeps one_more (bind m k).
Proof.
  intros Hm Hk w. unfold bind. specialize (Hm w).
  destruct (m w) as [[a|e|] w1]; simpl in *; try assumption.
  specialize (Hk a w1). unfold one_more, same_api in *. lia.
Qed.

Lemma one_more_try_catch {A} (m : M A) (h : error -> M A) :
  keeps one_more m -> (forall e, keeps same_api (h e)) -> keeps one_more (try_catch m h).
Proof.
  intros Hm Hh w. unfold try_catch. specialize (Hm w).
  destruct (m w) as [[a|e|] w1]; simpl in *; try assumption.
  specialize (Hh e w1). unfold one_more, same_api in *. lia.
Qed.

Lemma one_more_fetch req : keeps one_more (fetch net req).
Proof.
  intros w. unfold fetch, one_more.
  destruct (net (history w) req); simpl; rewrite api_requests_push;
    destruct (is_api req); lia.
Qed.

(** One pass sends at most one request. *)
Lemma one_more_attempt url opts rc : keeps one_more (attempt net url opts rc).
Proof.
  rewrite attempt_parts.
  apply one_more_try_catch; [|apply same_api_on_error].
  apply one_more_bind_l; [apply same_api_getAuthToken|].
  intros token.
  destruct (negb (truthy token));
    [apply one_more_of_same, (keeps_throw _ same_api_refl)|].
  destruct (negb (Str.startsWith "https://" _));
    [apply one_more_of_same, (keeps_throw _ same_api_refl)|].
  apply one_more_bind_r; [apply one_more_fetch | apply same_api_on_response].
Qed.

Lemma attempts_bound fuel url opts rc w :
  (api_requests (snd (attempts net fuel url opts rc w))
   <= api_requests w + S (maxRetries - rc))%nat.
Proof.
  revert rc w. induction fuel as [|fuel IH]; intros rc w; simpl; [lia|].
  unfold bind.
  pose proof (one_more_attempt url opts rc w) as H1. unfold one_more in H1.
  destruct (attempt net url opts rc w) as [[[r|]|e|] w1] eqn:E; simpl in *; try lia.
  apply attempt_retry_lt in E.
  specialize (IH (S rc) w1). unfold maxRetries in *. lia.
Qed.

(** X9. [makeAuthenticatedRequest] sends a bounded number of requests and
    always settles: started with retry count [rc] it sends at most
    [1 + (3 - rc)] requests to the API, four for a fresh call, whatever
    the network and the remote side do. *)
Theorem request_sends_at_most_four url opts rc w :
  fst (makeAuthenticatedRequest net url opts rc w) <> Diverged
  /\ (api_requests (snd (makeAuthenticatedRequest net url opts rc w))
      <= api_requests w + S (maxRetries - rc))%nat
  /\ (api_requests (snd (makeAuthenticatedRequest net url opts 0 w))
      <= api_requests w + 4)%nat.
Proof.
  split; [apply returns_makeAuthenticatedRequest|].
  split; [apply attempts_bound|].
  pose proof (attempts_bound (S (maxRetries - 0)) url opts 0 w) as H.
  unfold makeAuthenticatedRequest. unfold maxRetries in *. simpl in *. lia.
Qed.

(** X10. [makeAuthenticatedRequest] resolves only with a 2xx response that
    the remote side gave to a request sent to the requested URL; every
    other status ends in a rejection (so the [!response.ok] tests of its
    callers never fire). *)
Theorem request_resolves_only_with_2xx url opts rc w r w1 :
  makeAuthenticatedRequest net url opts rc w = (Ok r, w1) ->
  ok r = true
  /\ answered_by net (if Str.startsWith "http" url then url else baseURL ++ url) r.
Proof.
  intros H. split.
  - eapply makeAuthenticatedRequest_ok; eauto.
  - pose proof (makeAuthenticatedRequest_answered net url opts rc w) as Ha.
    rewrite H in Ha. now apply Ha.
Qed.

End Bounded.

Lemma request_resolves_only_with_2xx_witness :
  ok (Resp 200 (Some (JObj [("has_subscription", JBool true)])) "") = true
  /\ answered_by Scenario.net_401_401_200 "https://your-api-domain.com/chat-usage/task-1"
       (Resp 200 (Some (JObj [("has_subscription", JBool true)])) "").
Proof.
  eapply (request_resolves_only_with_2xx Scenario.net_401_401_200 "/chat-usage/task-1"
            no_options 0 Scenario.fresh).
  vm_compute. reflexivity.
Defined.

(* --------------------------------------------------------------------- *)
(*  What the catch block makes of the errors a pass can throw            *)
(* --------------------------------------------------------------------- *)

Lemma includes_token_cons c s :
  c <> "N"%char ->
  Str.includes "No authentication token" (String c s)
  = Str.includes "No authentication token" s.
Proof.
  intros Hc.
  change (Str.includes "No authentication token" (String c s))
    with (String.prefix "No authentication token" (String c s)
          || Str.includes "No authentication token" s).
  cbn [String.prefix].
  destruct (ascii_dec "N"%char c) as [E|_]; [congruence|reflexivity].
Qed.

Lemma includes_token_digits x s :
  Str.includes "No authentication token" s = false ->
  Str.includes "No authentication token" (pretty_N_go x s) = false.
Proof.
  revert s. induction (N.lt_wf_0 x) as [x _ IH]; intros s Hs.
  assert (x = 0 \/ 0 < x)%N as [->|Hx] by lia.
  - now rewrite pretty_N_go_0.
  - rewrite pretty_N_go_step by exact Hx. apply IH.
    + now apply N.div_lt.
    + rewrite includes_token_cons; [exact Hs|].
      unfold pretty_N_char. repeat case_match; discriminate.
Qed.

(** The text of a number never contains "No authentication token". *)
Lemma includes_token_pretty (z : Z) :
  Str.includes "No authentication token" (pretty z) = false.
Proof.
  assert (HN : forall p, Str.includes "No authentication token" (pretty (N.pos p)) = false).
  { intros p. unfold pretty, pretty_N.
    destruct (decide (N.pos p = 0%N)); [discriminate|].
    now apply includes_token_digits. }
  destruct z as [|p|p]; [reflexivity | apply HN |].
  change (pretty (Z.neg p)) with (String "-" (pretty (N.pos p))).
  rewrite includes_token_cons by discriminate. apply HN.
Qed.

(** An HTTP status error passes through the catch block unchanged. *)
Lemma on_error_status rc (s : Z) :
  on_error rc (Error ("HTTP error! status: " ++ pretty s))
  = throw (Error ("HTTP error! status: " ++ pretty s)).
Proof.
  unfold on_error. cbn [e_name e_message Error].
  change (String.eqb "Error" "AbortError") with false.
  change (String.eqb "Error" "TypeError") with false.
  change (String.eqb ("HTTP error! status: " ++ pretty s) "Network request failed")
    with false.
  cbn [orb].
  change ("HTTP error! status: " ++ pretty s)
    with (String "H" (String "T" (String "T" (String "P" (String " "
         (String "e" (String "r" (String "r" (String "o" (String "r"
         (String "!" (String " " (String "s" (String "t" (String "a"
         (String "t" (String "u" (String "s" (String ":" (String " "
         (pretty s))))))))))))))))))))).
  rewrite !includes_token_cons by discriminate.
  now rewrite includes_token_pretty.
Qed.

Lemma on_error_network rc e :
  network_error e = true ->
  on_error rc e
  = if (rc <? maxRetries)%nat
    then (sleep (backoff rc) ;;; ret Retry)%js
    else throw (Error "Network connection failed. Please check your internet connection and try again.").
Proof.
  unfold network_error, on_error. intros H.
  apply andb_true_iff in H as [Ha Hn]. apply negb_true_iff in Ha.
  now rewrite Ha, Hn.
Qed.

Lemma on_error_abort rc e :
  e_name e = "AbortError" ->
  on_error rc e
  = throw (Error "Request timeout. Please check your internet connection and try again.").
Proof. unfold on_error. now intros ->. Qed.

Lemma sleeps_of_push_sleep ms w :
  sleeps_of (set_now (now w + ms) (push_effect (ESleep ms) w)) = (sleeps_of w ++ [ms])%list.
Proof.
  unfold sleeps_of, set_now, push_effect. simpl.
  now rewrite omap_app.
Qed.

Section Scenarios.
Variable net : list request -> request -> fetch_outcome.
Hypothesis Hissue : issues_tokens net.

(** With a working token endpoint, a pass to an HTTPS URL gets its
    credential and goes on to the request. *)
Lemma attempt_with_token url opts rc w :
  https_url url ->
  exists t w0,
    t <> "" /\ no_effects w w0
    /\ attempt net url opts rc w
       = try_catch (bind (fetch net (api_request url opts (JStr t))) (on_response rc))
                   (on_error rc) w0.
Proof.
  intros Hurl.
  destruct (getAuthToken_ok net Hissue w) as (t & w0 & E & Hne & _).
  pose proof (no_effects_getAuthToken net w) as Hq. rewrite E in Hq. simpl in Hq.
  exists t, w0. split; [exact Hne|]. split; [exact Hq|].
  rewrite attempt_parts. unfold try_catch.
  rewrite (bind_ok _ _ _ _ _ E). cbv beta.
  unfold truthy. apply String.eqb_neq in Hne. rewrite Hne. cbn [negb]. cbv iota.
  unfold https_url in Hurl. rewrite Hurl. cbn [negb]. cbv iota.
  reflexivity.
Qed.

Lemma pass_failed req rc w0 e :
  net (history w0) req = FetchThrows e ->
  try_catch (bind (fetch net req) (on_response rc)) (on_error rc) w0
  = on_error rc e (push_request req w0).
Proof. intros H. unfold try_catch, bind, fetch. now rewrite H. Qed.

Lemma pass_fetched req rc w0 resp :
  net (history w0) req = Fetched resp ->
  try_catch (bind (fetch net req) (on_response rc)) (on_error rc) w0
  = try_catch (on_response rc resp) (on_error rc) (push_request req w0).
Proof. intros H. unfold try_catch, bind, fetch. now rewrite H. Qed.

Lemma api_requests_sent url opts t w0 :
  api_requests (push_request (api_request url opts t) w0) = (api_requests w0 + 1)%nat.
Proof. now rewrite api_requests_push. Qed.

(** One pass whose request fails on the network. *)
Lemma attempt_unreachable url opts rc w :
  api_unreachable net -> https_url url ->
  exists w1,
    attempt net url opts rc w
    = (if (rc <? maxRetries)%nat then Ok Retry
       else Throw (Error "Network connection failed. Please check your internet connection and try again."),
       w1)
    /\ api_requests w1 = (api_requests w + 1)%nat
    /\ effects w1
       = (effects w ++ if (rc <? maxRetries)%nat then [ESleep (backoff rc)] else [])%list.
Proof.
  intros Hdown Hurl.
  destruct (attempt_with_token url opts rc w Hurl) as (t & w0 & _ & [He Ha] & E).
  rewrite E.
  destruct (Hdown (history w0) (api_request url opts (JStr t)) eq_refl) as (e & Hn & Hnet).
  rewrite (pass_failed _ _ _ _ Hn), (on_error_network _ _ Hnet).
  pose proof (api_requests_sent url opts (JStr t) w0) as Hs.
  destruct (rc <? maxRetries)%nat.
  - eexists. split; [reflexivity|]. split.
    + unfold api_requests in *. simpl in *. lia.
    + simpl. now rewrite He.
  - eexists. split; [reflexivity|]. split; [lia|].
    simpl. now rewrite He, app_nil_r.
Qed.

Lemma status_not_ok r s :
  status r = s -> (s < 200 \/ 300 <= s) -> ok r = false.
Proof. intros <- H. unfold ok. lia. Qed.

(** One pass that is answered with a status of 500 or more. *)
Lemma attempt_server_error url opts rc s w :
  answers_status net s -> 500 <= s -> https_url url ->
  exists w1,
    attempt net url opts rc w
    = (if (rc <? maxRetries)%nat then Ok Retry
       else Throw (Error ("HTTP error! status: " ++ pretty s)),
       w1)
    /\ api_requests w1 = (api_requests w + 1)%nat
    /\ effects w1
       = (effects w ++ if (rc <? maxRetries)%nat then [ESleep (backoff rc)] else [])%list.
Proof.
  intros Hans Hs Hurl.
  destruct (attempt_with_token url opts rc w Hurl) as (t & w0 & _ & [He Ha] & E).
  rewrite E.
  destruct (Hans (history w0) (api_request url opts (JStr t)) eq_refl) as (r & Hn & Hst).
  rewrite (pass_fetched _ _ _ _ Hn).
  pose proof (api_requests_sent url opts (JStr t) w0) as Hsent.
  unfold on_response.
  rewrite (status_not_ok r s Hst) by lia. cbn [negb]. rewrite Hst.
  replace (s =? 401) with false by lia. cbn [andb].
  replace (500 <=? s) with true by lia. cbn [andb].
  destruct (rc <? maxRetries)%nat.
  - eexists. split; [reflexivity|]. split.
    + unfold api_requests in *. simpl in *. lia.
    + simpl. now rewrite He.
  - unfold try_catch, throw. rewrite on_error_status.
    eexists. split; [reflexivity|]. split; [lia|].
    simpl. now rewrite He, app_nil_r.
Qed.

(** One pass that is answered with a client error other than 401. *)
Lemma attempt_client_error url opts rc s w :
  answers_status net s -> (s < 200 \/ 300 <= s) -> s < 500 -> s <> 401 ->
  https_url url ->
  exists w1,
    attempt net url opts rc w = (Throw (Error ("HTTP error! status: " ++ pretty s)), w1)
    /\ api_requests w1 = (api_requests w + 1)%nat
    /\ effects w1 = effects w.
Proof.
  intros Hans Hs H5 H401 Hurl.
  destruct (attempt_with_token url opts rc w Hurl) as (t & w0 & _ & [He Ha] & E).
  rewrite E.
  destruct (Hans (history w0) (api_request url opts (JStr t)) eq_refl) as (r & Hn & Hst).
  rewrite (pass_fetched _ _ _ _ Hn).
  pose proof (api_requests_sent url opts (JStr t) w0) as Hsent.
  unfold on_response.
  rewrite (status_not_ok r s Hst) by lia. cbn [negb]. rewrite Hst.
  replace (s =? 401) with false by lia. cbn [andb].
  replace (500 <=? s) with false by lia. cbn [andb].
  unfold try_catch, throw. rewrite on_error_status.
  eexists. split; [reflexivity|]. split; [lia|]. exact He.
Qed.

(** One pass whose request is aborted by the timer. *)
Lemma attempt_timeout url opts rc w :
  api_times_out net -> https_url url ->
  exists w1,
    attempt net url opts rc w
    = (Throw (Error "Request timeout. Please check your internet connection and try again."),
       w1)
    /\ api_requests w1 = (api_requests w + 1)%nat
    /\ effects w1 = effects w.
Proof.
  intros Hout Hurl.
  destruct (attempt_with_token url opts rc w Hurl) as (t & w0 & _ & [He Ha] & E).
  rewrite E.
  destruct (Hout (history w0) (api_request url opts (JStr t)) eq_refl) as (e & Hn & Hname).
  rewrite (pass_failed _ _ _ _ Hn), (on_error_abort _ _ Hname).
  pose proof (api_requests_sent url opts (JStr t) w0) as Hsent.
  eexists. split; [reflexivity|]. split; [lia|]. exact He.
Qed.

End Scenarios.

Lemma sleeps_of_effects w w1 l :
  effects w1 = (effects w ++ l)%list ->
  sleeps_of w1 = (sleeps_of w ++ omap effect_sleep l)%list.
Proof. intros H. unfold sleeps_of. now rewrite H, omap_app. Qed.

Lemma invalidations_effects w w1 l :
  effects w1 = (effects w ++ l)%list ->
  invalidations w1 = (invalidations w + length (List.filter is_clear l))%nat.
Proof. intros H. unfold invalidations. now rewrite H, List.filter_app, length_app. Qed.

(** Four passes, three of which ask for a retry after a back-off. *)
Lemma four_passes net url opts w (failure : error) :
  (forall rc w0, exists w1,
      attempt net url opts rc w0
      = (if (rc <? maxRetries)%nat then Ok Retry else Throw failure, w1)
      /\ api_requests w1 = (api_requests w0 + 1)%nat
      /\ effects w1
         = (effects w0 ++ if (rc <? maxRetries)%nat then [ESleep (backoff rc)] else [])%list) ->
  exists w4,
    makeAuthenticatedRequest net url opts 0 w = (Throw failure, w4)
    /\ api_requests w4 = (api_requests w + 4)%nat
    /\ sleeps_of w4 = (sleeps_of w ++ [1000; 2000; 4000])%list
    /\ invalidations w4 = invalidations w.
Proof.
  intros Hpass.
  destruct (Hpass 0%nat w) as (w1 & E1 & Ha1 & He1).
  destruct (Hpass 1%nat w1) as (w2 & E2 & Ha2 & He2).
  destruct (Hpass 2%nat w2) as (w3 & E3 & Ha3 & He3).
  destruct (Hpass 3%nat w3) as (w4 & E4 & Ha4 & He4).
  simpl in E1, E2, E3, E4, He1, He2, He3, He4.
  exists w4. split.
  { unfold makeAuthenticatedRequest. simpl attempts.
    rewrite (bind_ok _ _ _ _ _ E1), (bind_ok _ _ _ _ _ E2), (bind_ok _ _ _ _ _ E3).
    now rewrite (bind_throw _ _ _ _ _ E4). }
  split; [lia|].
  assert (He : effects w4
               = (effects w ++ [ESleep (backoff 0); ESleep (backoff 1); ESleep (backoff 2)])%list).
  { rewrite He4, He3, He2, He1, app_nil_r, <- !app_assoc. reflexivity. }
  split.
  - now rewrite (sleeps_of_effects _ _ _ He).
  - rewrite (invalidations_effects _ _ _ He). simpl. lia.
Qed.

(** X11. A network failure is retried three times with exponential
    back-off: when every request to an HTTPS endpoint fails on the network
    ("Network request failed", or any TypeError), a call sends four
    requests, waits 1 s, 2 s and 4 s between them, leaves the credential
    alone and rejects with the "Network connection failed" message. *)
Theorem network_failure_is_retried_with_backoff net url opts w :
  issues_tokens net -> api_unreachable net -> https_url url ->
  exists w4,
    makeAuthenticatedRequest net url opts 0 w
    = (Throw (Error "Network connection failed. Please check your internet connection and try again."),
       w4)
    /\ api_requests w4 = (api_requests w + 4)%nat
    /\ sleeps_of w4 = (sleeps_of w ++ [1000; 2000; 4000])%list
    /\ invalidations w4 = invalidations w.
Proof.
  intros Hissue Hdown Hurl. apply four_passes.
  intros rc w0. now apply attempt_unreachable.
Qed.

(** X12. A server error is retried three times with exponential back-off:
    when every request to an HTTPS endpoint is answered with a status of
    500 or more, a call sends four requests, waits 1 s, 2 s and 4 s between
    them and rejects with "HTTP error! status: <status>". *)
Theorem server_error_is_retried_with_backoff net url opts s w :
  issues_tokens net -> answers_status net s -> 500 <= s -> https_url url ->
  exists w4,
    makeAuthenticatedRequest net url opts 0 w
    = (Throw (Error ("HTTP error! status: " ++ pretty s)), w4)
    /\ api_requests w4 = (api_requests w + 4)%nat
    /\ sleeps_of w4 = (sleeps_of w ++ [1000; 2000; 4000])%list
    /\ invalidations w4 = invalidations w.
Proof.
  intros Hissue Hans Hs Hurl. apply four_passes.
  intros rc w0. now apply attempt_server_error.
Qed.

(** X13. A client error other than 401 is final: a non-2xx status below
    500 that is not 401 (404, 429, ...) makes the call reject with
    "HTTP error! status: <status>" after a single request, without back-off
    and without touching the credential. *)
Theorem client_error_is_not_retried net url opts rc s w :
  issues_tokens net -> answers_status net s ->
  (s < 200 \/ 300 <= s) -> s < 500 -> s <> 401 -> https_url url ->
  exists w1,
    makeAuthenticatedRequest net url opts rc w
    = (Throw (Error ("HTTP error! status: " ++ pretty s)), w1)
    /\ api_requests w1 = (api_requests w + 1)%nat
    /\ effects w1 = effects w.
Proof.
  intros Hissue Hans Hs H5 H401 Hurl.
  destruct (attempt_client_error net Hissue url opts rc s w Hans Hs H5 H401 Hurl)
    as (w1 & E & Ha & He).
  exists w1. split; [|auto].
  unfold makeAuthenticatedRequest. simpl attempts.
  now rewrite (bind_throw _ _ _ _ _ E).
Qed.

(** X14. A timed-out request is not retried: when the 30 s timer aborts the
    request (AbortError), the call rejects with the "Request timeout"
    message after that single request, without back-off. *)
Theorem timeout_is_not_retried net url opts rc w :
  issues_tokens net -> api_times_out net -> https_url url ->
  exists w1,
    makeAuthenticatedRequest net url opts rc w
    = (Throw (Error "Request timeout. Please check your internet connection and try again."),
       w1)
    /\ api_requests w1 = (api_requests w + 1)%nat
    /\ effects w1 = effects w.
Proof.
  intros Hissue Hout Hurl.
  destruct (attempt_timeout net Hissue url opts rc w Hout Hurl) as (w1 & E & Ha & He).
  exists w1. split; [|auto].
  unfold makeAuthenticatedRequest. simpl attempts.
  now rewrite (bind_throw _ _ _ _ _ E).
Qed.

Lemma issues_tokens_answering o : issues_tokens (net_answering o).
Proof.
  intros h req Hsite. unfold net_answering. rewrite Hsite.
  eexists _, _, _. repeat split; discriminate.
Qed.

Lemma answers_status_answering r : answers_status (net_answering (Fetched r)) (status r).
Proof.
  intros h req Hsite. unfold net_answering. rewrite Hsite. now exists r.
Qed.

Lemma network_failure_is_retried_with_backoff_witness :
  exists w4,
    makeAuthenticatedRequest (net_answering Scenario.network_failure) "/analyze"
                             no_options 0 Scenario.fresh
    = (Throw (Error "Network connection failed. Please check your internet connection and try again."),
       w4)
    /\ api_requests w4 = 4%nat
    /\ sleeps_of w4 = [1000; 2000; 4000].
Proof.
  destruct (network_failure_is_retried_with_backoff
              (net_answering Scenario.network_failure) "/analyze" no_options Scenario.fresh
              (issues_tokens_answering _))
    as (w4 & E & Ha & Hs & _).
  - intros h req Hsite. unfold net_answering. rewrite Hsite.
    eexists. split; reflexivity.
  - reflexivity.
  - exists w4. split; [exact E|]. split; [exact Ha | exact Hs].
Defined.

Lemma server_error_is_retried_with_backoff_witness :
  exists w4,
    makeAuthenticatedRequest (net_answering (Fetched (Resp 503 None "Service Unavailable")))
                             "/report" no_options 0 Scenario.fresh
    = (Throw (Error "HTTP error! status: 503"), w4)
    /\ api_requests w4 = 4%nat
    /\ sleeps_of w4 = [1000; 2000; 4000].
Proof.
  destruct (server_error_is_retried_with_backoff
              (net_answering (Fetched (Resp 503 None "Service Unavailable")))
              "/report" no_options 503 Scenario.fresh
              (issues_tokens_answering _) (answers_status_answering _))
    as (w4 & E & Ha & Hs & _).
  - lia.
  - reflexivity.
  - exists w4. split; [exact E|]. split; [exact Ha | exact Hs].
Defined.

Lemma client_error_is_not_retried_witness :
  exists w1,
    makeAuthenticatedRequest (net_answering (Fetched (Resp 404 None "Not Found")))
                             "/neural/job_status/job-1" no_options 0 Scenario.fresh
    = (Throw (Error "HTTP error! status: 404"), w1)
    /\ api_requests w1 = 1%nat.
Proof.
  destruct (client_error_is_not_retried
              (net_answering (Fetched (Resp 404 None "Not Found")))
              "/neural/job_status/job-1" no_options 0 404 Scenario.fresh
              (issues_tokens_answering _) (answers_status_answering _))
    as (w1 & E & Ha & _); try lia.
  - reflexivity.
  - exists w1. split; [exact E | exact Ha].
Defined.

Lemma timeout_is_not_retried_witness :
  exists w1,
    makeAuthenticatedRequest
      (net_answering (FetchThrows (Err "AbortError" "Aborted")))
      "/analyze" no_options 0 Scenario.fresh
    = (Throw (Error "Request timeout. Please check your internet connection and try again."),
       w1)
    /\ api_requests w1 = 1%nat.
Proof.
  destruct (timeout_is_not_retried
              (net_answering (FetchThrows (Err "AbortError" "Aborted")))
              "/analyze" no_options 0 Scenario.fresh (issues_tokens_answering _))
    as (w1 & E & Ha & _).
  - intros h req Hsite. unfold net_answering. rewrite Hsite.
    eexists. split; reflexivity.
  - reflexivity.
  - exists w1. split; [exact E | exact Ha].
Defined.

(** [getAuthToken] resolves, or rejects with its one final error. *)
Lemma getAuthToken_outcome net w :
  (exists t, fst (getAuthToken net w) = Ok t)
  \/ fst (getAuthToken net w)
     = Throw (Error "Failed to obtain authentication token. Please check your internet connection and try again.").
Proof.
  pose proof (returns_getAuthToken net w) as Hret.
  unfold getAuthToken, try_catch in *.
  match goal with
  | |- context [bind (secure_get "authToken") ?k w] =>
      destruct (bind (secure_get "authToken") k w) as [[t|e|] w1]
  end; simpl in *; [eauto | | contradiction].
  unfold bind, try_catch.
  pose proof (returns_generateNewToken net w1) as Hg.
  destruct (generateNewToken net w1) as [[ft|e'|] w2]; simpl in *;
    [| now right | contradiction].
  destruct ft as [| |[|]|n|s| |]; simpl; try (now right).
  - destruct (negb (n =? 0)); simpl; now right.
  - destruct (negb (s =? "")%string); simpl; [left; eauto | now right].
Qed.

(** X15. A URL that is not HTTPS is refused before anything is sent to it:
    the call rejects, with the HTTPS error when a credential was obtained,
    and no request of [makeAuthenticatedRequest] leaves the device, whatever
    the network would answer. *)
Theorem insecure_url_is_refused net url opts rc w :
  Str.startsWith "https://" (if Str.startsWith "http" url then url else baseURL ++ url)
  = false ->
  exists e w1,
    makeAuthenticatedRequest net url opts rc w = (Throw e, w1)
    /\ api_requests w1 = api_requests w
    /\ (e = Error "HTTPS is required for all API requests. Ensure your API_BASE_URL uses https://"
        \/ e = Error "Authentication failed. Please restart the app and try again."
        \/ e = Error "Failed to obtain authentication token. Please check your internet connection and try again.").
Proof.
  intros Hurl.
  assert (Hpass : exists e w1,
             attempt net url opts rc w = (Throw e, w1)
             /\ api_requests w1 = api_requests w
             /\ (e = Error "HTTPS is required for all API requests. Ensure your API_BASE_URL uses https://"
                 \/ e = Error "Authentication failed. Please restart the app and try again."
                 \/ e = Error "Failed to obtain authentication token. Please check your internet connection and try again.")).
  { rewrite attempt_parts. unfold try_catch, bind.
    pose proof (same_api_getAuthToken net w) as Ha. unfold same_api in Ha.
    destruct (getAuthToken_outcome net w) as [[t Ht] | Hf];
      destruct (getAuthToken net w) as [r w0]; simpl in *; subst r.
    - destruct (truthy t); cbn [negb]; cbv iota.
      + rewrite Hurl. cbn [negb]. cbv iota.
        eexists _, w0. split; [reflexivity|]. auto.
      + eexists _, w0. split; [reflexivity|]. auto.
    - eexists _, w0. split; [reflexivity|]. auto. }
  destruct Hpass as (e & w1 & E & Ha & He).
  exists e, w1. split; [|auto].
  unfold makeAuthenticatedRequest. simpl attempts.
  now rewrite (bind_throw _ _ _ _ _ E).
Qed.

Lemma insecure_url_is_refused_witness :
  exists e w1,
    makeAuthenticatedRequest (net_answering Scenario.token_response)
                             "http://your-api-domain.com/analyze" no_options 0 Scenario.fresh
    = (Throw e, w1)
    /\ api_requests w1 = 0%nat.
Proof.
  destruct (insecure_url_is_refused (net_answering Scenario.token_response)
              "http://your-api-domain.com/analyze" no_options 0 Scenario.fresh eq_refl)
    as (e & w1 & E & Ha & _).
  exists e, w1. split; [exact E | exact Ha].
Defined.

End RetryFacts.

(* ===================================================================== *)
(*  Credentials: reuse, replacement, reset                               *)
(* ===================================================================== *)

Module TokenFacts.
Import Obs Remote Api MonadFacts AuthFacts RequestFacts UnauthorizedFacts.

(** X16. The user id behind the credentials is stable as long as
    SecureStore answers. [getConsistentUserId] always resolves and sends
    nothing, whatever SecureStore does. A RevenueCat id that is not empty
    is the result, and SecureStore is not asked. When neither SecureStore
    promise rejects, the id it resolved with comes out again in every later
    state that has the same RevenueCat id and the same stored device id and
    whose read does not reject, whatever the clock and the random source
    say then: a device id is generated at most once. When there is no
    RevenueCat id and the read rejects, or nothing is stored and the write
    rejects, the result is a fallback id made from the clock and a fresh
    random value, and nothing is stored. *)
Theorem user_id_is_stable kc w :
  exists u w1,
    getConsistentUserId kc w = (Ok u, w1)
    /\ history w1 = history w /\ effects w1 = effects w
    /\ (forall rc, revenuecat_id w = Some rc -> rc <> "" -> u = rc /\ w1 = w)
    /\ (getItem_error kc = None -> setItem_error kc = None ->
        forall kc2 w2,
          getItem_error kc2 = None ->
          revenuecat_id w2 = revenuecat_id w1 ->
          secure w2 !! "device_user_id" = secure w1 !! "device_user_id" ->
          getConsistentUserId kc2 w2 = (Ok u, w2))
    /\ (forall e,
          (forall rc, revenuecat_id w = Some rc -> rc = "") ->
          getItem_error kc = Some e ->
          u = "fallback_" ++ pretty (now w) ++ "_" ++ fallback_tag kc /\ w1 = w)
    /\ (forall e,
          (forall rc, revenuecat_id w = Some rc -> rc = "") ->
          getItem_error kc = None ->
          (forall d, secure w !! "device_user_id" = Some d -> d = "") ->
          setItem_error kc = Some e ->
          u = "fallback_" ++ pretty (now w) ++ "_" ++ fallback_tag kc /\ w1 = w).
Proof.
  assert (Hnb : forall s : string, negb (s =? "")%string = false -> s = "").
  { intros s H. apply negb_false_iff in H. now apply String.eqb_eq in H. }
  assert (Hnt : forall s : string, negb (s =? "")%string = true -> s <> "").
  { intros s H. apply negb_true_iff in H. now apply String.eqb_neq in H. }
  assert (Hstable : forall u w1,
             (exists rc, revenuecat_id w1 = Some rc /\ rc <> "" /\ u = rc)
             \/ ((forall rc, revenuecat_id w1 = Some rc -> rc = "")
                 /\ secure w1 !! "device_user_id" = Some u /\ u <> "") ->
             forall kc2 w2,
               getItem_error kc2 = None ->
               revenuecat_id w2 = revenuecat_id w1 ->
               secure w2 !! "device_user_id" = secure w1 !! "device_user_id" ->
               getConsistentUserId kc2 w2 = (Ok u, w2)).
  { intros u w1 Hcase kc2 w2 Hg Hr Hs.
    unfold getConsistentUserId, try_catch, rejecting, bind, gets, secure_get,
      secure_set, modify, ret, throw.
    cbv beta. rewrite Hr, Hg.
    destruct Hcase as [(rc & -> & Hne & ->) | (Hno & Hu & Hne)]; simpl.
    - apply String.eqb_neq in Hne. now rewrite Hne.
    - apply String.eqb_neq in Hne.
      destruct (revenuecat_id w1) as [rc|]; simpl.
      + rewrite (Hno rc eq_refl). simpl. rewrite Hs, Hu. simpl. now rewrite Hne.
      + rewrite Hs, Hu. simpl. now rewrite Hne. }
  unfold getConsistentUserId at 1.
  unfold try_catch, rejecting, bind, gets, secure_get, secure_set, modify, ret, throw.
  destruct (revenuecat_id w) as [rc|] eqn:Hrc; simpl;
    [destruct (negb (rc =? "")%string) eqn:Hne; simpl|].
  - (* a RevenueCat id *)
    eexists _, _. split; [reflexivity|]. split; [reflexivity|]. split; [reflexivity|].
    split; [intros rc' [= <-] _; now split|].
    split; [intros _ _; apply Hstable; left; exists rc; auto|].
    split; intros e Hno; specialize (Hno rc eq_refl); apply Hnt in Hne; contradiction.
  - (* an empty RevenueCat id *)
    apply Hnb in Hne. subst rc.
    destruct (getItem_error kc) as [eg|] eqn:Hg; simpl.
    + eexists _, _. split; [reflexivity|]. split; [reflexivity|]. split; [reflexivity|].
      split; [intros rc' [= <-] Hc; now contradiction Hc|].
      split; [discriminate|]. split; [now intros|discriminate].
    + destruct (secure w !! "device_user_id") as [d|] eqn:Hd; simpl;
        [destruct (negb (d =? "")%string) eqn:Hdn; simpl|].
      * eexists _, _. split; [reflexivity|]. split; [reflexivity|]. split; [reflexivity|].
        split; [intros rc' [= <-] Hc; now contradiction Hc|].
        split; [intros _ _; apply Hstable; right;
                split; [intros rc' Hrc'; congruence | auto]|].
        split; [discriminate|].
        intros e _ _ Hempty. specialize (Hempty d eq_refl). apply Hnt in Hdn. contradiction.
      * destruct (setItem_error kc) as [es|] eqn:Hse; simpl.
        -- eexists _, _. split; [reflexivity|]. split; [reflexivity|]. split; [reflexivity|].
           split; [intros rc' [= <-] Hc; now contradiction Hc|].
           split; [discriminate|]. split; [discriminate | now intros].
        -- eexists _, _. split; [reflexivity|]. split; [reflexivity|]. split; [reflexivity|].
           split; [intros rc' [= <-] Hc; now contradiction Hc|].
           split; [intros _ _; apply Hstable; right; simpl;
                   split; [intros rc' Hrc'; congruence
                          | split; [apply lookup_insert_eq | discriminate]]|].
           split; discriminate.
      * destruct (setItem_error kc) as [es|] eqn:Hse; simpl.
        -- eexists _, _. split; [reflexivity|]. split; [reflexivity|]. split; [reflexivity|].
           split; [intros rc' [= <-] Hc; now contradiction Hc|].
           split; [discriminate|]. split; [discriminate | now intros].
        -- eexists _, _. split; [reflexivity|]. split; [reflexivity|]. split; [reflexivity|].
           split; [intros rc' [= <-] Hc; now contradiction Hc|].
           split; [intros _ _; apply Hstable; right; simpl;
                   split; [intros rc' Hrc'; congruence
                          | split; [apply lookup_insert_eq | discriminate]]|].
           split; discriminate.
  - (* no RevenueCat id *)
    destruct (getItem_error kc) as [eg|] eqn:Hg; simpl.
    + eexists _, _. split; [reflexivity|]. split; [reflexivity|]. split; [reflexivity|].
      split; [discriminate|].
      split; [discriminate|]. split; [now intros|discriminate].
    + destruct (secure w !! "device_user_id") as [d|] eqn:Hd; simpl;
        [destruct (negb (d =? "")%string) eqn:Hdn; simpl|].
      * eexists _, _. split; [reflexivity|]. split; [reflexivity|]. split; [reflexivity|].
        split; [discriminate|].
        split; [intros _ _; apply Hstable; right;
                split; [intros rc' Hrc'; congruence | auto]|].
        split; [discriminate|].
        intros e _ _ Hempty. specialize (Hempty d eq_refl). apply Hnt in Hdn. contradiction.
      * destruct (setItem_error kc) as [es|] eqn:Hse; simpl.
        -- eexists _, _. split; [reflexivity|]. split; [reflexivity|]. split; [reflexivity|].
           split; [discriminate|].
           split; [discriminate|]. split; [discriminate | now intros].
        -- eexists _, _. split; [reflexivity|]. split; [reflexivity|]. split; [reflexivity|].
           split; [discriminate|].
           split; [intros _ _; apply Hstable; right; simpl;
                   split; [intros rc' Hrc'; congruence
                          | split; [apply lookup_insert_eq | discriminate]]|].
           split; discriminate.
      * destruct (setItem_error kc) as [es|] eqn:Hse; simpl.
        -- eexists _, _. split; [reflexivity|]. split; [reflexivity|]. split; [reflexivity|].
           split; [discriminate|].
           split; [discriminate|]. split; [discriminate | now intros].
        -- eexists _, _. split; [reflexivity|]. split; [reflexivity|]. split; [reflexivity|].
           split; [discriminate|].
           split; [intros _ _; apply Hstable; right; simpl;
                   split; [intros rc' Hrc'; congruence
                          | split; [apply lookup_insert_eq | discriminate]]|].
           split; discriminate.
Qed.

Lemma user_id_is_stable_witness :
  exists u w1,
    getConsistentUserId working Scenario.fresh = (Ok u, w1)
    /\ getConsistentUserId working (set_now 1800000000000 w1)
       = (Ok u, set_now 1800000000000 w1).
Proof.
  destruct (user_id_is_stable working Scenario.fresh)
    as (u & w1 & E & _ & _ & _ & Hstable & _).
  exists u, w1. split; [exact E|].
  apply (Hstable eq_refl eq_refl working (set_now 1800000000000 w1));
    reflexivity.
Defined.

Lemma getConsistentUserId_frame kc w :
  exists u w0,
    getConsistentUserId kc w = (Ok u, w0)
    /\ history w0 = history w /\ effects w0 = effects w
    /\ forall k, k <> "device_user_id" -> secure w0 !! k = secure w !! k.
Proof.
  unfold getConsistentUserId, try_catch, rejecting, bind, gets, secure_get,
    secure_set, modify, ret, throw.
  destruct (revenuecat_id w) as [rc|]; simpl;
    [destruct (negb (rc =? "")%string); simpl|];
    try (destruct (getItem_error kc); simpl;
         [|destruct (secure w !! "device_user_id") as [d|]; simpl;
           [destruct (negb (d =? "")%string); simpl|];
           try (destruct (setItem_error kc); simpl)]);
    eexists _, _; (split; [reflexivity|]); (split; [reflexivity|]);
    (split; [reflexivity|]); intros k Hk; simpl;
    try reflexivity; now rewrite lookup_insert_ne by congruence.
Qed.

Section Tokens.
Variable net : list request -> request -> fetch_outcome.
Hypothesis Hissue : issues_tokens net.

(** What issuing and storing a fresh credential does. *)
Lemma issue_and_store w :
  exists t req w1,
    (fresh <- generateNewToken net ;;
     (if truthy fresh then secure_set "authToken" fresh else ret tt) ;;;
     ret fresh)%js w = (Ok (JStr t), w1)
    /\ t <> "" /\ issued_by net t
    /\ r_site req = SiteTokenIssue
    /\ history w1 = (history w ++ [req])%list
    /\ effects w1 = effects w
    /\ authToken w1 = JStr t
    /\ secure w1 !! "authToken" = Some t
    /\ secure w1 !! "auth_token" = Some t.
Proof.
  unfold generateNewToken.
  destruct (getConsistentUserId_frame working w) as (u & w0 & Eu & Hh & He & _).
  set (req := Req SiteTokenIssue "POST" (baseURL ++ "/auth/token")
                  [("Content-Type", "application/json")]
                  (JObj [("app_user_id", JStr u)])).
  destruct (Hissue (history w0) req eq_refl)
    as (resp & data & tok & Hn & Hok & Hj & Hf & Hne).
  exists tok, req.
  pose proof Hne as Hne'. apply String.eqb_neq in Hne'.
  unfold bind, ret, throw, read_json, field, modify, secure_set, fetch.
  rewrite Eu. fold req. rewrite Hn. simpl. rewrite Hok. simpl. rewrite Hj. simpl.
  rewrite Hf. simpl. rewrite Hne'. simpl. rewrite Hne'. simpl.
  eexists. split; [reflexivity|]. simpl.
  split; [exact Hne|].
  split; [now exists (history w0), req, resp, data|].
  split; [reflexivity|]. split; [now rewrite Hh|]. split; [exact He|].
  split; [reflexivity|].
  split; [apply lookup_insert_eq|].
  rewrite lookup_insert_ne by discriminate. apply lookup_insert_eq.
Qed.

(** Without a stored credential, [getAuthToken] issues one. *)
Lemma getAuthToken_issues w :
  secure w !! "authToken" = None ->
  exists t req w1,
    getAuthToken net w = (Ok (JStr t), w1)
    /\ t <> "" /\ issued_by net t
    /\ r_site req = SiteTokenIssue
    /\ history w1 = (history w ++ [req])%list
    /\ effects w1 = effects w
    /\ authToken w1 = JStr t
    /\ secure w1 !! "authToken" = Some t
    /\ secure w1 !! "auth_token" = Some t.
Proof.
  intros Hs.
  destruct (issue_and_store w) as (t & req & w1 & E & H).
  exists t, req, w1. split; [|exact H].
  unfold getAuthToken, try_catch.
  unfold bind at 1. unfold secure_get, gets. rewrite Hs. cbn [truthy].
  unfold bind at 1. unfold ret at 1. cbn [negb truthy]. cbv iota.
  now rewrite E.
Qed.

End Tokens.

(** X17. A stored credential is reused unless it is rejected: when the
    validation request is answered with any status other than 401 (a 2xx,
    but also a 500), [getAuthToken] resolves with the stored credential
    itself, having sent that one validation request and no request for a
    new credential, and the secure store is as it was. *)
Theorem stored_token_is_reused net s w :
  accepts_stored net -> secure w !! "authToken" = Some s -> s <> "" ->
  exists check w1,
    getAuthToken net w = (Ok (JStr s), w1)
    /\ r_site check = SiteTokenCheck
    /\ history w1 = (history w ++ [check])%list
    /\ secure w1 = secure w
    /\ effects w1 = effects w.
Proof.
  intros Hacc Hs Hne. apply String.eqb_neq in Hne.
  set (check := Req SiteTokenCheck "POST" (baseURL ++ "/check-user-subscription")
                    [("Authorization", "Bearer " ++ Str.to_text (JStr s));
                     ("Content-Type", "application/json")]
                    (JObj [("has_subscription", JBool false)])).
  destruct (Hacc (history w) check eq_refl) as (r & Hn & H401).
  exists check, (push_request check w).
  split; [|repeat split].
  unfold getAuthToken, try_catch.
  unfold bind at 1. unfold secure_get, gets. rewrite Hs.
  cbn [truthy]. rewrite Hne. cbn [negb]. cbv iota.
  unfold validate_stored, try_catch, bind, fetch. fold check. rewrite Hn.
  destruct (ok r); [reflexivity|].
  apply Z.eqb_neq in H401. rewrite H401. unfold ret. cbn [truthy]. now rewrite Hne.
Qed.

(** X18. A rejected credential is replaced: when the validation request is
    answered 401, or fails, and the token endpoint works, [getAuthToken]
    sends the validation request and then one request for a new credential,
    resolves with the credential the endpoint issued, and leaves it in
    memory and in the secure store under both key names. *)
Theorem rejected_token_is_replaced net s w :
  issues_tokens net -> rejects_stored net ->
  secure w !! "authToken" = Some s -> s <> "" ->
  exists t check issue w1,
    getAuthToken net w = (Ok (JStr t), w1)
    /\ t <> "" /\ issued_by net t
    /\ r_site check = SiteTokenCheck /\ r_site issue = SiteTokenIssue
    /\ history w1 = (history w ++ [check; issue])%list
    /\ authToken w1 = JStr t
    /\ secure w1 !! "authToken" = Some t
    /\ secure w1 !! "auth_token" = Some t.
Proof.
  intros Hissue Hrej Hs Hne. apply String.eqb_neq in Hne.
  set (check := Req SiteTokenCheck "POST" (baseURL ++ "/check-user-subscription")
                    [("Authorization", "Bearer " ++ Str.to_text (JStr s));
                     ("Content-Type", "application/json")]
                    (JObj [("has_subscription", JBool false)])).
  destruct (issue_and_store net Hissue (push_request check w))
    as (t & issue & w1 & E & Ht & Hi & Hsite & Hh & _ & Ha & H1 & H2).
  exists t, check, issue, w1.
  split; [|repeat split; try assumption;
           rewrite Hh; simpl; now rewrite <- app_assoc].
  assert (Ev : validate_stored net (JStr s) w = (Ok (inr JNull), push_request check w)).
  { unfold validate_stored, try_catch, bind, fetch. fold check.
    destruct (Hrej (history w) check eq_refl) as [(r & Hn & H401) | (e & Hn)];
      rewrite Hn; [|reflexivity].
    assert (Hok : ok r = false) by (unfold ok; rewrite H401; reflexivity).
    now rewrite Hok, H401. }
  unfold getAuthToken, try_catch.
  unfold bind at 1. unfold secure_get, gets. rewrite Hs.
  cbn [truthy]. rewrite Hne. cbn [negb]. cbv iota.
  unfold bind at 1. rewrite Ev. cbn [negb truthy]. cbv iota.
  now rewrite E.
Qed.

(** X19. Resetting authentication forces a new credential:
    [resetAuthentication] leaves no credential in memory or in the secure
    store and sends nothing; the next [getAuthToken] then skips validation
    and sends exactly one request, to the token endpoint, whose credential
    it returns and stores. *)
Theorem reset_forces_new_token net w :
  issues_tokens net ->
  exists w1,
    resetAuthentication w = (Ok tt, w1)
    /\ credential_cleared w1
    /\ history w1 = history w
    /\ exists t issue w2,
        getAuthToken net w1 = (Ok (JStr t), w2)
        /\ t <> "" /\ issued_by net t
        /\ r_site issue = SiteTokenIssue
        /\ history w2 = (history w ++ [issue])%list
        /\ secure w2 !! "authToken" = Some t.
Proof.
  intros Hissue.
  destruct (clearAuthToken_clears w) as (w0 & Ec & (Ha & H1 & H2) & _).
  exists (set_authToken JNull w0).
  assert (Hh : history w0 = history w).
  { unfold clearAuthToken, bind, emit, modify, secure_delete in Ec. now inversion Ec. }
  split; [unfold resetAuthentication; now rewrite (bind_ok _ _ _ _ _ Ec)|].
  split; [repeat split; assumption|].
  split; [exact Hh|].
  destruct (getAuthToken_issues net Hissue (set_authToken JNull w0) H1)
    as (t & issue & w2 & E & Ht & Hi & Hsite & Hhist & _ & _ & Hs & _).
  exists t, issue, w2. repeat split; try assumption.
  rewrite Hhist. simpl. now rewrite Hh.
Qed.

Lemma accepts_stored_answering o : accepts_stored (net_answering o).
Proof.
  intros h req Hsite. unfold net_answering. rewrite Hsite.
  eexists. split; [reflexivity|]. discriminate.
Qed.

Lemma stored_token_is_reused_witness :
  fst (getAuthToken (net_answering Scenario.network_failure)
                    (set_secure (insert "authToken" "dG9rZW4=") Scenario.fresh))
  = Ok (JStr "dG9rZW4=").
Proof.
  destruct (stored_token_is_reused (net_answering Scenario.network_failure) "dG9rZW4="
              (set_secure (insert "authToken" "dG9rZW4=") Scenario.fresh)
              (accepts_stored_answering _))
    as (check & w1 & E & _).
  - reflexivity.
  - discriminate.
  - now rewrite E.
Defined.

Lemma issues_tokens_expired : issues_tokens net_expired.
Proof.
  intros h req Hsite. unfold net_expired. rewrite Hsite.
  eexists _, _, _. repeat split; discriminate.
Qed.

Lemma rejected_token_is_replaced_witness :
  exists t w1,
    getAuthToken net_expired (set_secure (insert "authToken" "b2xk") Scenario.fresh)
    = (Ok (JStr t), w1)
    /\ secure w1 !! "authToken" = Some t
    /\ length (history w1) = 2%nat.
Proof.
  destruct (rejected_token_is_replaced net_expired "b2xk"
              (set_secure (insert "authToken" "b2xk") Scenario.fresh)
              issues_tokens_expired)
    as (t & check & issue & w1 & E & _ & _ & _ & _ & Hh & _ & Hs & _).
  - intros h req Hsite. unfold net_expired. rewrite Hsite.
    left. eexists. split; reflexivity.
  - reflexivity.
  - discriminate.
  - exists t, w1. split; [exact E|]. split; [exact Hs|]. now rewrite Hh.
Defined.

Lemma reset_forces_new_token_witness :
  exists w1,
    resetAuthentication (set_secure (insert "authToken" "b2xk") Scenario.fresh) = (Ok tt, w1)
    /\ credential_cleared w1.
Proof.
  destruct (reset_forces_new_token Scenario.net_always_401
              (set_secure (insert "authToken" "b2xk") Scenario.fresh)
              issues_tokens_scenario)
    as (w1 & E & Hc & _).
  exists w1. split; [exact E | exact Hc].
Defined.

End TokenFacts.

(* ===================================================================== *)
(*  Interval polling: the registry of intervals                          *)
(* ===================================================================== *)

Module RegistryFacts.
Import Obs Polling PollingFacts.

Lemma well_registered_init : well_registered init.
Proof.
  split.
  - intros h jobId cbs H. simpl in H. now rewrite lookup_empty in H.
  - intros jobId h H. simpl in H. now rewrite lookup_empty in H.
Qed.

Lemma well_registered_stop jobId s :
  well_registered s -> well_registered (stopPolling jobId s).
Proof.
  intros [H1 H2]. unfold stopPolling.
  destruct (pollingIntervals s !! jobId) as [h|] eqn:E; [|now split].
  split; simpl.
  - intros h' j cbs Hl.
    apply lookup_delete_Some in Hl as [Hne Hl].
    specialize (H1 _ _ _ Hl).
    rewrite lookup_delete_ne; [exact H1|].
    intros <-. congruence.
  - intros j h' Hp.
    apply lookup_delete_Some in Hp as [Hne Hp].
    destruct (H2 _ _ Hp) as [Hlt (cbs & Hl)].
    split; [exact Hlt|]. exists cbs.
    rewrite lookup_delete_ne; [exact Hl|].
    intros <-. destruct (H2 _ _ E) as [_ (c & Hl')]. congruence.
Qed.

Lemma well_registered_invoke present c s :
  well_registered s -> well_registered (invoke present c s).
Proof. now destruct present. Qed.

Lemma well_registered_inflight s l :
  well_registered s ->
  well_registered (Service (pollingIntervals s) (live s) (next_handle s) l (calls s)).
Proof. now intros [H1 H2]. Qed.

Lemma well_registered_start jobId cbs s :
  well_registered s -> well_registered (startPollingWithCaching jobId cbs s).
Proof.
  intros H. apply (well_registered_stop jobId) in H.
  pose proof (stopPolling_unregisters jobId s) as [Hnone _].
  unfold startPollingWithCaching.
  destruct H as [H1 H2].
  set (s1 := stopPolling jobId s) in *.
  assert (Hfresh : live s1 !! next_handle s1 = None).
  { destruct (live s1 !! next_handle s1) as [[j c]|] eqn:E; [|reflexivity].
    destruct (H2 _ _ (H1 _ _ _ E)) as [Hlt _]. lia. }
  split; simpl.
  - intros h j c Hl.
    destruct (decide (h = next_handle s1)) as [->|Hne].
    + rewrite lookup_insert_eq in Hl. injection Hl as <- <-.
      apply lookup_insert_eq.
    + rewrite lookup_insert_ne in Hl by congruence.
      specialize (H1 _ _ _ Hl).
      rewrite lookup_insert_ne; [exact H1|]. intros <-. congruence.
  - intros j h Hp.
    destruct (decide (j = jobId)) as [->|Hne].
    + rewrite lookup_insert_eq in Hp. injection Hp as <-.
      split; [lia|]. exists cbs. apply lookup_insert_eq.
    + rewrite lookup_insert_ne in Hp by congruence.
      destruct (H2 _ _ Hp) as [Hlt (c & Hl)].
      split; [lia|]. exists c.
      rewrite lookup_insert_ne; [exact Hl|]. lia.
Qed.

Lemma well_registered_step s e :
  well_registered s -> well_registered (step s e).
Proof.
  intros H. destruct e as [j c | h | i o | j]; simpl.
  - now apply well_registered_start.
  - unfold tick. destruct (live s !! h); [now apply well_registered_inflight | exact H].
  - unfold settle. destruct (inflight s !! i) as [[j c]|]; [|exact H].
    apply (well_registered_inflight s (delete i (inflight s))) in H.
    unfold resume.
    destruct o as [status|err];
      [destruct (get_field status "status") as [st|];
       [destruct (strict_eq st (JStr "completed"));
        [|destruct (strict_eq st (JStr "failed"))]|]|];
      try exact H;
      now apply well_registered_invoke, well_registered_stop.
  - now apply well_registered_stop.
Qed.

Lemma well_registered_run es s :
  well_registered s -> well_registered (run s es).
Proof.
  revert s. induction es as [|e es IH]; intros s H; [exact H|].
  simpl. apply IH. now apply well_registered_step.
Qed.

(** X22. The poller keeps one interval per job. However polling is
    started, restarted, stopped, ticked and settled, for whatever jobs, two
    live intervals never poll the same job; and after [stopPolling(jobId)]
    no live interval polls that job, so that no later tick starts a status
    request for it. *)
Theorem one_interval_per_job es jobId :
  (forall h1 h2 c1 c2,
      live (run init es) !! h1 = Some (jobId, c1) ->
      live (run init es) !! h2 = Some (jobId, c2) ->
      h1 = h2)
  /\ (forall h c, live (stopPolling jobId (run init es)) !! h <> Some (jobId, c))
  /\ (forall h, inflight (tick h (stopPolling jobId (run init es)))
                = inflight (run init es)
                \/ exists other c,
                    other <> jobId
                    /\ inflight (tick h (stopPolling jobId (run init es)))
                       = (inflight (run init es) ++ [(other, c)])%list).
Proof.
  pose proof (well_registered_run es init well_registered_init) as Hw.
  pose proof (well_registered_stop jobId _ Hw) as Hs.
  pose proof (stopPolling_unregisters jobId (run init es)) as [Hnone _].
  assert (Hdead : forall h c, live (stopPolling jobId (run init es)) !! h <> Some (jobId, c)).
  { intros h c Hl. destruct Hs as [H1 _]. specialize (H1 _ _ _ Hl). congruence. }
  split; [|split].
  - intros h1 h2 c1 c2 Ha Hb. destruct Hw as [H1 _].
    pose proof (H1 _ _ _ Ha). pose proof (H1 _ _ _ Hb). congruence.
  - exact Hdead.
  - intros h. unfold tick.
    destruct (live (stopPolling jobId (run init es)) !! h) as [[j c]|] eqn:E; simpl.
    + right. exists j, c. rewrite stopPolling_inflight. split; [|reflexivity].
      intros ->. now apply (Hdead h c).
    + left. apply stopPolling_inflight.
Qed.

(** X23. Stopping the poller does not cancel a status request that is
    already under way: a callback suspended at its request when
    [stopPolling(jobId)] is called still runs to its end once the request
    settles, and calls onComplete when the answer says completed. *)
Theorem stop_does_not_cancel_pending_request s i jobId cbs status :
  inflight s !! i = Some (jobId, cbs) ->
  get_field status "status" = Some (JStr "completed") ->
  calls (settle i (Resolved status) (stopPolling jobId s))
  = (calls s ++ fired (has_onComplete cbs)
                      (OnComplete (JStr jobId) (assoc_field status "result")
                                  (assoc_field status "transcription_data")))%list.
Proof.
  intros Hin Hst. unfold settle.
  rewrite stopPolling_inflight, Hin. unfold resume. rewrite Hst. simpl strict_eq.
  cbv iota. now rewrite calls_invoke, !stopPolling_calls.
Qed.

Lemma stop_does_not_cancel_pending_request_witness :
  calls (run init [Start "job-1" Scenario.all_callbacks; Tick 0; Stop "job-1";
                   Settle 0 Scenario.completed_status])
  = [OnComplete (JStr "job-1") (JObj [("overall_prediction", JStr "AI")]) JNull].
Proof.
  apply (stop_does_not_cancel_pending_request
           (run init [Start "job-1" Scenario.all_callbacks; Tick 0]) 0 "job-1"
           Scenario.all_callbacks
           (JObj [("status", JStr "completed");
                  ("result", JObj [("overall_prediction", JStr "AI")]);
                  ("transcription_data", JNull)]));
    reflexivity.
Defined.

Lemma fold_delete_lookup (m : gmap string nat) (l : gmap nat (string * callbacks)) h x :
  map_fold (fun (_ : string) (h : nat) (l : gmap nat (string * callbacks)) => delete h l)
           l m !! h = Some x ->
  l !! h = Some x /\ forall j, m !! j <> Some h.
Proof.
  revert h x.
  apply (map_fold_weak_ind
           (fun r m => forall h x, r !! h = Some x ->
                                   l !! h = Some x /\ forall j, m !! j <> Some h)).
  - intros h x H. split; [exact H|]. intros j. now rewrite lookup_empty.
  - intros j h0 m0 r Hnone IH h x H.
    apply lookup_delete_Some in H as [Hne H].
    destruct (IH _ _ H) as [Hl Hm]. split; [exact Hl|].
    intros j'. destruct (decide (j' = j)) as [->|Hj].
    + rewrite lookup_insert_eq. congruence.
    + rewrite lookup_insert_ne by congruence. apply Hm.
Qed.

(** X24. [stopAllPolling] stops every interval the poller has started:
    however polling was started and stopped before, afterwards no interval
    is registered or live, so no tick starts a status request any more;
    callbacks already suspended at their request are left to run. *)
Theorem stopAllPolling_clears_every_interval es :
  pollingIntervals (stopAllPolling (run init es)) = ∅
  /\ live (stopAllPolling (run init es)) = ∅
  /\ (forall h, tick h (stopAllPolling (run init es)) = stopAllPolling (run init es))
  /\ inflight (stopAllPolling (run init es)) = inflight (run init es)
  /\ calls (stopAllPolling (run init es)) = calls (run init es).
Proof.
  pose proof (well_registered_run es init well_registered_init) as [H1 _].
  assert (Hl : live (stopAllPolling (run init es)) = ∅).
  { apply map_eq. intros h. rewrite lookup_empty. unfold stopAllPolling. simpl.
    destruct (map_fold _ _ _ !! h) as [[j c]|] eqn:E; [|reflexivity].
    apply fold_delete_lookup in E as [Hlive Hreg].
    now destruct (Hreg j (H1 _ _ _ Hlive)). }
  repeat split; try assumption.
  intros h. unfold tick. rewrite Hl. now rewrite lookup_empty.
Qed.

End RegistryFacts.

(* ===================================================================== *)
(*  From submission to the terminal callback                             *)
(* ===================================================================== *)

Module LifecycleFacts.
Import Obs Api MonadFacts AuthFacts RequestFacts MonitorFacts.

Section WithNetwork.
Variable net : list request -> request -> fetch_outcome.

#[local] Hint Resolve quiet_set_directResults quiet_fetch quiet_makeAuthenticatedRequest
  quiet_resolve_subscription : quiet.

Lemma quiet_submitEnhancedLinkJob link d s :
  keeps quiet (submitEnhancedLinkJob net link d s).
Proof. unfold submitEnhancedLinkJob. quiet_tac. Qed.

Lemma quiet_directAnalyze fileUri fileName : keeps quiet (directAnalyze net fileUri fileName).
Proof. unfold directAnalyze. quiet_tac. Qed.
#[local] Hint Resolve quiet_directAnalyze : quiet.

Lemma quiet_upload_and_report fileUri r : keeps quiet (upload_and_report net fileUri r).
Proof. unfold upload_and_report. quiet_tac. Qed.
#[local] Hint Resolve quiet_upload_and_report : quiet.

Lemma quiet_submitEnhancedFileJob fileUri fileName s :
  keeps quiet (submitEnhancedFileJob net fileUri fileName s).
Proof. unfold submitEnhancedFileJob. quiet_tac. Qed.

(** A submission that resolves has set exactly one monitor timer, 3 s
    ahead, for the job id it resolves with, and has called no subscriber. *)
Lemma submitAndMonitor_timer linkOrFileUri cbs sub isFile fileName w jobId w1 :
  submitAndMonitor net linkOrFileUri cbs sub isFile fileName w = (Ok jobId, w1) ->
  exists hs,
    timers w1 = (timers w ++ [PollClosure jobId hs cbs])%list
    /\ calls_of w1 = calls_of w
    /\ timeouts_of w1 = (timeouts_of w ++ [3000])%list.
Proof.
  unfold submitAndMonitor. intros H.
  unfold bind at 1 in H.
  pose proof (quiet_resolve_subscription net sub w) as Q1.
  destruct (resolve_subscription net sub w) as [[hs| |] wa]; try discriminate.
  simpl in Q1. unfold bind at 1 in H.
  assert (Q2 : forall m : M jsval, keeps quiet m ->
                 match m wa with
                 | (Ok jr, wb) => quiet w wb
                 | _ => True
                 end).
  { intros m Hm. specialize (Hm wa). destruct (m wa) as [[jr| |] wb]; auto.
    eapply quiet_trans; eauto. }
  set (submit := if isFile
                 then submitEnhancedFileJob net (Str.to_text linkOrFileUri) fileName hs
                 else submitEnhancedLinkJob net linkOrFileUri JNull hs) in *.
  assert (Hq : keeps quiet submit).
  { unfold submit. destruct isFile;
      [apply quiet_submitEnhancedFileJob | apply quiet_submitEnhancedLinkJob]. }
  specialize (Q2 submit Hq).
  destruct (submit wa) as [[jobResponse| |] wb]; try discriminate.
  destruct Q2 as (Ht & Hc & Hto).
  unfold field in H. destruct (get_field jobResponse "job_id") as [j|]; [|discriminate].
  unfold bind, ret, setTimeout_monitorJob, bind, modify, emit, modify in H.
  injection H as <- <-.
  exists hs. unfold calls_of, timeouts_of in *. simpl.
  rewrite !omap_app, Ht, Hc, Hto. simpl. rewrite app_nil_r. auto.
Qed.

Lemma ends_terminal_one made :
  ends_terminal made -> Polling.terminal_calls made = 1%nat.
Proof.
  intros (before & t & -> & Ht & Hb).
  rewrite terminal_calls_cat, Hb. unfold Polling.terminal_calls. simpl. now rewrite Ht.
Qed.

Section ReturningSubscribers.
Variable throws : call -> option error.
Hypothesis Hreturn : forall c, throws c = None.

Lemma invoke_returning present c w :
  Subscribers.invoke throws present c w = invoke present c w.
Proof.
  unfold Subscribers.invoke, invoke, rejecting. rewrite Hreturn.
  now destruct present.
Qed.

(** With subscribers that return, [monitorJob] is the function of [Api]. *)
Lemma monitorJob_returning c w :
  Subscribers.monitorJob net throws c w = monitorJob net c w.
Proof.
  unfold Subscribers.monitorJob, monitorJob, try_catch, bind.
  destruct (getEnhancedJobStatus net (pc_jobId c) (pc_hasSubscription c) w)
    as [[st|e|] w0]; [| apply invoke_returning | reflexivity].
  rewrite invoke_returning.
  destruct (invoke (has_onUpdate (pc_callbacks c)) _ w0) as [[[]|e|] w1];
    [| apply invoke_returning | reflexivity].
  destruct (strict_eq (st_status st) (JStr "completed")).
  { rewrite invoke_returning.
    destruct (invoke (has_onComplete (pc_callbacks c)) _ w1) as [[[]|e|] w2];
      [reflexivity | apply invoke_returning | reflexivity]. }
  destruct (strict_eq (st_status st) (JStr "failed")).
  { rewrite invoke_returning.
    destruct (invoke (has_onError (pc_callbacks c)) _ w1) as [[[]|e|] w2];
      [reflexivity | apply invoke_returning | reflexivity]. }
  destruct (setTimeout_monitorJob c 2000 w1) as [[[]|e|] w2];
    [reflexivity | apply invoke_returning | reflexivity].
Qed.

Lemma run_timers_returning n w :
  Subscribers.run_timers net throws n w = run_timers net n w.
Proof.
  revert w. induction n as [|n IH]; intros w; [reflexivity|].
  simpl. unfold bind.
  assert (Hfire : Subscribers.fire_timer net throws w = fire_timer net w).
  { unfold Subscribers.fire_timer, fire_timer, try_catch.
    destruct (timers w) as [|c rest]; [reflexivity|].
    rewrite monitorJob_returning.
    destruct (monitorJob_step net c (set_timers (fun _ => rest) w))
      as (w1 & made & E & _).
    now rewrite E. }
  rewrite Hfire. destruct (fire_timer net w) as [[[]|e|] w1]; auto.
Qed.

End ReturningSubscribers.

(** X21. A job submitted through [submitAndMonitor] is reported at most
    once to subscribers that return. When no monitor timer is pending and
    the submission resolves, it has called no subscriber and set one timer,
    3 s ahead; and, provided no callback of the subscriber throws, however
    many timer firings the event loop then runs, every one of them
    resolves, at most one of onComplete/onError is called, it is the last
    call made, and after it no timer is left. (A callback that throws
    inside [monitorJob] is reported through onError as well.) *)
Theorem submitted_job_is_reported_once
        throws linkOrFileUri cbs sub isFile fileName w jobId w1 n :
  (forall c, throws c = None) ->
  timers w = [] ->
  submitAndMonitor net linkOrFileUri cbs sub isFile fileName w = (Ok jobId, w1) ->
  calls_of w1 = calls_of w
  /\ timeouts_of w1 = (timeouts_of w ++ [3000])%list
  /\ exists w2 made,
      Subscribers.run_timers net throws n w1 = (Ok tt, w2)
      /\ calls_of w2 = (calls_of w1 ++ made)%list
      /\ (Polling.terminal_calls made <= 1)%nat
      /\ (Polling.terminal_calls made = 1%nat -> timers w2 = [] /\ ends_terminal made).
Proof.
  intros Hreturn Ht H.
  destruct (submitAndMonitor_timer _ _ _ _ _ _ _ _ H) as (hs & Htm & Hc & Hto).
  rewrite Ht in Htm. simpl in Htm.
  split; [exact Hc|]. split; [exact Hto|].
  destruct (monitor_chain_at_most_one_terminal net _ w1 n Htm) as (w2 & made & E & Hm & Hst).
  exists w2, made. rewrite (run_timers_returning throws Hreturn).
  split; [exact E|]. split; [exact Hm|].
  destruct Hst as [[H0 _] | [Hnil Hend]].
  - split; [lia|]. intros H1. lia.
  - pose proof (ends_terminal_one made Hend). split; [lia|]. auto.
Qed.

(** X20. [checkJobStatus] resolves only with the body of a 2xx answer of
    the remote side to a request for [/neural/job_status/<jobId>], and never
    with null: a body that is null makes it reject, because its log lines
    read [result.status]. *)
Theorem checkJobStatus_resolves_with_body jobId w result w1 :
  checkJobStatus net jobId w = (Ok result, w1) ->
  (exists r,
      answered_by net (baseURL ++ "/neural/job_status/" ++ Str.to_text jobId) r
      /\ ok r = true /\ json r = Some result)
  /\ result <> JNull /\ result <> JUndefined.
Proof.
  unfold checkJobStatus. intros H. unfold bind at 1 in H.
  pose proof (makeAuthenticatedRequest_answered net
                ("/neural/job_status/" ++ Str.to_text jobId) no_options 0 w) as Ha.
  destruct (makeAuthenticatedRequest net _ no_options 0 w) as [[r| |] w0] eqn:E;
    try discriminate.
  simpl in Ha. specialize (Ha r eq_refl).
  pose proof (makeAuthenticatedRequest_ok net _ _ _ _ _ _ E) as Hok.
  rewrite Hok in H. cbn [negb] in H. cbv iota in H.
  unfold bind, read_json, field in H.
  destruct (json r) as [body|] eqn:Hj; [|discriminate].
  unfold ret at 1 in H.
  destruct (get_field body "status") eqn:Hs; [|discriminate].
  unfold ret at 1 in H.
  destruct (get_field body "tier"); [|discriminate].
  injection H as <- <-.
  split; [now exists r|].
  split; intros ->; discriminate.
Qed.

End WithNetwork.

Lemma submitted_job_is_reported_once_witness :
  exists w1 w2 made,
    submitAndMonitor Scenario.net_target_down (JStr "file:///a.mp3") Scenario.all_callbacks
                     (JBool false) true (JStr "a.mp3") Scenario.fresh
    = (Ok (JStr "direct_1700000007000"), w1)
    /\ Subscribers.run_timers Scenario.net_target_down (fun _ => None) 3 w1 = (Ok tt, w2)
    /\ calls_of w2 = (calls_of w1 ++ made)%list
    /\ (Polling.terminal_calls made <= 1)%nat.
Proof.
  destruct (submitAndMonitor Scenario.net_target_down (JStr "file:///a.mp3")
              Scenario.all_callbacks (JBool false) true (JStr "a.mp3") Scenario.fresh)
    as [r w1] eqn:E.
  assert (Hr : r = Ok (JStr "direct_1700000007000")).
  { apply (f_equal fst) in E. vm_compute in E. now subst r. }
  subst r.
  destruct (submitted_job_is_reported_once Scenario.net_target_down (fun _ => None)
              (JStr "file:///a.mp3")
              Scenario.all_callbacks (JBool false) true (JStr "a.mp3") Scenario.fresh
              (JStr "direct_1700000007000") w1 3 (fun _ => eq_refl) eq_refl E)
    as (_ & _ & w2 & made & Er & Hc & Hle & _).
  exists w1, w2, made. auto.
Defined.

(** A subscriber whose onComplete throws is told twice: the error reaches
    the catch of [monitorJob], which calls onError with its message. *)
Example throwing_onComplete_is_followed_by_onError :
  let w1 := snd (submitAndMonitor Scenario.net_target_down (JStr "file:///a.mp3")
                   Scenario.all_callbacks (JBool false) true (JStr "a.mp3")
                   Scenario.fresh) in
  let w2 := snd (Subscribers.run_timers Scenario.net_target_down
                   Subscribers.onComplete_throws 1 w1) in
  fst (Subscribers.run_timers Scenario.net_target_down
         Subscribers.onComplete_throws 1 w1) = Ok tt
  /\ Polling.terminal_calls (calls_of w2) = 2%nat
  /\ last (calls_of w2)
     = Some (OnError (JStr "direct_1700000007000")
                     (JStr "Cannot update an unmounted screen"))
  /\ timers w2 = [].
Proof. vm_compute. repeat split. Qed.

Lemma checkJobStatus_resolves_with_body_witness :
  fst (checkJobStatus Scenario.net_401_401_200 (JStr "job-1") Scenario.fresh)
  = Ok (JObj [("has_subscription", JBool true)])
  /\ exists r,
      answered_by Scenario.net_401_401_200
                  "https://your-api-domain.com/neural/job_status/job-1" r
      /\ ok r = true /\ json r = Some (JObj [("has_subscription", JBool true)]).
Proof.
  split; [vm_compute; reflexivity|].
  eapply (checkJobStatus_resolves_with_body Scenario.net_401_401_200 (JStr "job-1")
            Scenario.fresh).
  vm_compute. reflexivity.
Defined.

End LifecycleFacts.

(* ===================================================================== *)
(*  Stored job updates: delivery and clean-up                            *)
(* ===================================================================== *)

Module UpdateFacts.
Import Str ResultCache Updates.

Lemma assoc_set_prop_eq k v fs : assoc k (set_prop k v fs) = v.
Proof.
  induction fs as [|[k' v'] rest IH]; simpl.
  - now rewrite String.eqb_refl.
  - destruct (String.eqb k k') eqn:E; simpl.
    + now rewrite String.eqb_refl.
    + now rewrite E.
Qed.

Lemma assoc_set_prop_ne k k' v fs :
  k <> k' -> assoc k (set_prop k' v fs) = assoc k fs.
Proof.
  intros Hne. induction fs as [|[k0 v0] rest IH]; simpl.
  - apply String.eqb_neq in Hne. now rewrite Hne.
  - destruct (String.eqb k' k0) eqn:E; simpl.
    + apply String.eqb_eq in E as <-.
      apply String.eqb_neq in Hne. now rewrite Hne.
    + now rewrite IH.
Qed.

(** Serializing an object keeps every property whose value is not
    undefined, under its name. *)
Lemma assoc_json_roundtrip k fs :
  assoc k fs <> JUndefined ->
  assoc_field (json_roundtrip (JObj fs)) k = json_roundtrip (assoc k fs).
Proof.
  unfold assoc_field, get_field.
  induction fs as [|[k' x] rest IH]; simpl; [congruence|].
  destruct (String.eqb k k') eqn:E.
  - intros Hx. destruct x; try congruence; simpl; now rewrite E.
  - intros Hx. specialize (IH Hx). simpl in IH.
    destruct x; simpl; rewrite ?E; exact IH.
Qed.

Lemma update_key_prefix jobId : startsWith "job_update_" (update_key jobId) = true.
Proof. unfold startsWith, update_key. simpl. now destruct (to_text jobId). Qed.

(** X25. A stored push update is delivered once. After
    [handleJobNotification] has stored the update of a delivery,
    [checkPendingUpdates] with the delivery's job id returns that record
    (the delivery's own data with the time of receipt, title and body laid
    over it) and removes it, so that a second check returns null; a check
    for a job with another key leaves the record in place. *)
Theorem stored_update_is_delivered_once data jobId title body now (st : gmap string text) :
  get_field data "job_id" = Some jobId ->
  checkPendingUpdates jobId (storeUpdate data title body now st)
  = (update_record data title body now, delete (update_key jobId) st)
  /\ fst (checkPendingUpdates jobId
            (snd (checkPendingUpdates jobId (storeUpdate data title body now st))))
     = JNull
  /\ assoc_field (update_record data title body now) "receivedAt" = JNum now
  /\ (forall k, k <> "receivedAt" -> k <> "title" -> k <> "body" ->
        assoc k (spread data) <> JUndefined ->
        assoc_field (update_record data title body now) k
        = json_roundtrip (assoc k (spread data)))
  /\ (forall other, update_key other <> update_key jobId ->
        snd (checkPendingUpdates other (storeUpdate data title body now st))
        !! update_key jobId
        = Some (TJson (update_record data title body now))).
Proof.
  intros Hj. unfold storeUpdate. rewrite Hj.
  assert (E : checkPendingUpdates jobId
                (<[update_key jobId := TJson (update_record data title body now)]> st)
              = (update_record data title body now, delete (update_key jobId) st)).
  { unfold checkPendingUpdates. rewrite lookup_insert_eq. now rewrite delete_insert_eq. }
  split; [exact E|]. rewrite E. simpl.
  split; [unfold checkPendingUpdates; now rewrite lookup_delete_eq|].
  split.
  { unfold update_record. rewrite assoc_json_roundtrip.
    - rewrite !assoc_set_prop_ne by discriminate. now rewrite assoc_set_prop_eq.
    - rewrite !assoc_set_prop_ne by discriminate. rewrite assoc_set_prop_eq. discriminate. }
  split.
  { intros k H1 H2 H3 Hv. unfold update_record.
    rewrite assoc_json_roundtrip; rewrite !assoc_set_prop_ne by congruence; auto. }
  intros other Hne. unfold checkPendingUpdates.
  rewrite lookup_insert_ne by congruence.
  destruct (st !! update_key other) as [[| |v]|]; simpl;
    rewrite ?lookup_delete_ne by congruence; apply lookup_insert_eq.
Qed.

Lemma stored_update_is_delivered_once_witness :
  fst (checkPendingUpdates (JStr "job-1")
         (storeUpdate (JObj [("job_id", JStr "job-1"); ("status", JStr "COMPLETED")])
                      (JStr "Done") JUndefined 1700000000000 ∅))
  = JObj [("job_id", JStr "job-1"); ("status", JStr "COMPLETED");
          ("receivedAt", JNum 1700000000000); ("title", JStr "Done")].
Proof.
  rewrite (proj1 (stored_update_is_delivered_once
                    (JObj [("job_id", JStr "job-1"); ("status", JStr "COMPLETED")])
                    (JStr "job-1") (JStr "Done") JUndefined 1700000000000 ∅ eq_refl)).
  reflexivity.
Defined.

Section Cleanup.
Variable coerced_lt : jsval -> Z -> bool.

Lemma cleanup_key_other now k k' (st : gmap string text) :
  k <> k' -> cleanup_key coerced_lt now k st !! k' = st !! k'.
Proof.
  intros Hne. unfold cleanup_key.
  destruct (st !! k) as [[| |parsed]|]; try reflexivity.
  - now apply lookup_delete_ne.
  - destruct (is_old coerced_lt now parsed) as [[|]|]; try reflexivity;
      now apply lookup_delete_ne.
Qed.

(** What one pass of the loop leaves under its key depends only on what
    was stored under that key. *)
Lemma cleanup_key_self now k (st st' : gmap string text) :
  st !! k = st' !! k ->
  cleanup_key coerced_lt now k st !! k = cleanup_key coerced_lt now k st' !! k.
Proof.
  intros H. unfold cleanup_key. rewrite <- H.
  destruct (st !! k) as [[| |parsed]|] eqn:E; try congruence.
  - now rewrite !lookup_delete_eq.
  - destruct (is_old coerced_lt now parsed) as [[|]|];
      rewrite ?lookup_delete_eq; congruence.
Qed.

Lemma cleanup_fold now ks k (st : gmap string text) :
  NoDup ks ->
  fold_left (fun s key => cleanup_key coerced_lt now key s) ks st !! k
  = if decide (k ∈ ks) then cleanup_key coerced_lt now k st !! k else st !! k.
Proof.
  revert st. induction ks as [|k0 ks IH]; intros st Hnd; simpl.
  - destruct (decide (k ∈ [])) as [Hin|_]; [|reflexivity]. now apply elem_of_nil in Hin.
  - apply NoDup_cons in Hnd as [Hnotin Hnd]. rewrite (IH _ Hnd).
    destruct (decide (k = k0)) as [->|Hne].
    + destruct (decide (k0 ∈ ks)) as [Hin|_]; [contradiction|].
      destruct (decide (k0 ∈ k0 :: ks)) as [_|Hnot]; [reflexivity|].
      exfalso. apply Hnot. apply elem_of_cons. now left.
    + destruct (decide (k ∈ ks)) as [Hin|Hnin].
      * destruct (decide (k ∈ k0 :: ks)) as [_|Hnot].
        -- apply cleanup_key_self. apply cleanup_key_other. congruence.
        -- exfalso. apply Hnot. apply elem_of_cons. now right.
      * destruct (decide (k ∈ k0 :: ks)) as [Hin'|_].
        -- apply elem_of_cons in Hin' as [?|?]; contradiction.
        -- apply cleanup_key_other. congruence.
Qed.

Lemma cleanup_lookup now k (st : gmap string text) :
  cleanupOldUpdates coerced_lt now st !! k
  = if startsWith "job_update_" k then cleanup_key coerced_lt now k st !! k else st !! k.
Proof.
  unfold cleanupOldUpdates. rewrite cleanup_fold.
  2:{ apply NoDup_ListNoDup, List.NoDup_filter, NoDup_ListNoDup, NoDup_fst_map_to_list. }
  destruct (decide (k ∈ _)) as [Hin|Hnin].
  - apply list_elem_of_In, List.filter_In in Hin as [_ Hp]. now rewrite Hp.
  - destruct (startsWith "job_update_" k) eqn:Hp; [|reflexivity].
    destruct (st !! k) as [t|] eqn:E.
    + exfalso. apply Hnin. apply list_elem_of_In, List.filter_In. split; [|exact Hp].
      apply list_elem_of_In. apply list_elem_of_fmap. exists (k, t). split; [reflexivity|].
      now apply elem_of_map_to_list.
    + unfold cleanup_key. now rewrite E.
Qed.

(** X26. [cleanupOldUpdates] removes stale and unreadable job updates and
    nothing else. Keys that do not start with "job_update_" are left
    alone; what happens to one update does not depend on the others; an
    update whose [receivedAt] is a number not older than 24 hours stays; one
    with a non-zero [receivedAt] older than 24 hours goes, and so does text
    that does not parse. *)
Theorem cleanup_removes_only_old_updates now k (st : gmap string text) :
  (startsWith "job_update_" k = false -> cleanupOldUpdates coerced_lt now st !! k = st !! k)
  /\ (startsWith "job_update_" k = true ->
      cleanupOldUpdates coerced_lt now st !! k = cleanup_key coerced_lt now k st !! k)
  /\ (forall parsed t,
        st !! k = Some (TJson parsed) ->
        get_field parsed "receivedAt" = Some (JNum t) ->
        now - 86400000 <= t ->
        cleanupOldUpdates coerced_lt now st !! k = st !! k)
  /\ (forall parsed t,
        startsWith "job_update_" k = true ->
        st !! k = Some (TJson parsed) ->
        get_field parsed "receivedAt" = Some (JNum t) ->
        t <> 0 -> t < now - 86400000 ->
        cleanupOldUpdates coerced_lt now st !! k = None)
  /\ (startsWith "job_update_" k = true -> st !! k = Some TGarbage ->
      cleanupOldUpdates coerced_lt now st !! k = None).
Proof.
  rewrite cleanup_lookup.
  split; [now intros ->|]. split; [now intros ->|].
  split; [|split].
  - intros parsed t Hst Hr Hrecent.
    destruct (startsWith "job_update_" k); [|reflexivity].
    unfold cleanup_key, is_old. rewrite Hst, Hr. simpl.
    replace (t <? now - 24 * 60 * 60 * 1000) with false by lia.
    now rewrite andb_false_r.
  - intros parsed t -> Hst Hr Ht Hold.
    unfold cleanup_key, is_old. rewrite Hst, Hr. simpl.
    replace (t <? now - 24 * 60 * 60 * 1000) with true by lia.
    apply Z.eqb_neq in Ht. rewrite Ht. simpl. apply lookup_delete_eq.
  - intros -> Hst. unfold cleanup_key. rewrite Hst. apply lookup_delete_eq.
Qed.

(** X27. A stored update can be collected for 24 hours. An update that
    [handleJobNotification] stored at time [t0] and that
    [cleanupOldUpdates] passes over at time [t1] is still returned by
    [checkPendingUpdates] when [t1 - t0] is at most 24 hours, and is gone
    when it is more. *)
Theorem stored_update_expires_after_a_day data jobId title body t0 t1
        (st : gmap string text) :
  get_field data "job_id" = Some jobId -> 0 < t0 ->
  fst (checkPendingUpdates jobId
         (cleanupOldUpdates coerced_lt t1 (storeUpdate data title body t0 st)))
  = if t0 <? t1 - 86400000 then JNull else update_record data title body t0.
Proof.
  intros Hj Ht0.
  destruct (stored_update_is_delivered_once data jobId title body t0 st Hj)
    as (_ & _ & Hr & _).
  unfold checkPendingUpdates. rewrite cleanup_lookup, update_key_prefix.
  unfold storeUpdate. rewrite Hj.
  unfold cleanup_key. rewrite lookup_insert_eq.
  unfold is_old.
  assert (Hf : get_field (update_record data title body t0) "receivedAt" = Some (JNum t0)).
  { unfold assoc_field in Hr. unfold update_record in *. simpl in *.
    now rewrite Hr. }
  rewrite Hf. simpl.
  replace (t0 =? 0) with false by lia. simpl.
  change (t1 - 24 * 60 * 60 * 1000) with (t1 - 86400000).
  destruct (t0 <? t1 - 86400000).
  - now rewrite lookup_delete_eq.
  - now rewrite lookup_insert_eq.
Qed.

End Cleanup.

Lemma stored_update_expires_after_a_day_witness :
  fst (checkPendingUpdates (JStr "job-1")
         (cleanupOldUpdates (fun _ _ => false) 1700086400001
            (storeUpdate (JObj [("job_id", JStr "job-1")]) (JStr "Done") (JStr "Ready")
                         1700000000000 ∅)))
  = JNull.
Proof.
  rewrite (stored_update_expires_after_a_day (fun _ _ => false)
             (JObj [("job_id", JStr "job-1")]) (JStr "job-1") (JStr "Done") (JStr "Ready")
             1700000000000 1700086400001 ∅ eq_refl); [reflexivity | lia].
Defined.

End UpdateFacts.

(* ===================================================================== *)
(*  File validation: what an accepted file is, and sanitized names       *)
(* ===================================================================== *)

Module FileValidatorFacts.
Import Str FileValidator.

Lemma list_includes_cases x l :
  list_includes x l = true -> In x l.
Proof.
  unfold list_includes. intros H. apply existsb_exists in H as (y & Hin & Hy).
  apply String.eqb_eq in Hy. now subst.
Qed.

(** X28. What [validateAudioFile] accepts. An accepted file has one of the
    four supported extensions (compared in lower case) and a MIME type that
    belongs to that extension: audio/mpeg or audio/mp3 for .mp3, audio/wav
    or audio/x-wav for .wav, audio/m4a or audio/mp4 for .m4a, and audio/aac
    alone for .aac; its size, when the picker reports one, lies between
    1 KB and 25 MB; and the metadata returned are the file's own. *)
Theorem accepted_file_is_consistent f m :
  validateAudioFile (Some f) = Accepted m ->
  (exists mime,
      f_mimeType f = Some mime
      /\ ((getFileExtension (f_name f) = ".mp3"
           /\ (mime = "audio/mpeg" \/ mime = "audio/mp3"))
          \/ (getFileExtension (f_name f) = ".wav"
              /\ (mime = "audio/wav" \/ mime = "audio/x-wav"))
          \/ (getFileExtension (f_name f) = ".m4a"
              /\ (mime = "audio/m4a" \/ mime = "audio/mp4"))
          \/ (getFileExtension (f_name f) = ".aac" /\ mime = "audio/aac")))
  /\ (forall n, f_size f = Some n -> 1024 <= n <= 26214400)
  /\ m = Metadata (f_name f) (f_size f) (f_mimeType f) (getFileExtension (f_name f)).
Proof.
  unfold validateAudioFile, validateBasicProperties, validateFileHeader.
  destruct (_ || _); [discriminate|].
  destruct (list_includes (getFileExtension (f_name f)) SUPPORTED_EXTENSIONS) eqn:Hext;
    [|discriminate].
  cbn [negb]. cbv iota.
  destruct (f_mimeType f) as [mime|] eqn:Hm; [|discriminate].
  destruct (list_includes mime SUPPORTED_AUDIO_TYPES) eqn:Hmime; [|discriminate].
  cbn [negb]. cbv iota.
  apply list_includes_cases in Hext. apply list_includes_cases in Hmime.
  simpl in Hext, Hmime.
  intros H.
  assert (Hpair :
            (exists mime0, Some mime = Some mime0
               /\ ((getFileExtension (f_name f) = ".mp3"
                    /\ (mime0 = "audio/mpeg" \/ mime0 = "audio/mp3"))
                   \/ (getFileExtension (f_name f) = ".wav"
                       /\ (mime0 = "audio/wav" \/ mime0 = "audio/x-wav"))
                   \/ (getFileExtension (f_name f) = ".m4a"
                       /\ (mime0 = "audio/m4a" \/ mime0 = "audio/mp4"))
                   \/ (getFileExtension (f_name f) = ".aac" /\ mime0 = "audio/aac")))
            /\ (forall n, f_size f = Some n -> 1024 <= n <= 26214400)
            /\ m = Metadata (f_name f) (f_size f) (Some mime)
                            (getFileExtension (f_name f))).
  { destruct Hext as [He | [He | [He | [He | []]]]]; rewrite <- He in *;
      destruct Hmime as [Hx | [Hx | [Hx | [Hx | [Hx | [Hx | [Hx | []]]]]]]];
      rewrite <- Hx in *; simpl in H;
      repeat match type of H with
        | context [match f_size f with _ => _ end] =>
            destruct (f_size f) as [n|] eqn:Hs;
            [unfold MIN_FILE_SIZE, MAX_FILE_SIZE in H;
             destruct (n <? 1024) eqn:E1; [discriminate|];
             destruct (25 * 1024 * 1024 <? n) eqn:E2; [discriminate|] |]
        end;
      try discriminate; injection H as <-;
      (split; [eexists; split; [reflexivity|]; tauto|]);
      (split; [|reflexivity]); intros n' Hn'; try discriminate;
      injection Hn' as <-; lia. }
  exact Hpair.
Qed.

Lemma accepted_file_is_consistent_witness :
  exists mime,
    Some "audio/mpeg" = Some mime
    /\ ((getFileExtension "Interview.MP3" = ".mp3"
         /\ (mime = "audio/mpeg" \/ mime = "audio/mp3"))
        \/ (getFileExtension "Interview.MP3" = ".wav"
            /\ (mime = "audio/wav" \/ mime = "audio/x-wav"))
        \/ (getFileExtension "Interview.MP3" = ".m4a"
            /\ (mime = "audio/m4a" \/ mime = "audio/mp4"))
        \/ (getFileExtension "Interview.MP3" = ".aac" /\ mime = "audio/aac")).
Proof.
  apply (accepted_file_is_consistent
           (File "Interview.MP3" (Some "audio/mpeg") (Some 500000))
           (Metadata "Interview.MP3" (Some 500000) (Some "audio/mpeg") ".mp3")).
  reflexivity.
Defined.

(* --------------------------------------------------------------------- *)
(*  Extensions and the patterns of the security check                    *)
(* --------------------------------------------------------------------- *)

Lemma lower_char_dot c : Ascii.eqb (lower_char c) "." = Ascii.eqb c ".".
Proof. destruct c as [[] [] [] [] [] [] [] []]; reflexivity. Qed.

Lemma lastIndexOf_lower s : lastIndexOf "." (toLowerCase s) = lastIndexOf "." s.
Proof.
  induction s as [|c r IH]; simpl; [reflexivity|].
  now rewrite IH, lower_char_dot.
Qed.

Lemma substring_from_lower n s :
  toLowerCase (substring_from n s) = substring_from n (toLowerCase s).
Proof.
  revert s. induction n as [|n IH]; intros [|c r]; simpl; auto.
Qed.

(** The extension, read off the lower-cased name. *)
Lemma getFileExtension_lower name :
  name <> "" ->
  getFileExtension name
  = match lastIndexOf "." (toLowerCase name) with
    | None => ""
    | Some i => substring_from i (toLowerCase name)
    end.
Proof.
  intros Hne. unfold getFileExtension.
  apply String.eqb_neq in Hne. rewrite Hne, lastIndexOf_lower.
  destruct (lastIndexOf "." name); [apply substring_from_lower | reflexivity].
Qed.

(** A name that ends, case aside, in a dot followed by dot-free
    characters has exactly that as its extension. *)
Lemma endsWith_i_extension q name :
  lastIndexOf "." q = None ->
  endsWith_i (String "." q) name = true ->
  match lastIndexOf "." (toLowerCase name) with
  | None => ""
  | Some i => substring_from i (toLowerCase name)
  end = String "." q.
Proof.
  intros Hq. induction name as [|c r IH]; cbn [endsWith_i toLowerCase lastIndexOf].
  - intros H. apply orb_true_iff in H as [H | H]; [|discriminate].
    apply String.eqb_eq in H. discriminate.
  - intros H. apply orb_true_iff in H as [H | H].
    + apply String.eqb_eq in H. injection H as Hc Hr.
      rewrite <- Hr, Hq, <- Hc. reflexivity.
    + specialize (IH H).
      destruct (lastIndexOf "." (toLowerCase r)) as [i|]; [exact IH | discriminate].
Qed.

Lemma endsWith_i_nonempty p name : endsWith_i (String "." p) name = true -> name <> "".
Proof. intros H ->. discriminate. Qed.

(** None of the patterns of the security check matches a name whose
    extension is supported. *)
Lemma supported_not_suspicious name :
  list_includes (getFileExtension name) SUPPORTED_EXTENSIONS = true ->
  existsb (fun pattern => endsWith_i pattern name) suspiciousPatterns = false.
Proof.
  intros Hext.
  destruct (existsb _ suspiciousPatterns) eqn:E; [|reflexivity].
  exfalso. apply existsb_exists in E as (pat & Hin & Hend).
  simpl in Hin.
  repeat (destruct Hin as [<- | Hin];
          [ pose proof (endsWith_i_nonempty _ _ Hend) as Hne;
            rewrite (getFileExtension_lower name Hne) in Hext;
            match type of Hend with
            | endsWith_i (String _ ?q) _ = true =>
                rewrite (endsWith_i_extension q name eq_refl Hend) in Hext
            end;
            vm_compute in Hext; discriminate |]).
  exact Hin.
Qed.

(** A name with a supported extension contains a dot. *)
Lemma supported_has_dot name :
  list_includes (getFileExtension name) SUPPORTED_EXTENSIONS = true ->
  lastIndexOf "." name <> None.
Proof.
  unfold getFileExtension. intros H Hnone. rewrite Hnone in H.
  destruct (String.eqb name ""); discriminate.
Qed.

(** X29. The security check never finds a validated file suspicious. For
    a file that passes [validateBasicProperties], none of the
    executable-or-script patterns of [performSecurityCheck] matches its
    name; the check fails only for a name with more than one dot (such as
    "my.song.mp3"), and passes otherwise. *)
Theorem validated_file_is_never_suspicious f :
  validateBasicProperties (Some f) = BasicPassed ->
  performSecurityCheck f
  = (if (2 <? length (split "." (f_name f)))%nat then MultipleExtensions else SecurityPassed)
  /\ lastIndexOf "." (f_name f) <> None.
Proof.
  unfold validateBasicProperties. intros H.
  destruct (_ || _); [discriminate|].
  destruct (list_includes (getFileExtension (f_name f)) SUPPORTED_EXTENSIONS) eqn:Hext;
    [|discriminate].
  split; [|now apply supported_has_dot].
  unfold performSecurityCheck. now rewrite (supported_not_suspicious _ Hext).
Qed.

Lemma validated_file_is_never_suspicious_witness :
  performSecurityCheck (File "my.song.mp3" (Some "audio/mpeg") (Some 500000))
  = MultipleExtensions
  /\ performSecurityCheck (File "song.mp3" (Some "audio/mpeg") None) = SecurityPassed.
Proof.
  split.
  - rewrite (proj1 (validated_file_is_never_suspicious
                      (File "my.song.mp3" (Some "audio/mpeg") (Some 500000)) eq_refl)).
    reflexivity.
  - rewrite (proj1 (validated_file_is_never_suspicious
                      (File "song.mp3" (Some "audio/mpeg") None) eq_refl)).
    reflexivity.
Defined.

(* --------------------------------------------------------------------- *)
(*  Sanitized names                                                      *)
(* --------------------------------------------------------------------- *)

Lemma safe_replace s :
  Forall (fun c => dangerous c = false) (list_ascii_of_string (replace_dangerous s)).
Proof.
  induction s as [|c r IH]; simpl; constructor; [|exact IH].
  destruct (dangerous c) eqn:E; [reflexivity | exact E].
Qed.

Lemma safe_drop_leading (P : ascii -> Prop) p s :
  Forall P (list_ascii_of_string s) ->
  Forall P (list_ascii_of_string (drop_leading p s)).
Proof.
  induction s as [|c r IH]; simpl; intros H; [constructor|].
  inversion H; subst. destruct (p c); [now apply IH | now constructor].
Qed.

Lemma safe_drop_trailing (P : ascii -> Prop) p s :
  Forall P (list_ascii_of_string s) ->
  Forall P (list_ascii_of_string (drop_trailing p s)).
Proof.
  induction s as [|c r IH]; simpl; intros H; [constructor|].
  inversion H; subst. specialize (IH ltac:(assumption)).
  destruct (drop_trailing p r) as [|c' r'].
  - destruct (p c); simpl; [constructor | now constructor].
  - simpl. now constructor.
Qed.

Lemma safe_substring_to (P : ascii -> Prop) n s :
  Forall P (list_ascii_of_string s) ->
  Forall P (list_ascii_of_string (substring_to n s)).
Proof.
  revert s. induction n as [|n IH]; intros [|c r] H; simpl; try constructor.
  - now inversion H.
  - apply IH. now inversion H.
Qed.

Lemma safe_substring_from (P : ascii -> Prop) n s :
  Forall P (list_ascii_of_string s) ->
  Forall P (list_ascii_of_string (substring_from n s)).
Proof.
  revert s. induction n as [|n IH]; intros [|c r] H; simpl; auto.
  apply IH. now inversion H.
Qed.

Lemma lower_char_safe c : dangerous c = false -> dangerous (lower_char c) = false.
Proof. destruct c as [[] [] [] [] [] [] [] []]; vm_compute; auto. Qed.

Lemma safe_lower s :
  Forall (fun c => dangerous c = false) (list_ascii_of_string s) ->
  Forall (fun c => dangerous c = false) (list_ascii_of_string (toLowerCase s)).
Proof.
  induction s as [|c r IH]; simpl; intros H; [constructor|].
  inversion H; subst. constructor; [now apply lower_char_safe | now apply IH].
Qed.

Lemma list_ascii_app a b :
  list_ascii_of_string (a ++ b) = (list_ascii_of_string a ++ list_ascii_of_string b)%list.
Proof. induction a as [|c r IH]; simpl; [reflexivity | now rewrite IH]. Qed.

Lemma safe_extension s :
  Forall (fun c => dangerous c = false) (list_ascii_of_string s) ->
  Forall (fun c => dangerous c = false) (list_ascii_of_string (getFileExtension s)).
Proof.
  intros H. unfold getFileExtension.
  destruct (String.eqb s ""); [constructor|].
  destruct (lastIndexOf "." s); [|constructor].
  now apply safe_lower, safe_substring_from.
Qed.

Lemma safe_cleaned filename :
  Forall (fun c => dangerous c = false) (list_ascii_of_string (cleaned filename)).
Proof.
  unfold cleaned.
  destruct (String.eqb _ ""); [repeat constructor|].
  unfold trim.
  repeat first [apply safe_drop_trailing | apply safe_drop_leading].
  apply safe_replace.
Qed.

Lemma cleaned_nonempty filename : cleaned filename <> "".
Proof.
  unfold cleaned.
  destruct (String.eqb _ "") eqn:E; [discriminate|].
  now apply String.eqb_neq.
Qed.

Lemma length_substring_to n s : (String.length (substring_to n s) <= n)%nat.
Proof.
  revert s. induction n as [|n IH]; intros [|c r]; simpl; try lia.
  specialize (IH r). lia.
Qed.

Lemma substring_to_nonempty n s :
  (0 < n)%nat -> s <> "" -> substring_to n s <> "".
Proof. destruct n; [lia|]. destruct s; [congruence | discriminate]. Qed.

Lemma substring_to_all n s : (String.length s <= n)%nat -> substring_to n s = s.
Proof.
  revert s. induction n as [|n IH]; intros [|c r]; simpl; try reflexivity; try lia.
  intros H. rewrite IH by lia. reflexivity.
Qed.

Lemma length_append a b :
  String.length (a ++ b) = (String.length a + String.length b)%nat.
Proof. induction a as [|c r IH]; simpl; [reflexivity | now rewrite IH]. Qed.

(** X30. A sanitized file name is safe to use as one. Whatever the name,
    [sanitizeFilename] returns a non-empty string that contains none of the
    characters it replaces (path separators, quotes, wildcards, control
    characters); and the result is at most 100 characters long whenever
    the extension of the cleaned name has at most 5 (with a longer
    extension the limit of 100 is not kept: the extension is appended
    whole). *)
Theorem sanitized_name_is_safe filename :
  sanitizeFilename filename <> ""
  /\ Forall (fun c => dangerous c = false)
            (list_ascii_of_string (sanitizeFilename filename))
  /\ ((String.length (getFileExtension (cleaned filename)) <= 5)%nat ->
      (String.length (sanitizeFilename filename) <= 100)%nat)
  /\ (String.length (sanitizeFilename filename)
      <= Nat.max 100 (95 + String.length (getFileExtension (cleaned filename))))%nat.
Proof.
  unfold sanitizeFilename.
  destruct (String.eqb filename "").
  { split; [discriminate|]. split; [repeat constructor|]. simpl. split; lia. }
  pose proof (safe_cleaned filename) as Hsafe.
  pose proof (cleaned_nonempty filename) as Hne.
  destruct (100 <? String.length (cleaned filename))%nat eqn:Hlen.
  - apply Nat.ltb_lt in Hlen.
    set (ext := getFileExtension (cleaned filename)) in *.
    set (stem := substring_to (String.length (cleaned filename) - String.length ext)
                              (cleaned filename)).
    pose proof (length_substring_to 95 stem) as H95.
    split; [|split; [|split]].
    + destruct ext as [|c r] eqn:Eext.
      * assert (Hstem : stem = cleaned filename).
        { unfold stem. simpl. rewrite Nat.sub_0_r. now apply substring_to_all. }
        rewrite Hstem.
        destruct (cleaned filename); [congruence | discriminate].
      * destruct (substring_to 95 stem); discriminate.
    + rewrite list_ascii_app. apply Forall_app. split.
      * now apply safe_substring_to, safe_substring_to.
      * now apply safe_extension.
    + intros Hext. rewrite length_append. lia.
    + rewrite length_append. lia.
  - apply Nat.ltb_ge in Hlen.
    split; [exact Hne|]. split; [exact Hsafe|]. split; lia.
Qed.

End FileValidatorFacts.
